(** * Package routing: routing table and route resolution

    A shallow embedding of [routing/routing.go], [routing/routing_linux.go],
    [routing/routing_windows.go] and [routing/other.go].

    Go values are modelled as follows.
    - [int], [int32], [int64], [uint32]: [Z] (the package only compares and
      copies them).
    - [byte]: a [Z] in [0, 256); [&] is [Z.land].
    - a byte slice ([net.IP], [net.IPMask], [net.HardwareAddr]):
      [option (list Z)], where [None] is the nil slice, since the package
      tests slices against nil.
    - [map[int64]T]: [gmap Z T]; a [range] over a map visits the entries in
      an order Go leaves unspecified, so every such loop takes the order it
      visits as an argument (see [rangeOver]).
    - several results with an [error]: a record of the named results.
    - a panic: the result [None] of a function into an [option].

    The package calls Go's standard library: [net.IPNet.Contains],
    [net.IP.Equal], [net.IP.To4] and the like are transcribed from package
    [net].  The theorems about the built table assume of [sort.Sort]
    what its documentation promises ([sortContract]); the module [sort]
    transcribes its algorithm, which is proved to meet this contract
    ([sortRoutes_contract]) and is run on the tables of the examples. *)

From stdpp Require Import gmap list sorting strings.
From Stdlib Require Import ZArith Lia.

Local Open Scope Z_scope.

(** ** Byte slices *)

Definition slice := option (list Z).

Definition elems (s : slice) : list Z :=
  match s with None => [] | Some l => l end.

Definition len (s : slice) : Z := Z.of_nat (length (elems s)).

Definition isNil (s : slice) : bool :=
  match s with None => true | Some _ => false end.

(** [s[i]] for an index in range. *)
Definition at_ (l : list Z) (i : nat) : Z := nth i l 0.

(** ** The functions of Go's standard library that the package calls *)

Module bytes.

(** [bytes.Equal]: same length and same bytes; nil equals empty. *)
Fixpoint equalList (a b : list Z) : bool :=
  match a, b with
  | [], [] => true
  | x :: a', y :: b' => (x =? y) && equalList a' b'
  | _, _ => false
  end.

Definition Equal (a b : slice) : bool := equalList (elems a) (elems b).

End bytes.

Module net.

Definition IP := slice.
Definition IPMask := slice.
Definition HardwareAddr := slice.

Definition IPv4len : Z := 4.
Definition IPv6len : Z := 16.

Definition v4InV6Prefix : list Z := [0; 0; 0; 0; 0; 0; 0; 0; 0; 0; 255; 255].

(** [IPv4(a, b, c, d)]: the 16-byte form of an IPv4 address. *)
Definition IPv4 (a b c d : Z) : IP := Some (v4InV6Prefix ++ [a; b; c; d]).

Definition IPv4zero : IP := IPv4 0 0 0 0.
Definition IPv6unspecified : IP := Some (replicate 16 0).

Definition allZero (l : list Z) : bool := forallb (fun b => b =? 0) l.

(** [ip.To4()] *)
Definition To4 (ip : IP) : IP :=
  if len ip =? IPv4len then ip
  else if (len ip =? IPv6len) && allZero (take 10 (elems ip))
          && (at_ (elems ip) 10 =? 255) && (at_ (elems ip) 11 =? 255)
       then Some (drop 12 (elems ip))
       else None.

(** [ip.To16()] *)
Definition To16 (ip : IP) : IP :=
  if len ip =? IPv4len
  then IPv4 (at_ (elems ip) 0) (at_ (elems ip) 1) (at_ (elems ip) 2) (at_ (elems ip) 3)
  else if len ip =? IPv6len then ip
       else None.

(** [ip.Equal(x)] *)
Definition Equal (ip x : IP) : bool :=
  if len ip =? len x then bytes.equalList (elems ip) (elems x)
  else if (len ip =? IPv4len) && (len x =? IPv6len)
       then bytes.equalList (take 12 (elems x)) v4InV6Prefix
            && bytes.equalList (elems ip) (drop 12 (elems x))
       else if (len ip =? IPv6len) && (len x =? IPv4len)
            then bytes.equalList (take 12 (elems ip)) v4InV6Prefix
                 && bytes.equalList (drop 12 (elems ip)) (elems x)
            else false.

(** [ip.IsUnspecified()] *)
Definition IsUnspecified (ip : IP) : bool :=
  Equal ip IPv4zero || Equal ip IPv6unspecified.

Record IPNet := mkIPNet { IPNet_IP : IP; IPNet_Mask : IPMask }.

(** The zero value [net.IPNet{}]. *)
Definition zeroIPNet : IPNet := mkIPNet None None.

(** [networkNumberAndMask(n)]; the pair (nil, nil) when the network is
    malformed. *)
Definition networkNumberAndMask (n : IPNet) : IP * IPMask :=
  let ip4 := To4 (IPNet_IP n) in
  let ip := if isNil ip4 then IPNet_IP n else ip4 in
  if isNil ip4 && negb (len ip =? IPv6len) then (None, None)
  else
    let m := IPNet_Mask n in
    if len m =? IPv4len then
      if negb (len ip =? IPv4len) then (None, None) else (ip, m)
    else if len m =? IPv6len then
      if len ip =? IPv4len then (ip, Some (drop 12 (elems m))) else (ip, m)
    else (None, None).

(** [n.Contains(ip)] *)
Definition Contains (n : IPNet) (ip : IP) : bool :=
  let '(nn, m) := networkNumberAndMask n in
  let x := To4 ip in
  let ip := if isNil x then ip else x in
  let l := len ip in
  if negb (l =? len nn) then false
  else forallb (fun i => Z.land (at_ (elems nn) i) (at_ (elems m) i)
                         =? Z.land (at_ (elems ip) i) (at_ (elems m) i))
               (seq 0 (Z.to_nat l)).

(** The loop of [CIDRMask]: [n] ones are still to be written into the
    [l] bytes that remain. *)
Fixpoint cidrBytes (l : nat) (n : Z) : list Z :=
  match l with
  | O => []
  | S l' => if 8 <=? n then 255 :: cidrBytes l' (n - 8)
            else (255 - Z.shiftr 255 n) :: cidrBytes l' 0
  end.

(** [net.CIDRMask(ones, bits)] *)
Definition CIDRMask (ones bits : Z) : IPMask :=
  if negb (bits =? 8 * IPv4len) && negb (bits =? 8 * IPv6len) then None
  else if (ones <? 0) || (bits <? ones) then None
       else Some (cidrBytes (Z.to_nat (bits / 8)) ones).

(** [net.Interface] *)
Record Interface := mkInterface {
  Index : Z;
  MTU : Z;
  Name : string;
  HardwareAddr_ : HardwareAddr;
  Flags : Z
}.

End net.

(** ** routing.go *)

(** [rtInfo] contains information on a single route. *)
Record rtInfo := mkRtInfo {
  Dst : net.IPNet;
  Src : net.IPNet;
  InputIface : Z;
  OutputIface : Z;
  Gateway : net.IP;
  Priority : Z;
  PrefSrc : net.IP;
  Metrics : Z
}.

(** The zero value [rtInfo{}]. *)
Definition zeroRtInfo : rtInfo :=
  mkRtInfo net.zeroIPNet net.zeroIPNet 0 0 None 0 None 0.

(** The inner loop of [countMaskOnes]: [each &= each - 1; cnt++] until
    [each] is zero.  A byte has eight bits, so eight rounds are enough
    (lemma [onesLoop_done]). *)
Fixpoint onesLoop (rounds : nat) (each cnt : Z) : Z * Z :=
  match rounds with
  | O => (each, cnt)
  | S k => if each =? 0 then (each, cnt)
           else onesLoop k (Z.land each (each - 1)) (cnt + 1)
  end.

Definition countMaskOnes (mask : net.IPMask) : Z :=
  fold_left (fun cnt each => snd (onesLoop 8 each cnt)) (elems mask) 0.

Abbreviation routeSlice := (list rtInfo) (only parsing).

(** The comparison of [routeSlice.Less] on the two entries it reads. *)
Definition lessInfo (ri rj : rtInfo) : bool :=
  let onesI := countMaskOnes (net.IPNet_Mask (Dst ri)) in
  let onesJ := countMaskOnes (net.IPNet_Mask (Dst rj)) in
  if onesI =? onesJ then
    if Priority ri =? Priority rj then Metrics ri <? Metrics rj
    else Priority ri <? Priority rj
  else onesJ <? onesI.

(** [r[i]]; [None] where Go panics on an index out of range. *)
Definition index (r : routeSlice) (i : Z) : option rtInfo :=
  if i <? 0 then None else r !! Z.to_nat i.

(** [routeSlice] implements [sort.Interface]. *)
Definition Len (r : routeSlice) : Z := Z.of_nat (length r).

Definition Less (r : routeSlice) (i j : Z) : option bool :=
  match index r i, index r j with
  | Some ri, Some rj => Some (lessInfo ri rj)
  | _, _ => None
  end.

Definition Swap (r : routeSlice) (i j : Z) : option routeSlice :=
  match index r i, index r j with
  | Some ri, Some rj => Some (<[Z.to_nat j := ri]> (<[Z.to_nat i := rj]> r))
  | _, _ => None
  end.

Record ipAddrs := mkIpAddrs { addrs_v4 : list net.IPNet; addrs_v6 : list net.IPNet }.

Record router := mkRouter {
  ifaces : gmap Z net.Interface;
  addrs : gmap Z ipAddrs;
  v4 : routeSlice;
  v6 : routeSlice
}.

(** The errors the package builds with [fmt.Errorf] and [errors.New]. *)
Inductive error :=
| NoRouteFound (dst : net.IP)            (* "no route found for %v" *)
| NoOutputInterfaceFound (dst : net.IP)  (* "no output interface found for %v" *)
| NoSourceFound (dst : net.IP)           (* "no src found for %v" *)
| InvalidAddress                         (* "IP is not valid as IPv4 or IPv6" *)
| IngestionError.                        (* an error of the platform calls *)

(** A [range] over the map [m] visits the list [o]: every entry once, in
    any order. *)
Definition rangeOver {V} (m : gmap Z V) (o : list (Z * V)) : Prop :=
  o ≡ₚ map_to_list m.

(** The orders in which the three kinds of [range] loops of a resolution
    visit their maps: the interfaces in [RouteWithSrc], the addresses in the
    preferred-source loop and in the fallback loop of [route]. *)
Record visits := mkVisits {
  visitIfaces : list (Z * net.Interface);
  visitAddrsPref : list (Z * ipAddrs);
  visitAddrsAny : list (Z * ipAddrs)
}.

Definition visitsOf (r : router) (vs : visits) : Prop :=
  rangeOver (ifaces r) (visitIfaces vs)
  /\ rangeOver (addrs r) (visitAddrsPref vs)
  /\ rangeOver (addrs r) (visitAddrsAny vs).

(** The order [map_to_list] gives is one of them. *)
Definition someVisits (r : router) : visits :=
  mkVisits (map_to_list (ifaces r)) (map_to_list (addrs r)) (map_to_list (addrs r)).

(** The named results of [route]. *)
Record routeResult := mkRouteResult {
  res_iface : Z;
  res_gateway : net.IP;
  res_preferredSrc : net.IP;
  res_err : option error
}.

(** The loop of [route] over the route slice: the first entry that no
    [continue] skips. *)
Fixpoint scan (input : Z) (src dst : net.IP) (rs : routeSlice) : option rtInfo :=
  match rs with
  | [] => None
  | rt :: rest =>
      if negb (net.Contains (Dst rt) dst) then scan input src dst rest
      else if negb (net.Contains (Src rt) src) then scan input src dst rest
      else if negb (InputIface rt =? 0) && negb (input =? 0)
              && negb (InputIface rt =? input)
           then scan input src dst rest
           else Some rt
  end.

Definition family (ipv6 : bool) (a : ipAddrs) : list net.IPNet :=
  if ipv6 then addrs_v6 a else addrs_v4 a.

(** [for _, each := range addrs { if p(each) { iface = i; preferredSrc = each.IP } }] *)
Definition eachAddr (p : net.IPNet -> bool) (i : Z) (l : list net.IPNet)
    (st : Z * net.IP) : Z * net.IP :=
  fold_left (fun st each => if p each then (i, net.IPNet_IP each) else st) l st.

(** [for i, ifaceAddrs := range r.addrs { ... }] around the loop above. *)
Definition eachIface (p : net.IPNet -> bool) (ipv6 : bool)
    (o : list (Z * ipAddrs)) (st : Z * net.IP) : Z * net.IP :=
  fold_left (fun st e => eachAddr p (fst e) (family ipv6 (snd e)) st) o st.

(** [for _, each := range addrs { if p(each) { preferredSrc = each.IP } }] *)
Definition pickAddr (p : net.IPNet -> bool) (l : list net.IPNet)
    (preferredSrc : net.IP) : net.IP :=
  fold_left (fun ps each => if p each then net.IPNet_IP each else ps) l preferredSrc.

(** The two conditions of the address loops. *)
Definition containsAndEqual (gateway prefSrc : net.IP) (each : net.IPNet) : bool :=
  net.Contains each gateway && net.Equal (net.IPNet_IP each) prefSrc.

Definition containsGateway (gateway : net.IP) (each : net.IPNet) : bool :=
  net.Contains each gateway.

(** The gateway [route] derives from the matched entry. *)
Definition gatewayOf (rt : rtInfo) (dst : net.IP) : net.IP :=
  if isNil (Gateway rt) || net.IsUnspecified (Gateway rt) then dst else Gateway rt.

(** The part of [route] after the matched entry is known. *)
Definition derive (r : router) (vs : visits) (rt : rtInfo) (dst : net.IP)
    (ipv6 : bool) : routeResult :=
  let gateway := gatewayOf rt dst in
  if OutputIface rt =? 0 then
    let st0 := (0, None) in
    let st1 :=
      if negb (isNil (PrefSrc rt))
      then eachIface (containsAndEqual gateway (PrefSrc rt)) ipv6 (visitAddrsPref vs) st0
      else st0 in
    let st2 :=
      if isNil (snd st1)
      then eachIface (containsGateway gateway) ipv6 (visitAddrsAny vs) st1
      else st1 in
    if isNil (snd st2)
    then mkRouteResult (fst st2) gateway (snd st2) (Some (NoSourceFound dst))
    else mkRouteResult (fst st2) gateway (snd st2) None
  else
    let iface := OutputIface rt in
    match addrs r !! iface with
    | None => mkRouteResult iface gateway None (Some (NoOutputInterfaceFound dst))
    | Some ifaceAddrs =>
        let l := family ipv6 ifaceAddrs in
        let ps1 :=
          if negb (isNil (PrefSrc rt))
          then pickAddr (containsAndEqual gateway (PrefSrc rt)) l None
          else None in
        let ps2 :=
          if isNil ps1 then pickAddr (containsGateway gateway) l ps1 else ps1 in
        if isNil ps2
        then mkRouteResult iface gateway ps2 (Some (NoSourceFound dst))
        else mkRouteResult iface gateway ps2 None
    end.

(** [r.route(input, src, dst, ipv6)] *)
Definition route (r : router) (vs : visits) (input : Z) (src dst : net.IP)
    (ipv6 : bool) : routeResult :=
  let rs := if ipv6 then v6 r else v4 r in
  match scan input src dst rs with
  | None => mkRouteResult 0 None None (Some (NoRouteFound dst))
  | Some rt => derive r vs rt dst ipv6
  end.

(** The named results of [RouteWithSrc] and [Route]. *)
Record routeAnswer := mkRouteAnswer {
  ans_iface : option net.Interface;
  ans_gateway : net.IP;
  ans_preferredSrc : net.IP;
  ans_err : option error
}.

(** The loop of [RouteWithSrc] over the interfaces: the index of the first
    one visited whose hardware address equals [input], [-1] when there is
    none. *)
Fixpoint inputIndexOf (input : net.HardwareAddr) (o : list (Z * net.Interface)) : Z :=
  match o with
  | [] => -1
  | (i, iface) :: rest =>
      if bytes.Equal input (net.HardwareAddr_ iface) then i
      else inputIndexOf input rest
  end.

(** [r.RouteWithSrc(input, src, dst)] *)
Definition RouteWithSrc (r : router) (vs : visits) (input : net.HardwareAddr)
    (src dst : net.IP) : routeAnswer :=
  let inputIndex :=
    if negb (isNil input) then inputIndexOf input (visitIfaces vs) else 0 in
  let res :=
    if negb (isNil (net.To4 dst)) then route r vs inputIndex src dst false
    else if negb (isNil (net.To16 dst)) then route r vs inputIndex src dst true
         else mkRouteResult 0 None None (Some InvalidAddress) in
  match res_err res with
  | Some e => mkRouteAnswer None (res_gateway res) (res_preferredSrc res) (Some e)
  | None => mkRouteAnswer (ifaces r !! res_iface res) (res_gateway res)
                          (res_preferredSrc res) None
  end.

(** [r.Route(dst)] *)
Definition Route (r : router) (vs : visits) (dst : net.IP) : routeAnswer :=
  RouteWithSrc r vs None None dst.

(** ** Construction of the route table *)

(** The constants of package [syscall] that [routing_linux.go] uses. *)
Module syscall.
Definition AF_INET : Z := 2.
Definition AF_INET6 : Z := 10.
Definition NLMSG_DONE : Z := 3.
Definition RTM_NEWROUTE : Z := 24.
Definition RTA_DST : Z := 1.
Definition RTA_SRC : Z := 2.
Definition RTA_IIF : Z := 3.
Definition RTA_OIF : Z := 4.
Definition RTA_GATEWAY : Z := 5.
Definition RTA_PRIORITY : Z := 6.
Definition RTA_PREFSRC : Z := 7.
Definition RTA_METRICS : Z := 8.
End syscall.

(** [struct rtmsg], the head of the data of an [RTM_NEWROUTE] message. *)
Record routeInfoInMemory := mkRouteInfoInMemory {
  Family : Z;
  DstLen : Z;
  SrcLen : Z;
  TOS : Z;
  Table : Z;
  Protocol : Z;
  Scope : Z;
  Type_ : Z;
  rtm_Flags : Z
}.

(** [syscall.NetlinkRouteAttr]: the type of the attribute and its value. *)
Record NetlinkRouteAttr := mkAttr { Attr_Type : Z; Value : list Z }.

(** A parsed netlink message: the type of its header, the [rtmsg] its data
    starts with, and what [syscall.ParseNetlinkRouteAttr] returns for it
    ([None] for an error). *)
Record NetlinkMessage := mkMessage {
  Header_Type : Z;
  Data : routeInfoInMemory;
  ParsedAttrs : option (list NetlinkRouteAttr)
}.

(** The read of an [int32] through an unsafe pointer to [attr.Value[0]],
    for a value of four bytes or more: the first four bytes of the value as
    a 32-bit integer in the byte order of the host, here little endian.  On
    a value without bytes the code panics, and on a value of one to three
    bytes it reads the memory behind the value; the function stands for
    neither, and what is proved of the fields it fills as a result of the
    code takes the values of these attributes to have four bytes or more
    ([intValues]). *)
Definition int32At (v : list Z) : Z :=
  let u := at_ v 0 + 256 * at_ v 1 + 65536 * at_ v 2 + 16777216 * at_ v 3 in
  if u <? 2147483648 then u else u - 4294967296.

(** One round of the loop over the attributes of a route. *)
Definition setAttr (rt : routeInfoInMemory) (routeInfo : rtInfo)
    (attr : NetlinkRouteAttr) : rtInfo :=
  let v := Value attr in
  let bits := Z.of_nat (length v) * 8 in
  let t := Attr_Type attr in
  let 'mkRtInfo dst src iif oif gw prio pref metrics := routeInfo in
  if t =? syscall.RTA_DST then
    mkRtInfo (net.mkIPNet (Some v) (net.CIDRMask (DstLen rt) bits))
             src iif oif gw prio pref metrics
  else if t =? syscall.RTA_SRC then
    mkRtInfo dst (net.mkIPNet (Some v) (net.CIDRMask (SrcLen rt) bits))
             iif oif gw prio pref metrics
  else if t =? syscall.RTA_IIF then
    mkRtInfo dst src (int32At v) oif gw prio pref metrics
  else if t =? syscall.RTA_OIF then
    mkRtInfo dst src iif (int32At v) gw prio pref metrics
  else if t =? syscall.RTA_GATEWAY then
    mkRtInfo dst src iif oif (Some v) prio pref metrics
  else if t =? syscall.RTA_PRIORITY then
    mkRtInfo dst src iif oif gw (int32At v) pref metrics
  else if t =? syscall.RTA_PREFSRC then
    mkRtInfo dst src iif oif gw prio (Some v) metrics
  else if t =? syscall.RTA_METRICS then
    mkRtInfo dst src iif oif gw prio pref (int32At v)
  else routeInfo.

(** The [rtInfo] built from the attributes of one route. *)
Definition routeInfoOf (rt : routeInfoInMemory) (attrs : list NetlinkRouteAttr) : rtInfo :=
  fold_left (setAttr rt) attrs zeroRtInfo.

Definition appendV4 (r : router) (e : rtInfo) : router :=
  mkRouter (ifaces r) (addrs r) (v4 r ++ [e]) (v6 r).

Definition appendV6 (r : router) (e : rtInfo) : router :=
  mkRouter (ifaces r) (addrs r) (v4 r) (v6 r ++ [e]).

(** The loop of the Linux [setupRouteTable] over the messages. *)
Fixpoint readMessages (msgs : list NetlinkMessage) (r : router) : router * option error :=
  match msgs with
  | [] => (r, None)
  | m :: rest =>
      if Header_Type m =? syscall.NLMSG_DONE then (r, None)
      else if Header_Type m =? syscall.RTM_NEWROUTE then
        let rt := Data m in
        match ParsedAttrs m with
        | None => (r, Some IngestionError)
        | Some attrs =>
            if negb (Family rt =? syscall.AF_INET) && negb (Family rt =? syscall.AF_INET6)
            then readMessages rest r
            else
              let routeInfo := routeInfoOf rt attrs in
              if Family rt =? syscall.AF_INET
              then readMessages rest (appendV4 r routeInfo)
              else readMessages rest (appendV6 r routeInfo)
        end
      else readMessages rest r
  end.

(** The Linux [setupRouteTable] up to the two calls of [sort.Sort]; [tab]
    is what [NetlinkRIB] and [ParseNetlinkMessage] return. *)
Definition ingestLinux (tab : option (list NetlinkMessage)) (r : router)
    : router * option error :=
  match tab with
  | None => (r, Some IngestionError)
  | Some msgs => readMessages msgs r
  end.

(** [IP_ADDRESS_PREFIX] and the fields of [MIB_IPFORWARD_ROW2] that the
    package reads; a [sockaddrINet] is its 28 bytes. *)
Record ipAddressPrefix := mkPrefix { Prefix : list Z; PrefixLength : Z }.

Record mibIPForwardRow2 := mkRow {
  InterfaceLuid : Z;
  InterfaceIndex : Z;
  DestinationPrefix : ipAddressPrefix;
  NextHop : list Z;
  Metric : Z
}.

(** [copy(make([]byte, n), s)] for a source [s] of [n] bytes or more. *)
Definition copyInto (n : nat) (s : list Z) : list Z :=
  take n s ++ replicate (n - length s)%nat 0.

(** [sockaddrIN.SinAddr]: the four bytes after family and port. *)
Definition SinAddr (sa : list Z) : list Z := take 4 (drop 4 sa).

(** [sockaddrIN6.Sin6Addr]: the sixteen bytes after family, port and flow. *)
Definition Sin6Addr (sa : list Z) : list Z := take 16 (drop 8 sa).

Definition rowInfo4 (row : mibIPForwardRow2) : rtInfo :=
  mkRtInfo
    (net.mkIPNet (Some (copyInto 4 (SinAddr (Prefix (DestinationPrefix row)))))
                 (net.CIDRMask (PrefixLength (DestinationPrefix row)) 32))
    net.zeroIPNet 0 (InterfaceIndex row)
    (Some (copyInto 4 (SinAddr (NextHop row)))) 0 None (Metric row).

Definition rowInfo6 (row : mibIPForwardRow2) : rtInfo :=
  mkRtInfo
    (net.mkIPNet (Some (copyInto 16 (Sin6Addr (Prefix (DestinationPrefix row)))))
                 (net.CIDRMask (PrefixLength (DestinationPrefix row)) 128))
    net.zeroIPNet 0 (InterfaceIndex row)
    (Some (copyInto 16 (Sin6Addr (NextHop row)))) 0 None (Metric row).

(** The Windows [setupRouteTable] up to the two calls of [sort.Sort];
    [table4] and [table6] are the rows of the two calls of
    [GetIpForwardTable2], [None] when the call fails. *)
Definition ingestWindows (table4 table6 : option (list mibIPForwardRow2))
    (r : router) : router * option error :=
  match table4 with
  | None => (r, Some IngestionError)
  | Some rows4 =>
      let r1 := fold_left (fun r row => appendV4 r (rowInfo4 row)) rows4 r in
      match table6 with
      | None => (r1, Some IngestionError)
      | Some rows6 =>
          (fold_left (fun r row => appendV6 r (rowInfo6 row)) rows6 r1, None)
      end
  end.

Section Construction.

(** [sort.Sort] on a [routeSlice]: the slice after the call. *)
Variable sortSort : routeSlice -> routeSlice.

(** [sort.Sort(r.v4); sort.Sort(r.v6)] *)
Definition sortTables (r : router) : router :=
  mkRouter (ifaces r) (addrs r) (sortSort (v4 r)) (sortSort (v6 r)).

Definition finish (res : router * option error) : router * option error :=
  match res with
  | (r, None) => (sortTables r, None)
  | (r, Some e) => (r, Some e)
  end.

(** [r.setupRouteTable()] of [routing_linux.go] *)
Definition setupRouteTable_linux (tab : option (list NetlinkMessage))
    (r : router) : router * option error :=
  finish (ingestLinux tab r).

(** [r.setupRouteTable()] of [routing_windows.go] *)
Definition setupRouteTable_windows (table4 table6 : option (list mibIPForwardRow2))
    (r : router) : router * option error :=
  finish (ingestWindows table4 table6 r).

End Construction.

(** ** [New] *)

(** A [net.Addr] that [iface.Addrs] returns: a [*net.IPNet], or a value of
    another type, which [New] passes over. *)
Inductive Addr :=
| IPNetAddr (inet : net.IPNet)
| OtherAddr.

(** The errors of [New]: its own, the error of [net.Interfaces] or of
    [iface.Addrs], and the error of [setupRouteTable]. *)
Inductive newError :=
| DuplicatedIndex (index : Z) (iface duplicated_iface : net.Interface)
                                  (* "duplicated index iface %v = %v = %v" *)
| InterfacesError
| AddrsError
| SetupError (e : error).

(** One round of the loop of [New] over the addresses of an interface: a
    [*net.IPNet] goes to the IPv4 addresses when its address has a four-byte
    form, and to the IPv6 addresses when it has none. *)
Definition addAddr (addrs : ipAddrs) (addr : Addr) : ipAddrs :=
  match addr with
  | IPNetAddr inet =>
      if negb (isNil (net.To4 (net.IPNet_IP inet)))
      then mkIpAddrs (addrs_v4 addrs ++ [inet]) (addrs_v6 addrs)
      else mkIpAddrs (addrs_v4 addrs) (addrs_v6 addrs ++ [inet])
  | OtherAddr => addrs
  end.

(** The loop of [New] over the interfaces; an interface comes with what its
    [Addrs] returns, [None] for an error. *)
Fixpoint eachInterface (l : list (net.Interface * option (list Addr))) (rtr : router)
    : router + newError :=
  match l with
  | [] => inl rtr
  | (iface, ifaceAddrs) :: rest =>
      match ifaces rtr !! net.Index iface with
      | Some duplicated_iface =>
          inr (DuplicatedIndex (net.Index iface) iface duplicated_iface)
      | None =>
          match ifaceAddrs with
          | None => inr AddrsError
          | Some ifaceAddrs =>
              eachInterface rest
                (mkRouter (<[net.Index iface := iface]> (ifaces rtr))
                          (<[net.Index iface := fold_left addAddr ifaceAddrs (mkIpAddrs [] [])]>
                             (addrs rtr))
                          (v4 rtr) (v6 rtr))
          end
      end
  end.

(** [New()]: [interfaces] is what [net.Interfaces] returns, [None] for an
    error, and [setupRouteTable] the method of the platform, which returns
    the router it leaves and its error, or panics ([None]).  The result is
    the router or the error; [None] when [New] panics. *)
Definition New (setupRouteTable : router -> option (router * option error))
    (interfaces : option (list (net.Interface * option (list Addr))))
    : option (router + newError) :=
  match interfaces with
  | None => Some (inr InterfacesError)
  | Some l =>
      match eachInterface l (mkRouter ∅ ∅ [] []) with
      | inr e => Some (inr e)
      | inl rtr =>
          match setupRouteTable rtr with
          | None => None
          | Some (_, Some e) => Some (inr (SetupError e))
          | Some (rtr', None) => Some (inl rtr')
          end
      end
  end.

(** [r.setupRouteTable()] of [other.go]: a panic. *)
Definition setupRouteTable_other (r : router) : option (router * option error) := None.

(** [New] on Linux, on Windows and on the other platforms. *)
Definition New_linux (sortSort : routeSlice -> routeSlice)
    (tab : option (list NetlinkMessage)) :=
  New (fun r => Some (setupRouteTable_linux sortSort tab r)).

Definition New_windows (sortSort : routeSlice -> routeSlice)
    (table4 table6 : option (list mibIPForwardRow2)) :=
  New (fun r => Some (setupRouteTable_windows sortSort table4 table6 r)).

Definition New_other := New setupRouteTable_other.

(** ** [sort.Sort]

    The algorithm of [sort.Sort] since Go 1.19 (pattern-defeating
    quicksort), over the three methods of [sort.Interface].  A loop runs for
    at most [fuel] rounds; a result of [None] means that the rounds ran out
    or that a method was called on an index out of range. *)

Module sort.

Inductive sortedHint := unknownHint | increasingHint | decreasingHint.

Definition isIncreasing (h : sortedHint) : bool :=
  match h with increasingHint => true | _ => false end.

Definition isDecreasing (h : sortedHint) : bool :=
  match h with decreasingHint => true | _ => false end.

(** [bits.Len(uint(n))] *)
Definition bitsLen (n : Z) : Z := if n <=? 0 then 0 else Z.log2 n + 1.

(** [nextPowerOfTwo(length)] *)
Definition nextPowerOfTwo (length : Z) : Z := Z.shiftl 1 (bitsLen length).

(** [xorshift.Next]: the new state of the generator, which is also the
    number it returns. *)
Definition xorshiftNext (r : Z) : Z :=
  let r := Z.lxor r (Z.shiftl r 13 mod 2 ^ 64) in
  let r := Z.lxor r (Z.shiftr r 17) in
  Z.lxor r (Z.shiftl r 5 mod 2 ^ 64).

Section Interface.

Context {D : Type}.
Variable Len : D -> Z.
Variable Less : D -> Z -> Z -> option bool.
Variable Swap : D -> Z -> Z -> option D.
(** The generator of [breakPatterns]. *)
Variable next : Z -> Z.

(** [for j := i; j > a && data.Less(j, j-1); j-- { data.Swap(j, j-1) }] *)
Fixpoint insertDown (fuel : nat) (data : D) (a j : Z) : option D :=
  match fuel with
  | O => None
  | S k =>
      if a <? j then
        lt ← Less data j (j - 1);
        if lt : bool then data ← Swap data j (j - 1); insertDown k data a (j - 1)
        else Some data
      else Some data
  end.

(** [for i := a + 1; i < b; i++ { ... }] *)
Fixpoint insertionLoop (fuel0 fuel : nat) (data : D) (a b i : Z) : option D :=
  match fuel with
  | O => None
  | S k =>
      if i <? b then
        data ← insertDown fuel0 data a i;
        insertionLoop fuel0 k data a b (i + 1)
      else Some data
  end.

Definition insertionSort (fuel : nat) (data : D) (a b : Z) : option D :=
  insertionLoop fuel fuel data a b (a + 1).

(** [siftDown(data, lo, hi, first)]; [root] starts as [lo]. *)
Fixpoint siftDown (fuel : nat) (data : D) (root hi first : Z) : option D :=
  match fuel with
  | O => None
  | S k =>
      let child := 2 * root + 1 in
      if hi <=? child then Some data
      else
        child ← (if child + 1 <? hi then
                   lt ← Less data (first + child) (first + child + 1);
                   Some (if lt : bool then child + 1 else child)
                 else Some child);
        lt ← Less data (first + root) (first + child);
        if negb lt then Some data
        else data ← Swap data (first + root) (first + child);
             siftDown k data child hi first
  end.

(** [for i := (hi - 1) / 2; i >= 0; i-- { siftDown(data, i, hi, first) }] *)
Fixpoint heapBuild (fuel0 fuel : nat) (data : D) (i hi first : Z) : option D :=
  match fuel with
  | O => None
  | S k =>
      if 0 <=? i then
        data ← siftDown fuel0 data i hi first;
        heapBuild fuel0 k data (i - 1) hi first
      else Some data
  end.

(** [for i := hi - 1; i >= 0; i-- { data.Swap(first, first+i); siftDown(data, lo, i, first) }] *)
Fixpoint heapPop (fuel0 fuel : nat) (data : D) (i lo first : Z) : option D :=
  match fuel with
  | O => None
  | S k =>
      if 0 <=? i then
        data ← Swap data first (first + i);
        data ← siftDown fuel0 data lo i first;
        heapPop fuel0 k data (i - 1) lo first
      else Some data
  end.

Definition heapSort (fuel : nat) (data : D) (a b : Z) : option D :=
  let first := a in
  let lo := 0 in
  let hi := b - a in
  data ← heapBuild fuel fuel data (Z.quot (hi - 1) 2) hi first;
  heapPop fuel fuel data (hi - 1) lo first.

(** [for i <= j && data.Less(i, a) { i++ }] *)
Fixpoint skipLess (fuel : nat) (data : D) (a i j : Z) : option Z :=
  match fuel with
  | O => None
  | S k =>
      if i <=? j then
        lt ← Less data i a;
        if lt : bool then skipLess k data a (i + 1) j else Some i
      else Some i
  end.

(** [for i <= j && !data.Less(j, a) { j-- }] *)
Fixpoint skipNotLess (fuel : nat) (data : D) (a i j : Z) : option Z :=
  match fuel with
  | O => None
  | S k =>
      if i <=? j then
        lt ← Less data j a;
        if negb lt then skipNotLess k data a i (j - 1) else Some j
      else Some j
  end.

(** The last loop of [partition]; it returns the data and [j]. *)
Fixpoint partitionLoop (fuel0 fuel : nat) (data : D) (a i j : Z) : option (D * Z) :=
  match fuel with
  | O => None
  | S k =>
      i ← skipLess fuel0 data a i j;
      j ← skipNotLess fuel0 data a i j;
      if j <? i then Some (data, j)
      else data ← Swap data i j;
           partitionLoop fuel0 k data a (i + 1) (j - 1)
  end.

(** [partition(data, a, b, pivot)]: the data, the new pivot and whether
    the slice was already partitioned. *)
Definition partition (fuel : nat) (data : D) (a b pivot : Z) : option (D * Z * bool) :=
  data ← Swap data a pivot;
  let i := a + 1 in
  let j := b - 1 in
  i ← skipLess fuel data a i j;
  j ← skipNotLess fuel data a i j;
  if j <? i then
    data ← Swap data j a; Some (data, j, true)
  else
    data ← Swap data i j;
    '(data, j) ← partitionLoop fuel fuel data a (i + 1) (j - 1);
    data ← Swap data j a; Some (data, j, false).

(** [for i <= j && !data.Less(a, i) { i++ }] *)
Fixpoint skipNotGreater (fuel : nat) (data : D) (a i j : Z) : option Z :=
  match fuel with
  | O => None
  | S k =>
      if i <=? j then
        lt ← Less data a i;
        if negb lt then skipNotGreater k data a (i + 1) j else Some i
      else Some i
  end.

(** [for i <= j && data.Less(a, j) { j-- }] *)
Fixpoint skipGreater (fuel : nat) (data : D) (a i j : Z) : option Z :=
  match fuel with
  | O => None
  | S k =>
      if i <=? j then
        lt ← Less data a j;
        if lt : bool then skipGreater k data a i (j - 1) else Some j
      else Some j
  end.

(** The loop of [partitionEqual]; it returns the data and [i]. *)
Fixpoint partitionEqualLoop (fuel0 fuel : nat) (data : D) (a i j : Z) : option (D * Z) :=
  match fuel with
  | O => None
  | S k =>
      i ← skipNotGreater fuel0 data a i j;
      j ← skipGreater fuel0 data a i j;
      if j <? i then Some (data, i)
      else data ← Swap data i j;
           partitionEqualLoop fuel0 k data a (i + 1) (j - 1)
  end.

Definition partitionEqual (fuel : nat) (data : D) (a b pivot : Z) : option (D * Z) :=
  data ← Swap data a pivot;
  partitionEqualLoop fuel fuel data a (a + 1) (b - 1).

(** [for i < b && !data.Less(i, i-1) { i++ }] *)
Fixpoint skipOrdered (fuel : nat) (data : D) (b i : Z) : option Z :=
  match fuel with
  | O => None
  | S k =>
      if i <? b then
        lt ← Less data i (i - 1);
        if negb lt then skipOrdered k data b (i + 1) else Some i
      else Some i
  end.

(** [for j := i - 1; j >= 1; j-- { if !data.Less(j, j-1) { break }; data.Swap(j, j-1) }] *)
Fixpoint shiftLeft (fuel : nat) (data : D) (j : Z) : option D :=
  match fuel with
  | O => None
  | S k =>
      if 1 <=? j then
        lt ← Less data j (j - 1);
        if negb lt then Some data
        else data ← Swap data j (j - 1); shiftLeft k data (j - 1)
      else Some data
  end.

(** [for j := i + 1; j < b; j++ { if !data.Less(j, j-1) { break }; data.Swap(j, j-1) }] *)
Fixpoint shiftRight (fuel : nat) (data : D) (b j : Z) : option D :=
  match fuel with
  | O => None
  | S k =>
      if j <? b then
        lt ← Less data j (j - 1);
        if negb lt then Some data
        else data ← Swap data j (j - 1); shiftRight k data b (j + 1)
      else Some data
  end.

(** The loop of [partialInsertionSort] with [steps] of its [maxSteps]
    rounds left. *)
Fixpoint partialInsertionLoop (steps fuel : nat) (data : D) (a b i : Z) : option (D * bool) :=
  match steps with
  | O => Some (data, false)
  | S steps' =>
      i ← skipOrdered fuel data b i;
      if i =? b then Some (data, true)
      else if b - a <? 50 then Some (data, false)
      else
        data ← Swap data i (i - 1);
        data ← (if 2 <=? i - a then shiftLeft fuel data (i - 1) else Some data);
        data ← (if 2 <=? b - i then shiftRight fuel data b (i + 1) else Some data);
        partialInsertionLoop steps' fuel data a b i
  end.

Definition partialInsertionSort (fuel : nat) (data : D) (a b : Z) : option (D * bool) :=
  partialInsertionLoop 5 fuel data a b (a + 1).

(** The loop of [breakPatterns] with [rounds] of its three rounds left. *)
Fixpoint breakLoop (rounds : nat) (data : D) (a length modulus idx i random : Z) : option D :=
  match rounds with
  | O => Some data
  | S k =>
      let random := next random in
      let other := Z.land random (modulus - 1) in
      let other := if length <=? other then other - length else other in
      data ← Swap data (idx - 1 + i) (a + other);
      breakLoop k data a length modulus idx (i + 1) random
  end.

Definition breakPatterns (data : D) (a b : Z) : option D :=
  let length := b - a in
  if 8 <=? length then
    let random := length in
    let modulus := nextPowerOfTwo length in
    let idx := a + Z.quot length 4 * 2 - 1 in
    breakLoop 3 data a length modulus idx 0 random
  else Some data.

(** [order2(data, a, b, swaps)]: the two indices in order and the new
    count of swaps. *)
Definition order2 (data : D) (a b swaps : Z) : option (Z * Z * Z) :=
  lt ← Less data b a;
  Some (if lt : bool then (b, a, swaps + 1) else (a, b, swaps)).

Definition median (data : D) (a b c swaps : Z) : option (Z * Z) :=
  '(a, b, swaps) ← order2 data a b swaps;
  '(b, c, swaps) ← order2 data b c swaps;
  '(a, b, swaps) ← order2 data a b swaps;
  Some (b, swaps).

Definition medianAdjacent (data : D) (a swaps : Z) : option (Z * Z) :=
  median data (a - 1) a (a + 1) swaps.

Definition choosePivot (data : D) (a b : Z) : option (Z * sortedHint) :=
  let l := b - a in
  let swaps := 0 in
  let i := a + Z.quot l 4 * 1 in
  let j := a + Z.quot l 4 * 2 in
  let k := a + Z.quot l 4 * 3 in
  '(j, swaps) ←
    (if 8 <=? l then
       '(i, j, k, swaps) ←
         (if 50 <=? l then
            '(i, swaps) ← medianAdjacent data i swaps;
            '(j, swaps) ← medianAdjacent data j swaps;
            '(k, swaps) ← medianAdjacent data k swaps;
            Some (i, j, k, swaps)
          else Some (i, j, k, swaps));
       median data i j k swaps
     else Some (j, swaps));
  Some (j, if swaps =? 0 then increasingHint
           else if swaps =? 4 * 3 then decreasingHint else unknownHint).

(** [for i < j { data.Swap(i, j); i++; j-- }] *)
Fixpoint reverseLoop (fuel : nat) (data : D) (i j : Z) : option D :=
  match fuel with
  | O => None
  | S k =>
      if i <? j then data ← Swap data i j; reverseLoop k data (i + 1) (j - 1)
      else Some data
  end.

Definition reverseRange (fuel : nat) (data : D) (a b : Z) : option D :=
  reverseLoop fuel data a (b - 1).

(** The loop of [pdqsort(data, a, b, limit)] with its two local flags;
    a round of the loop and a recursive call each take one unit of
    [fuel]. *)
Fixpoint pdqsortLoop (fuel0 fuel : nat) (data : D) (a b limit : Z)
    (wasBalanced wasPartitioned : bool) : option D :=
  match fuel with
  | O => None
  | S k =>
      let length := b - a in
      if length <=? 12 then insertionSort fuel0 data a b
      else if limit =? 0 then heapSort fuel0 data a b
      else
        '(data, limit) ←
          (if negb wasBalanced
           then data ← breakPatterns data a b; Some (data, limit - 1)
           else Some (data, limit));
        '(pivot, hint) ← choosePivot data a b;
        '(data, pivot, hint) ←
          (if isDecreasing hint
           then data ← reverseRange fuel0 data a b;
                Some (data, (b - 1) - (pivot - a), increasingHint)
           else Some (data, pivot, hint));
        '(data, sorted) ←
          (if wasBalanced && wasPartitioned && isIncreasing hint
           then partialInsertionSort fuel0 data a b
           else Some (data, false));
        if sorted : bool then Some data
        else
          dup ← (if 0 <? a then lt ← Less data (a - 1) pivot; Some (negb lt)
                 else Some false);
          if dup : bool then
            '(data, mid) ← partitionEqual fuel0 data a b pivot;
            pdqsortLoop fuel0 k data mid b limit wasBalanced wasPartitioned
          else
            '(data, mid, alreadyPartitioned) ← partition fuel0 data a b pivot;
            let wasPartitioned := alreadyPartitioned in
            let leftLen := mid - a in
            let rightLen := b - mid in
            let balanceThreshold := Z.quot length 8 in
            if leftLen <? rightLen then
              let wasBalanced := balanceThreshold <=? leftLen in
              data ← pdqsortLoop fuel0 k data a mid limit true true;
              pdqsortLoop fuel0 k data (mid + 1) b limit wasBalanced wasPartitioned
            else
              let wasBalanced := balanceThreshold <=? rightLen in
              data ← pdqsortLoop fuel0 k data (mid + 1) b limit true true;
              pdqsortLoop fuel0 k data a mid limit wasBalanced wasPartitioned
  end.

Definition pdqsort (fuel : nat) (data : D) (a b limit : Z) : option D :=
  pdqsortLoop fuel fuel data a b limit true true.

(** [sort.Sort(data)]; no loop runs for more than [n + 1] rounds. *)
Definition Sort (data : D) : option D :=
  let n := Len data in
  if n <=? 1 then Some data
  else pdqsort (Z.to_nat n + 2) data 0 n (bitsLen n).

End Interface.

End sort.

(** [sort.Sort(r)] on a [routeSlice], with the generator [next]; the slice
    is left as it is where the model above gives no result. *)
Definition sortRoutes (next : Z -> Z) (r : routeSlice) : routeSlice :=
  default r (sort.Sort Len Less Swap next r).

(** ** What the claims speak of *)

(** A destination that [RouteWithSrc] hands to [route]: four or sixteen
    bytes. *)
Definition validIP (ip : net.IP) : Prop := len ip = 4 \/ len ip = 16.

(** The lookup predicate of the specification: the destination prefix
    contains the destination, the source prefix contains the source, and the
    entry has no input interface, or the caller has none, or both are the
    same. *)
Definition matches (input : Z) (src dst : net.IP) (e : rtInfo) : Prop :=
  net.Contains (Dst e) dst = true
  /\ net.Contains (Src e) src = true
  /\ (InputIface e = 0 \/ input = 0 \/ InputIface e = input).

(** The partition [route] scans. *)
Definition partitionOf (r : router) (ipv6 : bool) : routeSlice :=
  if ipv6 then v6 r else v4 r.

Definition isZeroIPNet (n : net.IPNet) : bool :=
  isNil (net.IPNet_IP n) && isNil (net.IPNet_Mask n).

(** The router without the entries whose destination is the zero value. *)
Definition dropZeroDst (r : router) : router :=
  mkRouter (ifaces r) (addrs r)
           (List.filter (fun e => negb (isZeroIPNet (Dst e))) (v4 r))
           (List.filter (fun e => negb (isZeroIPNet (Dst e))) (v6 r)).

(** The length of the destination prefix, as [Less] counts it. *)
Definition prefixLen (e : rtInfo) : Z := countMaskOnes (net.IPNet_Mask (Dst e)).

(** The ordering invariant of a partition: prefix lengths do not increase,
    and between entries of equal prefix length the pair of priority and
    metric does not decrease. *)
Definition ordered (l : routeSlice) : Prop :=
  forall (i j : nat) (a b : rtInfo),
    (i < j)%nat -> l !! i = Some a -> l !! j = Some b ->
    prefixLen b <= prefixLen a
    /\ (prefixLen a = prefixLen b ->
        Priority a < Priority b
        \/ (Priority a = Priority b /\ Metrics a <= Metrics b)).

(** The number of ones among the eight bits of a byte. *)
Definition bitCount (b : Z) : Z :=
  Z.of_nat (length (List.filter (fun i => Z.testbit b (Z.of_nat i)) (seq 0 8))).

(** The number of one bits of a mask. *)
Definition onesOf (mask : net.IPMask) : Z :=
  foldr (fun b n => bitCount b + n) 0 (elems mask).

(** The bytes of a slice are bytes. *)
Definition bytesOf (s : slice) : Prop := Forall (fun b => 0 <= b < 256) (elems s).

(** The length of the destination prefix of an entry, read off the mask bit
    by bit: the number of its one bits, which for the mask
    [net.CIDRMask(ones, bits)] is [ones]. *)
Definition dstLength (e : rtInfo) : Z := onesOf (net.IPNet_Mask (Dst e)).

(** The masks of the destinations are slices of bytes, as every value of
    the type [net.IPMask] is. *)
Definition byteMasks (l : routeSlice) : Prop :=
  Forall (fun e => bytesOf (net.IPNet_Mask (Dst e))) l.

(** The ordering invariant of a partition for this length: the lengths of
    the destination prefixes do not increase, and between entries of equal
    length the pair of priority and metric does not decrease. *)
Definition orderedByLength (l : routeSlice) : Prop :=
  forall (i j : nat) (a b : rtInfo),
    (i < j)%nat -> l !! i = Some a -> l !! j = Some b ->
    dstLength b <= dstLength a
    /\ (dstLength a = dstLength b ->
        Priority a < Priority b
        \/ (Priority a = Priority b /\ Metrics a <= Metrics b)).

(** Two entries tie on the three keys of the order. *)
Definition tiesb (a b : rtInfo) : bool :=
  (prefixLen a =? prefixLen b) && (Priority a =? Priority b)
  && (Metrics a =? Metrics b).

(** The entry [a] does not sort after [b]: [Less] does not put [b] before
    [a]. *)
Definition notAfter (a b : rtInfo) : Prop := lessInfo b a = false.

(** What the documentation of [sort.Sort] promises for a transitive [Less]:
    the slice holds the same elements, and no element sorts before one that
    stands in front of it. *)
Definition sortContract (sortSort : routeSlice -> routeSlice) : Prop :=
  forall l, sortSort l ≡ₚ l /\ StronglySorted notAfter (sortSort l).

(** The router without the entries that are bound to an input interface
    other than [-1], the index [RouteWithSrc] uses for a hardware address
    that no interface has. *)
Definition unboundInput (e : rtInfo) : bool :=
  (InputIface e =? 0) || (InputIface e =? -1).

Definition dropInputBound (r : router) : router :=
  mkRouter (ifaces r) (addrs r)
           (List.filter unboundInput (v4 r)) (List.filter unboundInput (v6 r)).

(** The address [a] is one that [route] searches for the entry [e]: an
    address of interface [i], which is the output interface of [e] when [e]
    has one. *)
Definition searched (r : router) (e : rtInfo) (ipv6 : bool) (i : Z)
    (a : net.IPNet) : Prop :=
  (OutputIface e = 0 \/ OutputIface e = i)
  /\ exists ia, addrs r !! i = Some ia /\ a ∈ family ipv6 ia.

(** The address [Contains] compares: the four-byte form when there is one. *)
Definition shortForm (ip : net.IP) : net.IP :=
  if isNil (net.To4 ip) then ip else net.To4 ip.

(** The lookup predicate as the three tests of the loop in [route]. *)
Definition matchesb (input : Z) (src dst : net.IP) (e : rtInfo) : bool :=
  net.Contains (Dst e) dst && net.Contains (Src e) src
  && ((InputIface e =? 0) || (input =? 0) || (InputIface e =? input)).

(** The result of [route] when no entry matches. *)
Definition noRoute (dst : net.IP) : routeResult :=
  mkRouteResult 0 None None (Some (NoRouteFound dst)).

Definition ip4 (a b c d : Z) : net.IP := Some [a; b; c; d].

(** The prefix [a.b.c.d/ones] of IPv4. *)
Definition cidr4 (a b c d ones : Z) : net.IPNet :=
  net.mkIPNet (ip4 a b c d) (net.CIDRMask ones 32).

(** A router without interfaces and routes, as [New] starts with. *)
Definition emptyRouter : router := mkRouter ∅ ∅ [] [].

(** ** Routers and tables for the examples *)

Definition eth0 : net.Interface := net.mkInterface 2 1500 "eth0" (Some [2; 0; 0; 0; 0; 1]) 0.

(** One interface with the address 10.0.0.5/8. *)
Definition lanIfaces : gmap Z net.Interface := {[ 2 := eth0 ]}.
Definition lanAddrs : gmap Z ipAddrs := {[ 2 := mkIpAddrs [cidr4 10 0 0 5 8] [] ]}.

(** A route to 10.0.0.0/8 with nothing else set, as the Linux ingestion
    builds it from a route with the attribute [RTA_DST] alone. *)
Definition route8 : rtInfo :=
  mkRtInfo (cidr4 10 0 0 0 8) net.zeroIPNet 0 0 None 0 None 0.

Definition route16 : rtInfo :=
  mkRtInfo (cidr4 10 1 0 0 16) net.zeroIPNet 0 0 None 0 None 0.

Definition lanRouter : router := mkRouter lanIfaces lanAddrs [route8] [].

(** The same route bound to the input interface 3. *)
Definition boundRoute : rtInfo :=
  mkRtInfo (cidr4 10 0 0 0 8) net.zeroIPNet 3 0 None 0 None 0.

Definition boundRouter : router := mkRouter lanIfaces lanAddrs [boundRoute] [].

(** A hardware address that [eth0] does not have. *)
Definition strangerHw : list Z := [2; 0; 0; 0; 0; 9].

(** A route to 172.16.0.0/12 through interface 2 with the preferred source
    172.16.0.9; the interface has neither this address nor one that reaches
    the network. *)
Definition pinnedRoute : rtInfo :=
  mkRtInfo (cidr4 172 16 0 0 12) net.zeroIPNet 0 2 None 0 (ip4 172 16 0 9) 0.

Definition pinnedRouter : router := mkRouter lanIfaces lanAddrs [pinnedRoute] [].

(** Routes to 10.0.0.0/8 that prefer the source 10.0.0.99, which no
    interface has: with and without an output interface. *)
Definition staleRoute (oif : Z) : rtInfo :=
  mkRtInfo (cidr4 10 0 0 0 8) net.zeroIPNet 0 oif None 0 (ip4 10 0 0 99) 0.

Definition staleRouter (oif : Z) : router :=
  mkRouter lanIfaces lanAddrs [staleRoute oif] [].

(** The directly connected network 192.168.1.0/24. *)
Definition homeRoute : rtInfo :=
  mkRtInfo (cidr4 192 168 1 0 24) net.zeroIPNet 0 0 None 0 None 0.

Definition homeRouter : router :=
  mkRouter lanIfaces {[ 2 := mkIpAddrs [cidr4 192 168 1 10 24] [] ]} [homeRoute] [].

(** An [RTM_NEWROUTE] message of the main table for an IPv4 route. *)
Definition routeMessage (dstLen : Z) (attrs : list NetlinkRouteAttr) : NetlinkMessage :=
  mkMessage syscall.RTM_NEWROUTE
            (mkRouteInfoInMemory syscall.AF_INET dstLen 0 0 254 3 0 1 0) (Some attrs).

(** A route to 10.0.[n].0/24 through interface 2. *)
Definition subnetMessage (n : Z) : NetlinkMessage :=
  routeMessage 24 [mkAttr syscall.RTA_DST [10; 0; n; 0];
                   mkAttr syscall.RTA_OIF [2; 0; 0; 0]].

Definition subnetRoute (n : Z) : rtInfo :=
  mkRtInfo (cidr4 10 0 n 0 24) net.zeroIPNet 0 2 None 0 None 0.

(** A route to the host 10.9.9.9 through interface 2. *)
Definition hostMessage : NetlinkMessage :=
  routeMessage 32 [mkAttr syscall.RTA_DST [10; 9; 9; 9];
                   mkAttr syscall.RTA_OIF [2; 0; 0; 0]].

Definition hostRoute : rtInfo :=
  mkRtInfo (cidr4 10 9 9 9 32) net.zeroIPNet 0 2 None 0 None 0.

(** A dump of thirteen routes: twelve to the networks 10.0.0.0/24 to
    10.0.11.0/24, which tie on prefix length, priority and metric, then the
    host route. *)
Definition thirteenMessages : list NetlinkMessage :=
  map (fun n => subnetMessage (Z.of_nat n)) (seq 0 12)
  ++ [hostMessage; mkMessage syscall.NLMSG_DONE
                             (mkRouteInfoInMemory 0 0 0 0 0 0 0 0 0) (Some [])].

Definition thirteenRoutes : routeSlice :=
  map (fun n => subnetRoute (Z.of_nat n)) (seq 0 12) ++ [hostRoute].

(** A built partition keeps the supplied order of tying entries: for every
    entry, the entries that tie with it stand in the built partition as they
    stand in the supplied one. *)
Definition keepsTieOrder (supplied built : routeSlice) : Prop :=
  forall e, List.filter (tiesb e) built = List.filter (tiesb e) supplied.

(** A built partition keeps the tying entries themselves, in some order. *)
Definition keepsTies (supplied built : routeSlice) : Prop :=
  forall e, List.filter (tiesb e) built ≡ₚ List.filter (tiesb e) supplied.

(** The IPv4 partition the Linux ingestion appends for [thirteenMessages],
    the router [setupRouteTable] leaves after [sort.Sort] and its IPv4
    partition. *)
Definition thirteenSupplied : routeSlice :=
  v4 (fst (ingestLinux (Some thirteenMessages) emptyRouter)).

Definition thirteenRouter : router :=
  fst (setupRouteTable_linux (sortRoutes sort.xorshiftNext)
                             (Some thirteenMessages) emptyRouter).

Definition thirteenBuilt : routeSlice := v4 thirteenRouter.

(** A router whose IPv4 routes are supplied as [l]. *)
Definition lanRouterWith (l : routeSlice) : router := mkRouter lanIfaces lanAddrs l [].

(** The error of [route] for an entry with an output interface none of
    whose addresses reaches the gateway. *)
Definition pinnedFailure (r : router) (e : rtInfo) (dst : net.IP) : error :=
  match addrs r !! OutputIface e with
  | Some _ => NoSourceFound dst
  | None => NoOutputInterfaceFound dst
  end.

(** ** What the further properties speak of *)

(** The error with the address it names replaced. *)
Definition withAddress (dst : net.IP) (e : error) : error :=
  match e with
  | NoRouteFound _ => NoRouteFound dst
  | NoOutputInterfaceFound _ => NoOutputInterfaceFound dst
  | NoSourceFound _ => NoSourceFound dst
  | InvalidAddress => InvalidAddress
  | IngestionError => IngestionError
  end.

(** No address of the list contains the gateway. *)
Definition noneContains (gateway : net.IP) (l : list net.IPNet) : Prop :=
  Forall (fun b => net.Contains b gateway = false) l.

(** The [*net.IPNet] values among the addresses of an interface. *)
Definition inetsOf (l : list Addr) : list net.IPNet :=
  omap (fun addr => match addr with IPNetAddr inet => Some inet | OtherAddr => None end) l.

(** The address of the prefix has a four-byte form. *)
Definition hasTo4 (inet : net.IPNet) : bool := negb (isNil (net.To4 (net.IPNet_IP inet))).

(** The addresses [New] keeps for an interface. *)
Definition addrsOf (l : list Addr) : ipAddrs :=
  mkIpAddrs (List.filter hasTo4 (inetsOf l))
            (List.filter (fun inet => negb (hasTo4 inet)) (inetsOf l)).

(** The indexes of the reported interfaces. *)
Definition indexesOf (l : list (net.Interface * option (list Addr))) : list Z :=
  map (fun x => net.Index (fst x)) l.

(** A message that announces a route of the family. *)
Definition isRoute (family : Z) (m : NetlinkMessage) : bool :=
  (Header_Type m =? syscall.RTM_NEWROUTE) && (Family (Data m) =? family).

(** The entry the Linux ingestion builds for a route message whose
    attributes parse. *)
Definition infoOf (m : NetlinkMessage) : rtInfo :=
  routeInfoOf (Data m) (default [] (ParsedAttrs m)).

(** An attribute whose value the Linux ingestion reads as an [int32]. *)
Definition readsInt32 (a : NetlinkRouteAttr) : bool :=
  (Attr_Type a =? syscall.RTA_IIF) || (Attr_Type a =? syscall.RTA_OIF)
  || (Attr_Type a =? syscall.RTA_PRIORITY) || (Attr_Type a =? syscall.RTA_METRICS).

(** The values that the ingestion reads as an [int32] from a route message
    of the two families have four bytes or more, so that the read neither
    panics nor leaves the value. *)
Definition intValues (m : NetlinkMessage) : Prop :=
  isRoute syscall.AF_INET m || isRoute syscall.AF_INET6 m = true ->
  forall attrs a, ParsedAttrs m = Some attrs -> a ∈ attrs -> readsInt32 a = true ->
                  (4 <= length (Value a))%nat.

(** The messages are read to the end without error and without panic: none
    is the message [NLMSG_DONE], the attributes of every route message
    parse, and the values read as an [int32] have their four bytes. *)
Definition readable (msgs : list NetlinkMessage) : Prop :=
  Forall (fun m => Header_Type m <> syscall.NLMSG_DONE
                   /\ (Header_Type m = syscall.RTM_NEWROUTE -> is_Some (ParsedAttrs m))
                   /\ intValues m)
         msgs.

(** The router with the routes of the messages appended to its two
    partitions, in the order of the messages. *)
Definition withRoutes (msgs : list NetlinkMessage) (r : router) : router :=
  mkRouter (ifaces r) (addrs r)
           (v4 r ++ map infoOf (List.filter (isRoute syscall.AF_INET) msgs))
           (v6 r ++ map infoOf (List.filter (isRoute syscall.AF_INET6) msgs)).

(** The prefix length of a row of Windows in a table of addresses of [bits]
    bits: its [PrefixLength], and zero when this is no length of such an
    address, for which [net.CIDRMask] gives no mask. *)
Definition lengthOfRow (bits : Z) (row : mibIPForwardRow2) : Z :=
  let n := PrefixLength (DestinationPrefix row) in
  if (0 <=? n) && (n <=? bits) then n else 0.

(** The fields of an entry that the Windows ingestion never sets. *)
Definition unsetOnWindows (e : rtInfo) : Prop :=
  Src e = net.zeroIPNet /\ InputIface e = 0 /\ Priority e = 0 /\ PrefSrc e = None.

(** The addresses of an interface without those of the other family. *)
Definition keepFamily (ipv6 : bool) (a : ipAddrs) : ipAddrs :=
  if ipv6 then mkIpAddrs [] (addrs_v6 a) else mkIpAddrs (addrs_v4 a) [].

(** The router without the routes and the addresses of the other family,
    and the visits of its maps that follow those of the router. *)
Definition onlyFamily (ipv6 : bool) (r : router) : router :=
  mkRouter (ifaces r) (keepFamily ipv6 <$> addrs r)
           (if ipv6 then [] else v4 r) (if ipv6 then v6 r else []).

Definition onlyFamilyVisits (ipv6 : bool) (vs : visits) : visits :=
  mkVisits (visitIfaces vs)
           (map (fun x => (fst x, keepFamily ipv6 (snd x))) (visitAddrsPref vs))
           (map (fun x => (fst x, keepFamily ipv6 (snd x))) (visitAddrsAny vs)).

(** ** Routers and tables for the further examples *)

(** A route to 10.0.0.0/8 through interface 2 that prefers the source
    10.0.0.5, the address of the interface. *)
Definition preferringRoute : rtInfo :=
  mkRtInfo (cidr4 10 0 0 0 8) net.zeroIPNet 0 2 None 0 (ip4 10 0 0 5) 0.

(** Two interfaces: the first has the address 10.0.0.5/8, the second the
    address [a3]. *)
Definition eth1 : net.Interface := net.mkInterface 3 1500 "eth1" (Some [2; 0; 0; 0; 0; 2]) 0.

Definition pairRouter (a3 : net.IPNet) : router :=
  mkRouter {[ 2 := eth0; 3 := eth1 ]}
           {[ 2 := mkIpAddrs [cidr4 10 0 0 5 8] []; 3 := mkIpAddrs [a3] [] ]}
           [route8] [].

(** The two orders in which a [range] can visit the addresses of
    [pairRouter]. *)
Definition pairVisits (a3 : net.IPNet) (upwards : bool) : visits :=
  let o := if upwards
           then [(2, mkIpAddrs [cidr4 10 0 0 5 8] []); (3, mkIpAddrs [a3] [])]
           else [(3, mkIpAddrs [a3] []); (2, mkIpAddrs [cidr4 10 0 0 5 8] [])] in
  mkVisits (map_to_list (ifaces (pairRouter a3))) o o.

(** What the platform reports for the example: the interface [eth0] with
    the address 10.0.0.5/8, an address of another type and an IPv6
    address. *)
Definition lanReports : list (net.Interface * option (list Addr)) :=
  [(eth0, Some [IPNetAddr (cidr4 10 0 0 5 8); OtherAddr;
                IPNetAddr (net.mkIPNet (Some (replicate 15 0 ++ [1])) (net.CIDRMask 128 128))])].

(** The setup of Linux for the dump of thirteen routes, and the router
    [New] returns with it. *)
Definition thirteenSetup (r : router) : option (router * option error) :=
  Some (setupRouteTable_linux (sortRoutes sort.xorshiftNext) (Some thirteenMessages) r).

Definition newRouter : router :=
  match New thirteenSetup (Some lanReports) with
  | Some (inl r) => r
  | _ => emptyRouter
  end.

(** Two rows of the IPv4 table of Windows: the network 10.0.0.0/8 on the
    link of interface 2, and the default route through 10.0.0.1. *)
Definition sockaddr4 (a b c d : Z) : list Z :=
  [2; 0; 0; 0; a; b; c; d] ++ replicate 20 0.

Definition linkRow : mibIPForwardRow2 :=
  mkRow 0 2 (mkPrefix (sockaddr4 10 0 0 0) 8) (sockaddr4 0 0 0 0) 25.

Definition defaultRow : mibIPForwardRow2 :=
  mkRow 0 2 (mkPrefix (sockaddr4 0 0 0 0) 0) (sockaddr4 10 0 0 1) 25.

Definition windowsRouter : router :=
  match New_windows (sortRoutes sort.xorshiftNext) (Some [defaultRow; linkRow]) (Some [])
                    (Some lanReports) with
  | Some (inl r) => r
  | _ => emptyRouter
  end.

(** ** The states of [sort.Sort] in the proof that it sorts *)

(** [r[i]] for an index in range. *)
Definition elt (d : routeSlice) (i : Z) : rtInfo := nth (Z.to_nat i) d zeroRtInfo.

(** The slice after [r.Swap(i, j)]. *)
Definition swp (d : routeSlice) (i j : Z) : routeSlice :=
  <[Z.to_nat j := elt d i]> (<[Z.to_nat i := elt d j]> d).

(** The slice [d'] differs from [d] inside [a, b) only, where it holds
    elements that [d] holds there. *)
Definition Frame (a b : Z) (d d' : routeSlice) : Prop :=
  Len d' = Len d
  /\ d' ≡ₚ d
  /\ (forall k, 0 <= k < Len d -> k < a \/ b <= k -> elt d' k = elt d k)
  /\ (forall P : rtInfo -> Prop,
         (forall k, a <= k < b -> P (elt d k)) -> forall k, a <= k < b -> P (elt d' k)).

(** The slice is sorted on [a, b): no element sorts before one in front of
    it. *)
Definition SortedSeg (d : routeSlice) (a b : Z) : Prop :=
  forall i j, a <= i -> i < j -> j < b -> lessInfo (elt d j) (elt d i) = false.

(** The state of [partition] between its rounds: the elements of (a, i)
    sort before the pivot at [a], those of (j, b) do not. *)
Definition Parted (d : routeSlice) (a b i j : Z) : Prop :=
  (forall k, a < k < i -> lessInfo (elt d k) (elt d a) = true)
  /\ (forall k, j < k < b -> lessInfo (elt d k) (elt d a) = false).

(** The state of [partitionEqual] between its rounds: the pivot at [a] does
    not sort before the elements of (a, i), and sorts before those of
    (j, b). *)
Definition PartedEqual (d : routeSlice) (a b i j : Z) : Prop :=
  (forall k, a < k < i -> lessInfo (elt d a) (elt d k) = false)
  /\ (forall k, j < k < b -> lessInfo (elt d a) (elt d k) = true).

(** In the heap of [hi] elements that starts at [first], the element at
    [p] does not sort before its children. *)
Definition HeapAt (d : routeSlice) (first hi p : Z) : Prop :=
  forall c, c < hi -> c = 2 * p + 1 \/ c = 2 * p + 2 ->
            lessInfo (elt d (first + p)) (elt d (first + c)) = false.

Definition HeapFrom (d : routeSlice) (first lo hi : Z) : Prop :=
  forall p, lo <= p -> HeapAt d first hi p.

(** The state of [siftDown] between its rounds: the heap is in order
    except at [root], whose parent does not sort before its children. *)
Definition Sifting (d : routeSlice) (first lo hi root : Z) : Prop :=
  (forall p, lo <= p -> p <> root -> HeapAt d first hi p)
  /\ (forall pr c, lo <= pr -> root = 2 * pr + 1 \/ root = 2 * pr + 2 ->
                   c < hi -> c = 2 * root + 1 \/ c = 2 * root + 2 ->
                   lessInfo (elt d (first + pr)) (elt d (first + c)) = false).

(** The state of the second loop of [heapSort] before the round for [i]:
    a heap of [i + 1] elements, behind it a sorted run none of whose
    elements sorts before an element of the heap. *)
Definition Popping (d : routeSlice) (first hi i : Z) : Prop :=
  HeapFrom d first 0 (i + 1)
  /\ SortedSeg d (first + i + 1) (first + hi)
  /\ (forall x y, 0 <= x <= i -> i < y < hi ->
                  lessInfo (elt d (first + y)) (elt d (first + x)) = false).

(** No element of [a, b) sorts before the element in front of [a]. *)
Definition Above (d : routeSlice) (a b : Z) : Prop :=
  1 <= a -> forall k, a <= k < b -> lessInfo (elt d k) (elt d (a - 1)) = false.

(** The slice is split at [mid]: the elements of [a, mid) sort before the
    one at [mid], those of (mid, b) do not. *)
Definition Split (d : routeSlice) (a b mid : Z) : Prop :=
  (forall k, a <= k < mid -> lessInfo (elt d k) (elt d mid) = true)
  /\ (forall k, mid < k < b -> lessInfo (elt d k) (elt d mid) = false).

(** Splits the conjunctions of a goal, and nothing else. *)
Ltac conjuncts := repeat match goal with |- _ /\ _ => split end.

(** Closes a closed goal by evaluation. *)
Ltac evaluate := vm_compute; reflexivity.

(** ** Facts about the library functions *)

Lemma len_nonneg (s : slice) : 0 <= len s.
Proof. unfold len. lia. Qed.

Lemma len_None_inv (s : slice) : len s <> 0 -> isNil s = false.
Proof. destruct s; [reflexivity | unfold len; simpl; lia]. Qed.

Lemma len_drop (l : list Z) (n : nat) :
  Z.of_nat (length (drop n l)) = Z.of_nat (length l) - Z.of_nat n
  \/ (length l < n)%nat.
Proof. rewrite length_drop. lia. Qed.

Lemma shortForm_valid (ip : net.IP) : validIP ip -> len (shortForm ip) <> 0.
Proof.
  unfold validIP, shortForm, net.To4, net.IPv4len, net.IPv6len.
  intros [H | H].
  - rewrite H. simpl. destruct ip as [l |]; simpl; [| discriminate H].
    rewrite H. discriminate.
  - rewrite H. simpl.
    destruct (net.allZero _ && _ && _); simpl.
    + unfold len in *. simpl. rewrite length_drop. lia.
    + rewrite H. discriminate.
Qed.

Lemma shortForm_nonempty (ip : net.IP) : len ip <> 0 -> len (shortForm ip) <> 0.
Proof.
  unfold shortForm, net.To4, net.IPv4len, net.IPv6len. intros H.
  destruct (len ip =? 4) eqn:E4.
  - destruct ip; simpl; [| unfold len in H; simpl in H; lia]. exact H.
  - destruct ((len ip =? 16) && _ && _ && _) eqn:E; simpl; [| exact H].
    apply andb_true_iff in E as [E _]. apply andb_true_iff in E as [E _].
    apply andb_true_iff in E as [E _]. apply Z.eqb_eq in E.
    unfold len in *. simpl. rewrite length_drop. lia.
Qed.

Lemma Contains_unfold (n : net.IPNet) (ip : net.IP) :
  net.Contains n ip =
  let nm := net.networkNumberAndMask n in
  if negb (len (shortForm ip) =? len (fst nm)) then false
  else forallb (fun i => Z.land (at_ (elems (fst nm)) i) (at_ (elems (snd nm)) i)
                         =? Z.land (at_ (elems (shortForm ip)) i) (at_ (elems (snd nm)) i))
               (seq 0 (Z.to_nat (len (shortForm ip)))).
Proof. unfold net.Contains, shortForm. destruct (net.networkNumberAndMask n). reflexivity. Qed.

(** The zero prefix contains exactly the addresses without bytes. *)
Lemma Contains_zero (ip : net.IP) :
  net.Contains net.zeroIPNet ip = (len (shortForm ip) =? 0).
Proof.
  rewrite Contains_unfold.
  change (net.networkNumberAndMask net.zeroIPNet) with (@None (list Z), @None (list Z)).
  cbv zeta. change (len (None, None).1) with 0.
  destruct (len (shortForm ip) =? 0) eqn:E; simpl; [| reflexivity].
  apply Z.eqb_eq in E. rewrite E. reflexivity.
Qed.

Lemma Contains_zero_valid (ip : net.IP) :
  validIP ip -> net.Contains net.zeroIPNet ip = false.
Proof.
  intros H. rewrite Contains_zero. apply Z.eqb_neq. apply shortForm_valid, H.
Qed.

Lemma Contains_zero_nil : net.Contains net.zeroIPNet None = true.
Proof. reflexivity. Qed.

Lemma isZeroIPNet_spec (n : net.IPNet) : isZeroIPNet n = true <-> n = net.zeroIPNet.
Proof.
  destruct n as [[?|] [?|]]; unfold isZeroIPNet, net.zeroIPNet; simpl;
    split; intros H; try discriminate; reflexivity.
Qed.

(** A prefix that contains an address with bytes has an address itself. *)
Lemma Contains_IP_present (n : net.IPNet) (ip : net.IP) :
  net.Contains n ip = true -> len ip <> 0 -> isNil (net.IPNet_IP n) = false.
Proof.
  intros HC Hlen. rewrite Contains_unfold in HC. cbv zeta in HC.
  destruct (negb _) eqn:E in HC; [discriminate |].
  apply negb_false_iff, Z.eqb_eq in E.
  pose proof (shortForm_nonempty ip Hlen) as Hs. rewrite E in Hs.
  destruct n as [[l |] m]; [reflexivity |].
  exfalso. apply Hs. reflexivity.
Qed.

(** Eight rounds end the loop of [countMaskOnes] on every byte. *)
Lemma onesLoop_fst (rounds : nat) (each c1 c2 : Z) :
  fst (onesLoop rounds each c1) = fst (onesLoop rounds each c2).
Proof.
  revert each c1 c2. induction rounds as [| k IH]; intros each c1 c2; simpl.
  - reflexivity.
  - destruct (each =? 0); [reflexivity | apply IH].
Qed.

Lemma onesLoop_done (each cnt : Z) :
  0 <= each < 256 -> fst (onesLoop 8 each cnt) = 0.
Proof.
  intros H. rewrite (onesLoop_fst 8 each cnt 0).
  assert (Hall : forallb (fun n => fst (onesLoop 8 (Z.of_nat n) 0) =? 0) (seq 0 256) = true)
    by (vm_compute; reflexivity).
  rewrite forallb_forall in Hall.
  specialize (Hall (Z.to_nat each)).
  rewrite Z2Nat.id in Hall by lia.
  apply Z.eqb_eq, Hall. apply in_seq. lia.
Qed.

Lemma onesLoop_snd (rounds : nat) (each cnt : Z) :
  snd (onesLoop rounds each cnt) = cnt + snd (onesLoop rounds each 0).
Proof.
  revert each cnt. induction rounds as [| k IH]; intros each cnt; simpl.
  - lia.
  - destruct (each =? 0); simpl; [lia |].
    rewrite (IH _ (cnt + 1)), (IH _ (0 + 1)). lia.
Qed.

Lemma onesLoop_bitCount (each cnt : Z) :
  0 <= each < 256 -> snd (onesLoop 8 each cnt) = cnt + bitCount each.
Proof.
  intros H. rewrite onesLoop_snd. f_equal.
  assert (Hall : forallb (fun n => snd (onesLoop 8 (Z.of_nat n) 0) =? bitCount (Z.of_nat n))
                         (seq 0 256) = true) by evaluate.
  rewrite forallb_forall in Hall. specialize (Hall (Z.to_nat each)).
  rewrite Z2Nat.id in Hall by lia. apply Z.eqb_eq, Hall, in_seq. lia.
Qed.

Lemma bitCount_bound (b : Z) : 0 <= bitCount b <= 8.
Proof.
  unfold bitCount.
  pose proof (List.filter_length_le (fun i => Z.testbit b (Z.of_nat i)) (seq 0 8)) as H.
  rewrite length_seq in H. lia.
Qed.

(** On a mask of bytes [countMaskOnes] counts the one bits. *)
Lemma countMaskOnes_onesOf (mask : net.IPMask) :
  bytesOf mask -> countMaskOnes mask = onesOf mask.
Proof.
  unfold bytesOf, countMaskOnes, onesOf. generalize (elems mask) as l. intros l Hl.
  assert (Hacc : forall cnt,
             fold_left (fun cnt each => snd (onesLoop 8 each cnt)) l cnt
             = cnt + foldr (fun b n => bitCount b + n) 0 l).
  { induction Hl as [| b l Hb _ IH]; intros cnt; cbn [fold_left foldr]; [lia |].
    rewrite IH, (onesLoop_bitCount b cnt Hb). lia. }
  rewrite (Hacc 0). lia.
Qed.

(** The masks of [net.CIDRMask] are slices of bytes. *)
Lemma cidrBytes_bytes (l : nat) (n : Z) :
  0 <= n -> Forall (fun b => 0 <= b < 256) (net.cidrBytes l n).
Proof.
  revert n. induction l as [| l IH]; intros n Hn; simpl; [constructor |].
  destruct (Z.leb_spec 8 n).
  - constructor; [lia | apply IH; lia].
  - constructor; [| apply IH; lia].
    assert (Hc : n = 0 \/ n = 1 \/ n = 2 \/ n = 3 \/ n = 4 \/ n = 5 \/ n = 6 \/ n = 7)
      by lia.
    destruct Hc as [-> | [-> | [-> | [-> | [-> | [-> | [-> | ->]]]]]]];
      vm_compute; split; congruence.
Qed.

Lemma CIDRMask_bytes (ones bits : Z) : bytesOf (net.CIDRMask ones bits).
Proof.
  unfold bytesOf, net.CIDRMask. destruct (negb _ && negb _); [constructor |].
  destruct (Z.ltb_spec ones 0); simpl orb; cbv iota; [constructor |].
  destruct (bits <? ones); [constructor |]. apply cidrBytes_bytes. lia.
Qed.

(** The number of one bits of the mask [net.CIDRMask(ones, bits)] is
    [ones]. *)
Lemma onesOf_CIDRMask (ones bits : Z) :
  bits = 32 \/ bits = 128 -> 0 <= ones <= bits ->
  onesOf (net.CIDRMask ones bits) = ones.
Proof.
  assert (H32 : forallb (fun n => onesOf (net.CIDRMask (Z.of_nat n) 32) =? Z.of_nat n)
                        (seq 0 33) = true) by evaluate.
  assert (H128 : forallb (fun n => onesOf (net.CIDRMask (Z.of_nat n) 128) =? Z.of_nat n)
                         (seq 0 129) = true) by evaluate.
  rewrite forallb_forall in H32, H128. intros [-> | ->] H.
  - specialize (H32 (Z.to_nat ones)). rewrite Z2Nat.id in H32 by lia.
    apply Z.eqb_eq, H32, in_seq. lia.
  - specialize (H128 (Z.to_nat ones)). rewrite Z2Nat.id in H128 by lia.
    apply Z.eqb_eq, H128, in_seq. lia.
Qed.

(** ** The scan of [route] *)

Lemma matchesb_spec (input : Z) (src dst : net.IP) (e : rtInfo) :
  matchesb input src dst e = true <-> matches input src dst e.
Proof.
  unfold matchesb, matches.
  rewrite !andb_true_iff, !orb_true_iff, !Z.eqb_eq. tauto.
Qed.

Lemma matchesb_false (input : Z) (src dst : net.IP) (e : rtInfo) :
  matchesb input src dst e = false <-> ~ matches input src dst e.
Proof.
  rewrite <- matchesb_spec. destruct (matchesb input src dst e); split; congruence.
Qed.

Lemma scan_cons (input : Z) (src dst : net.IP) (e : rtInfo) (rest : routeSlice) :
  scan input src dst (e :: rest) =
  if matchesb input src dst e then Some e else scan input src dst rest.
Proof.
  unfold matchesb. simpl.
  destruct (net.Contains (Dst e) dst); simpl; [| reflexivity].
  destruct (net.Contains (Src e) src); simpl; [| reflexivity].
  destruct (InputIface e =? 0); simpl; [reflexivity |].
  destruct (input =? 0); simpl; [reflexivity |].
  destruct (InputIface e =? input); reflexivity.
Qed.

Lemma scan_Some (input : Z) (src dst : net.IP) (rs : routeSlice) (e : rtInfo) :
  scan input src dst rs = Some e ->
  exists pre post, rs = pre ++ e :: post
                   /\ Forall (fun x => ~ matches input src dst x) pre
                   /\ matches input src dst e.
Proof.
  induction rs as [| x rest IH]; [discriminate |].
  rewrite scan_cons. destruct (matchesb input src dst x) eqn:Hx.
  - intros [= ->]. exists [], rest. split; [reflexivity |].
    split; [constructor | apply matchesb_spec, Hx].
  - intros H. destruct (IH H) as (pre & post & -> & Hpre & He).
    exists (x :: pre), post. split; [reflexivity |].
    split; [| exact He]. constructor; [apply matchesb_false, Hx | exact Hpre].
Qed.

Lemma scan_None (input : Z) (src dst : net.IP) (rs : routeSlice) :
  scan input src dst rs = None ->
  Forall (fun x => ~ matches input src dst x) rs.
Proof.
  induction rs as [| x rest IH]; [constructor |].
  rewrite scan_cons. destruct (matchesb input src dst x) eqn:Hx; [discriminate |].
  intros H. constructor; [apply matchesb_false, Hx | apply IH, H].
Qed.

Lemma scan_first (input : Z) (src dst : net.IP) (pre post : routeSlice) (e : rtInfo) :
  Forall (fun x => ~ matches input src dst x) pre ->
  matches input src dst e ->
  scan input src dst (pre ++ e :: post) = Some e.
Proof.
  intros Hpre He. induction Hpre as [| x pre Hx _ IH]; simpl app; rewrite scan_cons.
  - apply matchesb_spec in He. rewrite He. reflexivity.
  - apply matchesb_false in Hx. rewrite Hx. exact IH.
Qed.

(** [route] depends on the router through the scanned partition and the
    addresses of the interfaces only. *)
Lemma route_ext (r r' : router) (vs : visits) (input input' : Z)
    (src dst : net.IP) (ipv6 : bool) :
  addrs r = addrs r' ->
  scan input src dst (partitionOf r ipv6) = scan input' src dst (partitionOf r' ipv6) ->
  route r vs input src dst ipv6 = route r' vs input' src dst ipv6.
Proof.
  intros Ha Hs. unfold route. fold (partitionOf r ipv6). fold (partitionOf r' ipv6).
  rewrite Hs. destruct (scan input' src dst (partitionOf r' ipv6)); [| reflexivity].
  unfold derive. rewrite Ha. reflexivity.
Qed.

Lemma To4_present_valid (dst : net.IP) : isNil (net.To4 dst) = false -> validIP dst.
Proof.
  unfold net.To4, validIP, net.IPv4len, net.IPv6len.
  destruct (len dst =? 4) eqn:E4; [intros _; left; apply Z.eqb_eq, E4 |].
  destruct (len dst =? 16) eqn:E16; simpl; [intros _; right; apply Z.eqb_eq, E16 |].
  discriminate.
Qed.

Lemma To16_present_valid (dst : net.IP) : isNil (net.To16 dst) = false -> validIP dst.
Proof.
  unfold net.To16, validIP, net.IPv4len, net.IPv6len.
  destruct (len dst =? 4) eqn:E4; [intros _; left; apply Z.eqb_eq, E4 |].
  destruct (len dst =? 16) eqn:E16; simpl; [intros _; right; apply Z.eqb_eq, E16 |].
  discriminate.
Qed.

(** [RouteWithSrc] gives the same answer on two routers with the same
    interfaces whose scans agree on every valid destination. *)
Lemma RouteWithSrc_ext (r r' : router) (vs : visits) (input input' : net.HardwareAddr)
    (i i' : Z) (src dst : net.IP) :
  ifaces r = ifaces r' -> addrs r = addrs r' ->
  (if negb (isNil input) then inputIndexOf input (visitIfaces vs) else 0) = i ->
  (if negb (isNil input') then inputIndexOf input' (visitIfaces vs) else 0) = i' ->
  (validIP dst -> forall ipv6,
      scan i src dst (partitionOf r ipv6) = scan i' src dst (partitionOf r' ipv6)) ->
  RouteWithSrc r vs input src dst = RouteWithSrc r' vs input' src dst.
Proof.
  intros Hi Ha Hin Hin' Hs. unfold RouteWithSrc. rewrite Hin, Hin', Hi.
  destruct (isNil (net.To4 dst)) eqn:E4; simpl.
  - destruct (isNil (net.To16 dst)) eqn:E16; simpl; [reflexivity |].
    rewrite (route_ext r r' vs i i' src dst true Ha
               (Hs (To16_present_valid dst E16) true)).
    reflexivity.
  - rewrite (route_ext r r' vs i i' src dst false Ha
               (Hs (To4_present_valid dst E4) false)).
    reflexivity.
Qed.

Lemma scan_dropZeroDst (input : Z) (src dst : net.IP) (rs : routeSlice) :
  validIP dst ->
  scan input src dst (List.filter (fun e => negb (isZeroIPNet (Dst e))) rs)
  = scan input src dst rs.
Proof.
  intros Hv. induction rs as [| e rest IH]; [reflexivity |].
  simpl List.filter. destruct (isZeroIPNet (Dst e)) eqn:Hz; simpl negb; cbv iota.
  - rewrite IH, (scan_cons _ _ _ e rest). unfold matchesb.
    apply isZeroIPNet_spec in Hz. rewrite Hz, (Contains_zero_valid dst Hv).
    reflexivity.
  - rewrite !scan_cons, IH. reflexivity.
Qed.

Lemma scan_not_zero (input : Z) (src dst : net.IP) (rs : routeSlice) (e : rtInfo) :
  validIP dst -> scan input src dst rs = Some e -> Dst e <> net.zeroIPNet.
Proof.
  intros Hv Hs Hz. apply scan_Some in Hs as (_ & _ & _ & _ & Hc & _).
  rewrite Hz, (Contains_zero_valid dst Hv) in Hc. discriminate.
Qed.

Lemma scan_dropInputBound (src dst : net.IP) (rs : routeSlice) :
  scan 0 src dst (List.filter unboundInput rs) = scan (-1) src dst rs.
Proof.
  induction rs as [| e rest IH]; [reflexivity |].
  simpl List.filter. unfold unboundInput at 1.
  destruct (InputIface e =? 0) eqn:E0; simpl orb; cbv iota.
  - rewrite !scan_cons, IH. unfold matchesb. rewrite E0. reflexivity.
  - destruct (InputIface e =? -1) eqn:E1.
    + rewrite !scan_cons, IH. unfold matchesb. rewrite E0, E1.
      reflexivity.
    + rewrite IH, (scan_cons _ _ _ e rest). unfold matchesb. rewrite E0.
      rewrite E1. simpl. rewrite andb_false_r. reflexivity.
Qed.

(** The attributes of a route without [RTA_DST] leave the destination as
    it is. *)
Lemma setAttr_Dst (rt : routeInfoInMemory) (attrs : list NetlinkRouteAttr) (e : rtInfo) :
  Forall (fun a => Attr_Type a <> syscall.RTA_DST) attrs ->
  Dst (fold_left (setAttr rt) attrs e) = Dst e.
Proof.
  intros H. revert e. induction H as [| a attrs Ha _ IH]; intros e; [reflexivity |].
  simpl fold_left. rewrite IH. unfold setAttr. destruct e.
  apply Z.eqb_neq in Ha. rewrite Ha.
  repeat (match goal with |- context [if ?c then _ else _] => destruct c end;
          try reflexivity).
Qed.

Lemma someVisits_ok (r : router) : visitsOf r (someVisits r).
Proof. unfold visitsOf, rangeOver. conjuncts; reflexivity. Qed.

Lemma rangeOver_lookup {V} (m : gmap Z V) (o : list (Z * V)) (i : Z) (x : V) :
  rangeOver m o -> ((i, x) ∈ o <-> m !! i = Some x).
Proof. unfold rangeOver. intros ->. apply elem_of_map_to_list. Qed.

(** The index of a hardware address that no interface has is [-1]. *)
Lemma inputIndexOf_none (input : net.HardwareAddr) (o : list (Z * net.Interface)) :
  (forall i iface, (i, iface) ∈ o ->
                   bytes.Equal input (net.HardwareAddr_ iface) = false) ->
  inputIndexOf input o = -1.
Proof.
  induction o as [| [i iface] rest IH]; intros H; [reflexivity |].
  simpl. rewrite (H i iface) by apply list_elem_of_here.
  apply IH. intros j jf Hj. apply (H j jf). apply list_elem_of_further, Hj.
Qed.

(** ** Lookup *)

(** C1. [route] scans the partition of the family in table order and goes
    on with the first entry whose destination contains the destination,
    whose source contains the source and whose input interface is unset, or
    the caller's is zero, or both are equal; when no entry of the partition
    is such, it fails with the error "no route found". *)
Theorem C1_first_match (r : router) (vs : visits) (input : Z)
    (src dst : net.IP) (ipv6 : bool) :
  (exists pre e post,
      partitionOf r ipv6 = pre ++ e :: post
      /\ Forall (fun x => ~ matches input src dst x) pre
      /\ matches input src dst e
      /\ route r vs input src dst ipv6 = derive r vs e dst ipv6)
  \/ (Forall (fun x => ~ matches input src dst x) (partitionOf r ipv6)
      /\ route r vs input src dst ipv6 = noRoute dst).
Proof.
  unfold route. fold (partitionOf r ipv6).
  destruct (scan input src dst (partitionOf r ipv6)) as [e |] eqn:Hs.
  - left. destruct (scan_Some _ _ _ _ _ Hs) as (pre & post & Heq & Hpre & He).
    exists pre, e, post. auto.
  - right. split; [apply scan_None, Hs | reflexivity].
Qed.

(** C10. An entry whose destination is the zero prefix contains no
    destination of four or sixteen bytes, so the scan never returns it and
    taking such entries out of the table changes no answer of
    [RouteWithSrc]; the Linux ingestion gives a route without the attribute
    [RTA_DST] this zero destination, hence such a route is never the
    match. *)
Theorem C10_zero_destination_never_matches :
  (forall (e : rtInfo) (dst : net.IP),
      Dst e = net.zeroIPNet -> validIP dst -> net.Contains (Dst e) dst = false)
  /\ (forall (input : Z) (src dst : net.IP) (rs : routeSlice) (e : rtInfo),
         validIP dst -> scan input src dst rs = Some e -> Dst e <> net.zeroIPNet)
  /\ (forall (r : router) (vs : visits) (hw : net.HardwareAddr) (src dst : net.IP),
         RouteWithSrc r vs hw src dst = RouteWithSrc (dropZeroDst r) vs hw src dst)
  /\ (forall (rt : routeInfoInMemory) (attrs : list NetlinkRouteAttr)
             (input : Z) (src dst : net.IP) (rs : routeSlice),
         Forall (fun a => Attr_Type a <> syscall.RTA_DST) attrs ->
         validIP dst ->
         Dst (routeInfoOf rt attrs) = net.zeroIPNet
         /\ scan input src dst rs <> Some (routeInfoOf rt attrs)).
Proof.
  split; [| split; [| split]].
  - intros e dst -> Hv. apply Contains_zero_valid, Hv.
  - intros input src dst rs e Hv Hs. exact (scan_not_zero input src dst rs e Hv Hs).
  - intros r vs hw src dst.
    apply (RouteWithSrc_ext r (dropZeroDst r) vs hw hw _ _ src dst
             eq_refl eq_refl eq_refl eq_refl).
    intros Hv ipv6. symmetry. destruct ipv6; apply scan_dropZeroDst, Hv.
  - intros rt attrs input src dst rs Hattrs Hv.
    assert (Hz : Dst (routeInfoOf rt attrs) = net.zeroIPNet)
      by (unfold routeInfoOf; rewrite setAttr_Dst by exact Hattrs; reflexivity).
    split; [exact Hz |].
    intros Hs. exact (scan_not_zero input src dst rs _ Hv Hs Hz).
Qed.

(** C4, on the code.  The route to 10.0.0.0/8 of [lanRouter] has no
    source.  Its source test fails for the source 10.0.0.5, so that
    [RouteWithSrc] finds no route to 10.1.2.3, which [Route] reaches through
    the same entry. *)
Theorem C4_absent_source_is_skipped :
  Src route8 = net.zeroIPNet
  /\ net.Contains (Src route8) (ip4 10 0 0 5) = false
  /\ ans_err (RouteWithSrc lanRouter (someVisits lanRouter) None
                           (ip4 10 0 0 5) (ip4 10 1 2 3))
     = Some (NoRouteFound (ip4 10 1 2 3))
  /\ ans_err (Route lanRouter (someVisits lanRouter) (ip4 10 1 2 3)) = None.
Proof. conjuncts; evaluate. Qed.

(** The same for every entry without a source and every source of four or
    sixteen bytes: the scan goes past the entry. *)
Lemma absent_source_skipped (input : Z) (src dst : net.IP) (e : rtInfo)
    (rest : routeSlice) :
  Src e = net.zeroIPNet -> validIP src ->
  net.Contains (Src e) src = false
  /\ scan input src dst (e :: rest) = scan input src dst rest.
Proof.
  intros Hz Hv. rewrite scan_cons. unfold matchesb.
  rewrite Hz, (Contains_zero_valid src Hv), andb_false_r. auto.
Qed.

(** C5 as stated fails: on [boundRouter], whose only route is bound to the
    input interface 3, a hardware address that no interface has finds no
    route, and a nil hardware address finds one. *)
Lemma C5_counterexample :
  (forall i iface, ifaces boundRouter !! i = Some iface ->
                   bytes.Equal (Some strangerHw) (net.HardwareAddr_ iface) = false)
  /\ RouteWithSrc boundRouter (someVisits boundRouter) (Some strangerHw) None
                  (ip4 10 1 2 3)
     <> RouteWithSrc boundRouter (someVisits boundRouter) None None (ip4 10 1 2 3).
Proof.
  split.
  - intros i iface H. unfold boundRouter, lanIfaces in H. simpl in H.
    apply lookup_singleton_Some in H as [_ <-]. reflexivity.
  - vm_compute. discriminate.
Qed.

(** C5, amended.  A hardware address that no interface has makes
    [RouteWithSrc] resolve with the input interface [-1]: the answer is the
    one a nil hardware address gets on the table without the entries bound
    to an input interface other than [-1]. *)
Theorem C5_unmatched_hardware_address (r : router) (vs : visits) (hw : list Z)
    (src dst : net.IP) :
  visitsOf r vs ->
  (forall i iface, ifaces r !! i = Some iface ->
                   bytes.Equal (Some hw) (net.HardwareAddr_ iface) = false) ->
  RouteWithSrc r vs (Some hw) src dst
  = RouteWithSrc (dropInputBound r) vs None src dst.
Proof.
  intros (Hifaces & _ & _) Hnone.
  apply (RouteWithSrc_ext r (dropInputBound r) vs (Some hw) None (-1) 0 src dst
           eq_refl eq_refl).
  - simpl. apply inputIndexOf_none. intros i iface Hin.
    apply (Hnone i iface). apply (rangeOver_lookup _ _ _ _ Hifaces), Hin.
  - reflexivity.
  - intros _ ipv6. symmetry. destruct ipv6; apply scan_dropInputBound.
Qed.

Lemma C5_witness :
  RouteWithSrc boundRouter (someVisits boundRouter) (Some strangerHw) None
               (ip4 10 1 2 3)
  = RouteWithSrc (dropInputBound boundRouter) (someVisits boundRouter) None None
                 (ip4 10 1 2 3).
Proof.
  apply (C5_unmatched_hardware_address boundRouter (someVisits boundRouter)
           strangerHw None (ip4 10 1 2 3)).
  - apply someVisits_ok.
  - intros i iface H. unfold boundRouter, lanIfaces in H. simpl in H.
    apply lookup_singleton_Some in H as [_ <-]. reflexivity.
Defined.

(** ** The order of the table *)

Lemma lessInfo_true_iff (a b : rtInfo) :
  lessInfo a b = true <->
  prefixLen b < prefixLen a
  \/ (prefixLen a = prefixLen b
      /\ (Priority a < Priority b
          \/ (Priority a = Priority b /\ Metrics a < Metrics b))).
Proof.
  unfold lessInfo, prefixLen.
  destruct (Z.eqb_spec (countMaskOnes (net.IPNet_Mask (Dst a)))
                       (countMaskOnes (net.IPNet_Mask (Dst b)))) as [He | Hne].
  - destruct (Z.eqb_spec (Priority a) (Priority b)); rewrite Z.ltb_lt; lia.
  - rewrite Z.ltb_lt. lia.
Qed.

Lemma notAfter_iff (a b : rtInfo) :
  notAfter a b <->
  prefixLen b < prefixLen a
  \/ (prefixLen a = prefixLen b
      /\ (Priority a < Priority b
          \/ (Priority a = Priority b /\ Metrics a <= Metrics b))).
Proof.
  unfold notAfter. rewrite <- not_true_iff_false, lessInfo_true_iff. lia.
Qed.

Lemma tiesb_iff (a b : rtInfo) :
  tiesb a b = true <->
  prefixLen a = prefixLen b /\ Priority a = Priority b /\ Metrics a = Metrics b.
Proof. unfold tiesb. rewrite !andb_true_iff, !Z.eqb_eq. tauto. Qed.

Lemma StronglySorted_lookup_lt {A} (R : relation A) (l : list A) (i j : nat) (a b : A) :
  StronglySorted R l -> (i < j)%nat -> l !! i = Some a -> l !! j = Some b -> R a b.
Proof.
  intros Hs. revert i j. induction Hs as [| x l Hs IH Hall]; intros i j Hij Hi Hj.
  - discriminate.
  - destruct j as [| j]; [lia |]. simpl in Hj. destruct i as [| i]; simpl in Hi.
    + injection Hi as <-. rewrite Forall_forall in Hall. apply Hall.
      apply list_elem_of_lookup. eauto.
    + apply (IH i j); [lia | assumption | assumption].
Qed.

(** A slice sorted by [Less] has the ordering invariant. *)
Lemma sorted_ordered (l : routeSlice) : StronglySorted notAfter l -> ordered l.
Proof.
  intros Hs i j a b Hij Hi Hj.
  pose proof (StronglySorted_lookup_lt notAfter l i j a b Hs Hij Hi Hj) as H.
  apply notAfter_iff in H. lia.
Qed.

Lemma filter_Permutation_bool {A} (f : A -> bool) (l l' : list A) :
  l ≡ₚ l' -> List.filter f l ≡ₚ List.filter f l'.
Proof.
  induction 1 as [| x l l' _ IH | x y l | l l' l'' _ IH1 _ IH2]; simpl.
  - reflexivity.
  - destruct (f x); [constructor |]; exact IH.
  - destruct (f x), (f y); try reflexivity. constructor.
  - etransitivity; eassumption.
Qed.

Lemma finish_ok (sortSort : routeSlice -> routeSlice) (res : router * option error)
    (r' : router) :
  finish sortSort res = (r', None) ->
  exists r1, res = (r1, None) /\ r' = sortTables sortSort r1.
Proof.
  destruct res as [r1 [e |]]; simpl; intros [= <-]. exists r1. auto.
Qed.

Section Contract.

Variable sortSort : routeSlice -> routeSlice.
Hypothesis sortSort_contract : sortContract sortSort.

Lemma sortTables_ordered (r : router) :
  ordered (v4 (sortTables sortSort r)) /\ ordered (v6 (sortTables sortSort r)).
Proof.
  split; apply sorted_ordered; simpl; apply sortSort_contract.
Qed.

Lemma sortTables_perm (r : router) :
  v4 (sortTables sortSort r) ≡ₚ v4 r /\ v6 (sortTables sortSort r) ≡ₚ v6 r.
Proof. split; simpl; apply sortSort_contract. Qed.

Lemma sortTables_keepsTies (r : router) :
  keepsTies (v4 r) (v4 (sortTables sortSort r))
  /\ keepsTies (v6 r) (v6 (sortTables sortSort r)).
Proof.
  split; intros e; apply filter_Permutation_bool; simpl; apply sortSort_contract.
Qed.

(** A table of two entries the first of which sorts before the second. *)
Lemma sort_two (a b : rtInfo) (l : routeSlice) :
  lessInfo a b = true -> l = [a; b] \/ l = [b; a] -> sortSort l = [a; b].
Proof.
  intros Hab Hl. destruct (sortSort_contract l) as [Hp Hs].
  assert (Hp' : [a; b] ≡ₚ sortSort l).
  { symmetry. rewrite Hp. destruct Hl as [-> | ->]; [reflexivity | constructor]. }
  apply Permutation_length_2_inv in Hp' as [H | H]; [exact H |].
  rewrite H in Hs. apply StronglySorted_cons in Hs as [Hall _].
  apply Forall_cons in Hall as [Hba _]. unfold notAfter in Hba. congruence.
Qed.

End Contract.

(** ** [sort.Sort] sorts

    The transcription of [sort.Sort] returns on every slice, whatever the
    generator of [breakPatterns] is, and meets [sortContract]. *)

Lemma lessInfo_false_iff (x y : rtInfo) :
  lessInfo x y = false <->
  prefixLen x < prefixLen y
  \/ (prefixLen y = prefixLen x
      /\ (Priority y < Priority x
          \/ (Priority y = Priority x /\ Metrics y <= Metrics x))).
Proof. apply (notAfter_iff y x). Qed.

(** Turns the comparisons of the context and of the goal into inequalities
    between the keys and decides them. *)
Ltac keys :=
  repeat match goal with
         | H : lessInfo _ _ = true |- _ => apply lessInfo_true_iff in H
         | H : lessInfo _ _ = false |- _ => apply lessInfo_false_iff in H
         end;
  try match goal with
      | |- lessInfo _ _ = true => apply lessInfo_true_iff
      | |- lessInfo _ _ = false => apply lessInfo_false_iff
      end;
  lia.

Lemma Len_nonneg (d : routeSlice) : 0 <= Len d.
Proof. unfold Len. lia. Qed.

Lemma index_in (d : routeSlice) (i : Z) :
  0 <= i < Len d -> index d i = Some (elt d i).
Proof.
  unfold index, elt, Len. intros H.
  destruct (Z.ltb_spec i 0); [lia |].
  destruct (nth_lookup_or_length d (Z.to_nat i) zeroRtInfo) as [E | Hl]; [exact E | lia].
Qed.

Lemma Less_in (d : routeSlice) (i j : Z) :
  0 <= i < Len d -> 0 <= j < Len d ->
  Less d i j = Some (lessInfo (elt d i) (elt d j)).
Proof. intros Hi Hj. unfold Less. rewrite (index_in d i Hi), (index_in d j Hj). reflexivity. Qed.

Lemma Swap_in (d : routeSlice) (i j : Z) :
  0 <= i < Len d -> 0 <= j < Len d -> Swap d i j = Some (swp d i j).
Proof. intros Hi Hj. unfold Swap. rewrite (index_in d i Hi), (index_in d j Hj). reflexivity. Qed.

Lemma Len_swp (d : routeSlice) (i j : Z) : Len (swp d i j) = Len d.
Proof. unfold Len, swp. rewrite !length_insert. reflexivity. Qed.

Lemma elt_lookup (d : routeSlice) (k : Z) :
  0 <= k < Len d -> d !! Z.to_nat k = Some (elt d k).
Proof.
  intros H. unfold elt, Len in *.
  destruct (nth_lookup_or_length d (Z.to_nat k) zeroRtInfo) as [E | Hl]; [exact E | lia].
Qed.

Lemma elt_swp (d : routeSlice) (i j k : Z) :
  0 <= i < Len d -> 0 <= j < Len d -> 0 <= k < Len d ->
  elt (swp d i j) k = if k =? j then elt d i else if k =? i then elt d j else elt d k.
Proof.
  intros Hi Hj Hk. unfold swp. unfold elt at 1. unfold Len in *. apply nth_lookup_Some.
  destruct (Z.eqb_spec k j) as [-> | Hkj].
  - apply list_lookup_insert_eq. rewrite length_insert. lia.
  - rewrite list_lookup_insert_ne by lia.
    destruct (Z.eqb_spec k i) as [-> | Hki].
    + apply list_lookup_insert_eq. lia.
    + rewrite list_lookup_insert_ne by lia. apply elt_lookup. unfold Len. lia.
Qed.

Lemma swp_perm (d : routeSlice) (i j : Z) :
  0 <= i < Len d -> 0 <= j < Len d -> swp d i j ≡ₚ d.
Proof.
  intros Hi Hj. apply Permutation_inj. split.
  - unfold swp. rewrite !length_insert. reflexivity.
  - exists (fun n => if decide (n = Z.to_nat j) then Z.to_nat i
                     else if decide (n = Z.to_nat i) then Z.to_nat j else n).
    split.
    + intros x y. repeat case_decide; lia.
    + intros n. unfold swp, Len in *.
      destruct (decide (n = Z.to_nat j)) as [-> | Hnj].
      * rewrite list_lookup_insert_eq by (rewrite length_insert; lia).
        symmetry. apply elt_lookup. unfold Len. lia.
      * rewrite list_lookup_insert_ne by lia.
        destruct (decide (n = Z.to_nat i)) as [-> | Hni].
        -- rewrite list_lookup_insert_eq by lia.
           symmetry. apply elt_lookup. unfold Len. lia.
        -- rewrite list_lookup_insert_ne by lia. reflexivity.
Qed.

Lemma Frame_refl (a b : Z) (d : routeSlice) : Frame a b d d.
Proof. unfold Frame. auto. Qed.

Lemma Frame_trans (a b : Z) (d1 d2 d3 : routeSlice) :
  Frame a b d1 d2 -> Frame a b d2 d3 -> Frame a b d1 d3.
Proof.
  intros (Hl1 & Hp1 & Ho1 & He1) (Hl2 & Hp2 & Ho2 & He2). unfold Frame.
  split; [congruence |]. split; [etransitivity; eassumption |]. split.
  - intros k Hk Hout. rewrite Ho2 by (rewrite ?Hl1; lia). apply Ho1; assumption.
  - intros P HP. apply He2, He1, HP.
Qed.

Lemma Frame_weaken (a b a' b' : Z) (d d' : routeSlice) :
  0 <= a -> b <= Len d -> a <= a' -> b' <= b -> Frame a' b' d d' -> Frame a b d d'.
Proof.
  intros Ha Hb Ha' Hb' (Hl & Hp & Ho & He). unfold Frame.
  split; [exact Hl |]. split; [exact Hp |]. split.
  - intros k Hk Hout. apply Ho; lia.
  - intros P HP k Hk.
    destruct (Z_lt_ge_dec k a') as [Hlo | Hlo].
    + rewrite Ho by lia. apply HP. lia.
    + destruct (Z_lt_ge_dec k b') as [Hhi | Hhi].
      * apply (He (fun x => P x)); [| lia]. intros k' Hk'. apply HP. lia.
      * rewrite Ho by lia. apply HP. lia.
Qed.

Lemma Frame_swp (a b : Z) (d : routeSlice) (i j : Z) :
  0 <= a -> b <= Len d -> a <= i < b -> a <= j < b -> Frame a b d (swp d i j).
Proof.
  intros Ha Hb Hi Hj. unfold Frame.
  split; [apply Len_swp |]. split; [apply swp_perm; lia |]. split.
  - intros k Hk Hout. rewrite elt_swp by lia.
    destruct (Z.eqb_spec k j); [lia |]. destruct (Z.eqb_spec k i); [lia |]. reflexivity.
  - intros P HP k Hk. rewrite elt_swp by lia.
    destruct (Z.eqb_spec k j); [apply HP; lia |].
    destruct (Z.eqb_spec k i); apply HP; lia.
Qed.

Lemma Frame_Len (a b : Z) (d d' : routeSlice) : Frame a b d d' -> Len d' = Len d.
Proof. intros H. apply H. Qed.

Lemma Frame_outside (a b : Z) (d d' : routeSlice) (k : Z) :
  Frame a b d d' -> 0 <= k < Len d -> k < a \/ b <= k -> elt d' k = elt d k.
Proof. intros (_ & _ & H & _). apply H. Qed.

Lemma Frame_inside (a b : Z) (d d' : routeSlice) (P : rtInfo -> Prop) :
  Frame a b d d' -> (forall k, a <= k < b -> P (elt d k)) ->
  forall k, a <= k < b -> P (elt d' k).
Proof. intros (_ & _ & _ & H). apply H. Qed.

(** A step with a frame in a smaller range, as part of a longer run. *)
Lemma Frame_step (a b a' b' : Z) (d d1 d2 : routeSlice) :
  0 <= a -> b <= Len d -> a <= a' -> b' <= b ->
  Frame a b d d1 -> Frame a' b' d1 d2 -> Frame a b d d2.
Proof.
  intros Ha Hb Ha' Hb' H1 H2. apply (Frame_trans a b d d1 d2 H1).
  apply (Frame_weaken a b a' b'); try lia; [rewrite (Frame_Len _ _ _ _ H1); lia | exact H2].
Qed.

(** Decides the tests [x =? y] of the goal by arithmetic. *)
Ltac eqb_lia :=
  repeat match goal with
         | |- context [?x =? ?y] => destruct (Z.eqb_spec x y); try lia
         end.

(** *** Insertion sort *)

Lemma insertDown_ok (fuel : nat) (d : routeSlice) (a j : Z) :
  0 <= a <= j -> j < Len d -> (Z.to_nat (j - a) < fuel)%nat ->
  exists d', sort.insertDown Less Swap fuel d a j = Some d'
             /\ Frame a (j + 1) d d'
             /\ (SortedSeg d a j -> SortedSeg d' a (j + 1)).
Proof.
  revert d j. induction fuel as [| k IH]; intros d j Ha Hj Hfuel; [lia |].
  simpl. destruct (Z.ltb_spec a j) as [Haj | Haj].
  - rewrite Less_in by lia. simpl.
    destruct (lessInfo (elt d j) (elt d (j - 1))) eqn:Hlt.
    + rewrite Swap_in by lia. simpl.
      destruct (IH (swp d j (j - 1)) (j - 1)) as (d' & Hrun & Hfr & Hs);
        [lia | rewrite Len_swp; lia | lia |].
      exists d'. split; [exact Hrun |].
      assert (Hfs : Frame a (j + 1) d (swp d j (j - 1))) by (apply Frame_swp; lia).
      split.
      * apply (Frame_step a (j + 1) a (j - 1 + 1) d (swp d j (j - 1)) d'); try lia; assumption.
      * intros Hsorted.
        assert (Hs1 : SortedSeg (swp d j (j - 1)) a (j - 1)).
        { intros x y Hx Hxy Hy. rewrite !elt_swp by lia. eqb_lia.
          apply Hsorted; lia. }
        specialize (Hs Hs1). replace (j - 1 + 1) with j in * by lia.
        intros x y Hx Hxy Hy.
        destruct (Z.eq_dec y j) as [-> | Hyj]; [| apply Hs; lia].
        rewrite (Frame_outside a j _ d' j Hfr) by (rewrite ?Len_swp; lia).
        rewrite elt_swp by lia.
        assert (Hat : (if j =? j - 1 then elt d j
                       else if j =? j then elt d (j - 1) else elt d j) = elt d (j - 1))
          by (eqb_lia; reflexivity).
        rewrite Hat.
        apply (Frame_inside a j _ d' (fun e => lessInfo (elt d (j - 1)) e = false) Hfr); [| lia].
        intros z Hz. rewrite elt_swp by lia. eqb_lia.
        -- clear -Hlt. keys.
        -- apply Hsorted; lia.
    + exists d. split; [reflexivity |]. split; [apply Frame_refl |].
      intros Hsorted x y Hx Hxy Hy.
      destruct (Z.eq_dec y j) as [-> | Hyj]; [| apply Hsorted; lia].
      destruct (Z.eq_dec x (j - 1)) as [-> | Hxj]; [exact Hlt |].
      pose proof (Hsorted x (j - 1) Hx ltac:(lia) ltac:(lia)) as H1. keys.
  - exists d. split; [reflexivity |]. split; [apply Frame_refl |].
    intros _ x y Hx Hxy Hy. lia.
Qed.

Lemma insertionLoop_ok (fuel0 fuel : nat) (d : routeSlice) (a b i : Z) :
  0 <= a -> a < i <= b -> b <= Len d -> SortedSeg d a i ->
  (Z.to_nat (Len d) < fuel0)%nat -> (Z.to_nat (b - i) < fuel)%nat ->
  exists d', sort.insertionLoop Less Swap fuel0 fuel d a b i = Some d'
             /\ Frame a b d d' /\ SortedSeg d' a b.
Proof.
  revert d i. induction fuel as [| k IH]; intros d i Ha Hi Hb Hs Hf0 Hf; [lia |].
  simpl. destruct (Z.ltb_spec i b) as [Hib | Hib].
  - destruct (insertDown_ok fuel0 d a i) as (d1 & -> & Hfr1 & Hs1); [lia | lia | lia |].
    simpl. specialize (Hs1 Hs). pose proof (Frame_Len _ _ _ _ Hfr1) as Hlen.
    destruct (IH d1 (i + 1)) as (d' & Hrun & Hfr & Hs'); try lia; [exact Hs1 |].
    exists d'. split; [exact Hrun |]. split; [| exact Hs'].
    apply (Frame_trans a b d d1 d'); [| exact Hfr].
    apply (Frame_weaken a b a (i + 1)); try lia. exact Hfr1.
  - exists d. split; [reflexivity |]. replace b with i by lia.
    split; [apply Frame_refl | exact Hs].
Qed.

Lemma insertionSort_ok (fuel : nat) (d : routeSlice) (a b : Z) :
  0 <= a <= b -> b <= Len d -> (Z.to_nat (Len d) < fuel)%nat ->
  exists d', sort.insertionSort Less Swap fuel d a b = Some d'
             /\ Frame a b d d' /\ SortedSeg d' a b.
Proof.
  intros Ha Hb Hf. unfold sort.insertionSort.
  destruct (Z.eq_dec a b) as [<- | Hne].
  - destruct fuel as [| k]; [lia |]. simpl.
    destruct (Z.ltb_spec (a + 1) a); [lia |].
    exists d. split; [reflexivity |]. split; [apply Frame_refl |].
    intros x y Hx Hxy Hy. lia.
  - apply insertionLoop_ok; try lia.
    intros x y Hx Hxy Hy. lia.
Qed.

(** *** The two partitions *)

Lemma skipLess_ok (fuel : nat) (d : routeSlice) (a i j : Z) :
  0 <= a < Len d -> 0 <= i -> j < Len d -> i <= j + 1 ->
  (Z.to_nat (j + 1 - i) < fuel)%nat ->
  exists i', sort.skipLess Less fuel d a i j = Some i'
             /\ i <= i' <= j + 1
             /\ (forall k, i <= k < i' -> lessInfo (elt d k) (elt d a) = true)
             /\ (i' <= j -> lessInfo (elt d i') (elt d a) = false).
Proof.
  revert i. induction fuel as [| n IH]; intros i Ha Hi Hj Hij Hf; [lia |].
  simpl. destruct (Z.leb_spec i j) as [Hle | Hgt].
  - rewrite Less_in by lia. simpl.
    destruct (lessInfo (elt d i) (elt d a)) eqn:Hlt.
    + destruct (IH (i + 1)) as (i' & -> & Hr & Hall & Hstop); try lia.
      exists i'. split; [reflexivity |]. split; [lia |]. split; [| exact Hstop].
      intros k Hk. destruct (Z.eq_dec k i) as [-> | Hne]; [exact Hlt | apply Hall; lia].
    + exists i. split; [reflexivity |]. split; [lia |]. split; [intros k Hk; lia | auto].
  - exists i. split; [reflexivity |]. split; [lia |]. split; intros; lia.
Qed.

Lemma skipNotLess_ok (fuel : nat) (d : routeSlice) (a i j : Z) :
  0 <= a < Len d -> 0 <= i -> j < Len d -> i <= j + 1 ->
  (Z.to_nat (j + 1 - i) < fuel)%nat ->
  exists j', sort.skipNotLess Less fuel d a i j = Some j'
             /\ i - 1 <= j' <= j
             /\ (forall k, j' < k <= j -> lessInfo (elt d k) (elt d a) = false)
             /\ (i <= j' -> lessInfo (elt d j') (elt d a) = true).
Proof.
  revert j. induction fuel as [| n IH]; intros j Ha Hi Hj Hij Hf; [lia |].
  simpl. destruct (Z.leb_spec i j) as [Hle | Hgt].
  - rewrite Less_in by lia. simpl.
    destruct (lessInfo (elt d j) (elt d a)) eqn:Hlt; simpl.
    + exists j. split; [reflexivity |]. split; [lia |]. split; [intros k Hk; lia | auto].
    + destruct (IH (j - 1)) as (j' & -> & Hr & Hall & Hstop); try lia.
      exists j'. split; [reflexivity |]. split; [lia |]. split; [| exact Hstop].
      intros k Hk. destruct (Z.eq_dec k j) as [-> | Hne]; [exact Hlt | apply Hall; lia].
  - exists j. split; [reflexivity |]. split; [lia |]. split; intros; lia.
Qed.

Lemma partitionLoop_ok (fuel0 fuel : nat) (d : routeSlice) (a b i j : Z) :
  0 <= a -> a < i -> j < b -> b <= Len d -> i <= j + 1 ->
  Parted d a b i j ->
  (Z.to_nat (Len d) < fuel0)%nat -> (Z.to_nat (j + 1 - i) < fuel)%nat ->
  exists d' j', sort.partitionLoop Less Swap fuel0 fuel d a i j = Some (d', j')
                /\ Frame (a + 1) b d d'
                /\ a <= j' < b
                /\ Parted d' a b (j' + 1) j'.
Proof.
  revert d i j. induction fuel as [| n IH]; intros d i j Ha Hi Hj Hb Hij [HL HR] Hf0 Hf; [lia |].
  simpl.
  destruct (skipLess_ok fuel0 d a i j) as (i1 & -> & Hi1 & HL1 & Hs1); try lia.
  simpl.
  destruct (skipNotLess_ok fuel0 d a i1 j) as (j1 & -> & Hj1 & HR1 & Hs2); try lia.
  simpl. destruct (Z.ltb_spec j1 i1) as [Hlt | Hge].
  - exists d, j1. split; [reflexivity |]. split; [apply Frame_refl |]. split; [lia |].
    split; intros k Hk.
    + destruct (Z_lt_ge_dec k i); [apply HL; lia | apply HL1; lia].
    + destruct (Z_lt_ge_dec j k); [apply HR; lia | apply HR1; lia].
  - specialize (Hs1 ltac:(lia)). specialize (Hs2 Hge).
    assert (Hne : i1 < j1).
    { destruct (Z.eq_dec i1 j1) as [E | E]; [| lia]. rewrite E in Hs1. congruence. }
    rewrite Swap_in by lia. simpl.
    destruct (IH (swp d i1 j1) (i1 + 1) (j1 - 1)) as (d' & j' & Hrun & Hfr & Hj' & HP);
      try lia; try (rewrite Len_swp; lia).
    + split; intros k Hk; rewrite !elt_swp by lia; eqb_lia.
      * exact Hs2.
      * destruct (Z_lt_ge_dec k i); [apply HL; lia | apply HL1; lia].
      * exact Hs1.
      * destruct (Z_lt_ge_dec j k); [apply HR; lia | apply HR1; lia].
    + exists d', j'. split; [exact Hrun |]. split; [| auto].
      apply (Frame_trans (a + 1) b d (swp d i1 j1) d'); [| exact Hfr].
      apply Frame_swp; lia.
Qed.

(** The last step of [partition]: the pivot goes from [a] to its place. *)
Lemma place_pivot (d : routeSlice) (a b j : Z) :
  0 <= a -> a <= j < b -> b <= Len d -> Parted d a b (j + 1) j ->
  Frame a b d (swp d j a)
  /\ (forall k, a <= k < j -> lessInfo (elt (swp d j a) k) (elt (swp d j a) j) = true)
  /\ (forall k, j < k < b -> lessInfo (elt (swp d j a) k) (elt (swp d j a) j) = false).
Proof.
  intros Ha Hj Hb [HL HR]. split; [apply Frame_swp; lia |].
  destruct (Z.eq_dec j a) as [-> | Hne].
  - split; intros k Hk; [lia |]. rewrite !elt_swp by lia. eqb_lia. apply HR. lia.
  - split; intros k Hk; rewrite !elt_swp by lia; eqb_lia.
    + apply HL. lia.
    + apply HL. lia.
    + apply HR. lia.
Qed.

Lemma partition_ok (fuel : nat) (d : routeSlice) (a b pivot : Z) :
  0 <= a -> a <= pivot < b -> b <= Len d -> (Z.to_nat (Len d) < fuel)%nat ->
  exists d' mid ap,
    sort.partition Less Swap fuel d a b pivot = Some (d', mid, ap)
    /\ Frame a b d d'
    /\ a <= mid < b
    /\ (forall k, a <= k < mid -> lessInfo (elt d' k) (elt d' mid) = true)
    /\ (forall k, mid < k < b -> lessInfo (elt d' k) (elt d' mid) = false).
Proof.
  intros Ha Hp Hb Hf. unfold sort.partition.
  rewrite Swap_in by lia. simpl.
  set (d0 := swp d a pivot).
  assert (Hl0 : Len d0 = Len d) by apply Len_swp.
  assert (Hf0 : Frame a b d d0) by (apply Frame_swp; lia).
  destruct (skipLess_ok fuel d0 a (a + 1) (b - 1)) as (i1 & -> & Hi1 & HL1 & Hs1); try lia.
  simpl.
  destruct (skipNotLess_ok fuel d0 a i1 (b - 1)) as (j1 & -> & Hj1 & HR1 & Hs2); try lia.
  simpl. destruct (Z.ltb_spec j1 i1) as [Hlt | Hge].
  - rewrite Swap_in by lia. simpl.
    destruct (place_pivot d0 a b j1) as (Hfp & HA & HB); try lia.
    { split; intros k Hk; [apply HL1 | apply HR1]; lia. }
    exists (swp d0 j1 a), j1, true. split; [reflexivity |].
    split; [apply (Frame_trans a b d d0 _ Hf0 Hfp) |]. split; [lia | auto].
  - specialize (Hs1 ltac:(lia)). specialize (Hs2 Hge).
    assert (Hne : i1 < j1).
    { destruct (Z.eq_dec i1 j1) as [E | E]; [| lia]. rewrite E in Hs1. congruence. }
    rewrite Swap_in by lia. simpl.
    destruct (partitionLoop_ok fuel fuel (swp d0 i1 j1) a b (i1 + 1) (j1 - 1))
      as (d1 & j' & -> & Hfr & Hj' & HP); try lia; try (rewrite Len_swp; lia).
    + split; intros k Hk; rewrite !elt_swp by lia; eqb_lia.
      * exact Hs2.
      * apply HL1. lia.
      * exact Hs1.
      * apply HR1. lia.
    + simpl.
      assert (Hf1 : Frame a b d d1).
      { apply (Frame_trans a b d d0 d1 Hf0).
        apply (Frame_trans a b d0 (swp d0 i1 j1) d1); [apply Frame_swp; lia |].
        apply (Frame_weaken a b (a + 1) b); try lia; [rewrite Len_swp; lia | exact Hfr]. }
      pose proof (Frame_Len _ _ _ _ Hf1) as Hl1.
      rewrite Swap_in by lia. simpl.
      destruct (place_pivot d1 a b j') as (Hfp & HA & HB); try lia; [exact HP |].
      exists (swp d1 j' a), j', false. split; [reflexivity |].
      split; [apply (Frame_trans a b d d1 _ Hf1 Hfp) |]. split; [lia | auto].
Qed.

Lemma skipNotGreater_ok (fuel : nat) (d : routeSlice) (a i j : Z) :
  0 <= a < Len d -> 0 <= i -> j < Len d -> i <= j + 1 ->
  (Z.to_nat (j + 1 - i) < fuel)%nat ->
  exists i', sort.skipNotGreater Less fuel d a i j = Some i'
             /\ i <= i' <= j + 1
             /\ (forall k, i <= k < i' -> lessInfo (elt d a) (elt d k) = false)
             /\ (i' <= j -> lessInfo (elt d a) (elt d i') = true).
Proof.
  revert i. induction fuel as [| n IH]; intros i Ha Hi Hj Hij Hf; [lia |].
  simpl. destruct (Z.leb_spec i j) as [Hle | Hgt].
  - rewrite Less_in by lia. simpl.
    destruct (lessInfo (elt d a) (elt d i)) eqn:Hlt; simpl.
    + exists i. split; [reflexivity |]. split; [lia |]. split; [intros k Hk; lia | auto].
    + destruct (IH (i + 1)) as (i' & -> & Hr & Hall & Hstop); try lia.
      exists i'. split; [reflexivity |]. split; [lia |]. split; [| exact Hstop].
      intros k Hk. destruct (Z.eq_dec k i) as [-> | Hne]; [exact Hlt | apply Hall; lia].
  - exists i. split; [reflexivity |]. split; [lia |]. split; intros; lia.
Qed.

Lemma skipGreater_ok (fuel : nat) (d : routeSlice) (a i j : Z) :
  0 <= a < Len d -> 0 <= i -> j < Len d -> i <= j + 1 ->
  (Z.to_nat (j + 1 - i) < fuel)%nat ->
  exists j', sort.skipGreater Less fuel d a i j = Some j'
             /\ i - 1 <= j' <= j
             /\ (forall k, j' < k <= j -> lessInfo (elt d a) (elt d k) = true)
             /\ (i <= j' -> lessInfo (elt d a) (elt d j') = false).
Proof.
  revert j. induction fuel as [| n IH]; intros j Ha Hi Hj Hij Hf; [lia |].
  simpl. destruct (Z.leb_spec i j) as [Hle | Hgt].
  - rewrite Less_in by lia. simpl.
    destruct (lessInfo (elt d a) (elt d j)) eqn:Hlt; simpl.
    + destruct (IH (j - 1)) as (j' & -> & Hr & Hall & Hstop); try lia.
      exists j'. split; [reflexivity |]. split; [lia |]. split; [| exact Hstop].
      intros k Hk. destruct (Z.eq_dec k j) as [-> | Hne]; [exact Hlt | apply Hall; lia].
    + exists j. split; [reflexivity |]. split; [lia |]. split; [intros k Hk; lia | auto].
  - exists j. split; [reflexivity |]. split; [lia |]. split; intros; lia.
Qed.

Lemma partitionEqualLoop_ok (fuel0 fuel : nat) (d : routeSlice) (a b i j : Z) :
  0 <= a -> a < i -> j < b -> b <= Len d -> i <= j + 1 ->
  PartedEqual d a b i j ->
  (Z.to_nat (Len d) < fuel0)%nat -> (Z.to_nat (j + 1 - i) < fuel)%nat ->
  exists d' i', sort.partitionEqualLoop Less Swap fuel0 fuel d a i j = Some (d', i')
                /\ Frame (a + 1) b d d'
                /\ a < i' <= b
                /\ PartedEqual d' a b i' (i' - 1).
Proof.
  revert d i j. induction fuel as [| n IH]; intros d i j Ha Hi Hj Hb Hij [HL HR] Hf0 Hf; [lia |].
  simpl.
  destruct (skipNotGreater_ok fuel0 d a i j) as (i1 & -> & Hi1 & HL1 & Hs1); try lia.
  simpl.
  destruct (skipGreater_ok fuel0 d a i1 j) as (j1 & -> & Hj1 & HR1 & Hs2); try lia.
  simpl. destruct (Z.ltb_spec j1 i1) as [Hlt | Hge].
  - exists d, i1. split; [reflexivity |]. split; [apply Frame_refl |]. split; [lia |].
    split; intros k Hk.
    + destruct (Z_lt_ge_dec k i); [apply HL; lia | apply HL1; lia].
    + destruct (Z_lt_ge_dec j k); [apply HR; lia | apply HR1; lia].
  - specialize (Hs1 ltac:(lia)). specialize (Hs2 Hge).
    assert (Hne : i1 < j1).
    { destruct (Z.eq_dec i1 j1) as [E | E]; [| lia]. rewrite E in Hs1. congruence. }
    rewrite Swap_in by lia. simpl.
    destruct (IH (swp d i1 j1) (i1 + 1) (j1 - 1)) as (d' & i' & Hrun & Hfr & Hi' & HP);
      try lia; try (rewrite Len_swp; lia).
    + split; intros k Hk; rewrite !elt_swp by lia; eqb_lia.
      * exact Hs2.
      * destruct (Z_lt_ge_dec k i); [apply HL; lia | apply HL1; lia].
      * exact Hs1.
      * destruct (Z_lt_ge_dec j k); [apply HR; lia | apply HR1; lia].
    + exists d', i'. split; [exact Hrun |]. split; [| auto].
      apply (Frame_trans (a + 1) b d (swp d i1 j1) d'); [| exact Hfr].
      apply Frame_swp; lia.
Qed.

Lemma partitionEqual_ok (fuel : nat) (d : routeSlice) (a b pivot : Z) :
  0 <= a -> a <= pivot < b -> b <= Len d -> (Z.to_nat (Len d) < fuel)%nat ->
  exists d' mid,
    sort.partitionEqual Less Swap fuel d a b pivot = Some (d', mid)
    /\ Frame a b d d'
    /\ a < mid <= b
    /\ elt d' a = elt d pivot
    /\ (forall k, a <= k < mid -> lessInfo (elt d' a) (elt d' k) = false)
    /\ (forall k, mid <= k < b -> lessInfo (elt d' a) (elt d' k) = true).
Proof.
  intros Ha Hp Hb Hf. unfold sort.partitionEqual.
  rewrite Swap_in by lia. simpl.
  set (d0 := swp d a pivot).
  assert (Hl0 : Len d0 = Len d) by apply Len_swp.
  assert (Hf0 : Frame a b d d0) by (apply Frame_swp; lia).
  destruct (partitionEqualLoop_ok fuel fuel d0 a b (a + 1) (b - 1))
    as (d1 & i' & -> & Hfr & Hi' & [HL HR]); try lia.
  { split; intros k Hk; lia. }
  exists d1, i'. split; [reflexivity |].
  assert (Ha1 : elt d1 a = elt d pivot).
  { rewrite (Frame_outside (a + 1) b d0 d1 a Hfr) by lia.
    unfold d0. rewrite elt_swp by lia. eqb_lia; congruence. }
  split.
  { apply (Frame_trans a b d d0 d1 Hf0).
    apply (Frame_weaken a b (a + 1) b); try lia. exact Hfr. }
  split; [lia |]. split; [exact Ha1 |]. split; intros k Hk.
  - destruct (Z.eq_dec k a) as [-> | Hne]; [keys | apply HL; lia].
  - apply HR. lia.
Qed.

(** *** Heap sort *)

Lemma siftDown_ok (fuel : nat) (d : routeSlice) (root hi first lo : Z) :
  0 <= first -> 0 <= lo <= root -> first + hi <= Len d ->
  Sifting d first lo hi root ->
  (Z.to_nat (hi - root) < fuel)%nat ->
  exists d', sort.siftDown Less Swap fuel d root hi first = Some d'
             /\ Frame (first + lo) (first + Z.max lo hi) d d'
             /\ HeapFrom d' first lo hi.
Proof.
  revert d root. induction fuel as [| n IH]; intros d root Hfirst Hlo Hhi [HS1 HS2] Hf; [lia |].
  simpl. destruct (Z.leb_spec hi (2 * root + 1)) as [Hleaf | Hchild].
  - exists d. split; [reflexivity |]. split; [apply Frame_refl |].
    intros p Hp. destruct (Z.eq_dec p root) as [-> | Hne]; [| apply HS1; assumption].
    intros c Hc Hpc. lia.
  - (* the greater child *)
    assert (Hc : exists c,
               (if 2 * root + 1 + 1 <? hi
                then lt ← Less d (first + (2 * root + 1)) (first + (2 * root + 1) + 1);
                     Some (if lt : bool then 2 * root + 1 + 1 else 2 * root + 1)
                else Some (2 * root + 1)) = Some c
               /\ (c = 2 * root + 1 \/ c = 2 * root + 2) /\ c < hi
               /\ forall c', c' < hi -> c' = 2 * root + 1 \/ c' = 2 * root + 2 ->
                             lessInfo (elt d (first + c)) (elt d (first + c')) = false).
    { destruct (Z.ltb_spec (2 * root + 1 + 1) hi) as [H2 | H2].
      - rewrite Less_in by lia. simpl.
        destruct (lessInfo (elt d (first + (2 * root + 1))) (elt d (first + (2 * root + 1) + 1)))
          eqn:Hlt.
        + exists (2 * root + 1 + 1). split; [reflexivity |]. split; [lia |]. split; [lia |].
          intros c' Hc' [-> | ->].
          * replace (first + (2 * root + 1 + 1)) with (first + (2 * root + 1) + 1) by lia.
            clear -Hlt. keys.
          * replace (first + (2 * root + 1 + 1)) with (first + (2 * root + 2)) by lia. keys.
        + exists (2 * root + 1). split; [reflexivity |]. split; [lia |]. split; [lia |].
          intros c' Hc' [-> | ->]; [keys |].
          replace (first + (2 * root + 2)) with (first + (2 * root + 1) + 1) by lia.
          exact Hlt.
      - exists (2 * root + 1). split; [reflexivity |]. split; [lia |]. split; [lia |].
        intros c' Hc' [-> | ->]; [keys | lia]. }
    destruct Hc as (c & -> & Hcc & Hchi & Hmax). simpl.
    rewrite Less_in by lia. simpl.
    destruct (lessInfo (elt d (first + root)) (elt d (first + c))) eqn:Hlt; simpl.
    + rewrite Swap_in by lia. simpl.
      set (d1 := swp d (first + root) (first + c)).
      assert (Hl1 : Len d1 = Len d) by apply Len_swp.
      destruct (IH d1 c) as (d' & Hrun & Hfr & Hheap); try lia.
      * split.
        -- intros p Hp Hpc c' Hc' Hpc'. unfold d1. rewrite !elt_swp by lia.
           destruct (Z.eq_dec p root) as [-> | Hpr].
           ++ eqb_lia.
              ** clear -Hlt. keys.
              ** apply Hmax; lia.
           ++ eqb_lia.
              ** apply (HS2 p c); lia.
              ** apply HS1; lia.
        -- intros pr c' Hpr Hcpr Hc' Hcc'. unfold d1. rewrite !elt_swp by lia. eqb_lia.
           apply (HS1 c); lia.
      * exists d'. split; [exact Hrun |]. split; [| exact Hheap].
        replace (Z.max lo hi) with hi in * by lia.
        apply (Frame_trans (first + lo) (first + hi) d d1 d'); [apply Frame_swp; lia | exact Hfr].
    + exists d. split; [reflexivity |]. split; [apply Frame_refl |].
      intros p Hp. destruct (Z.eq_dec p root) as [-> | Hne]; [| apply HS1; assumption].
      intros c' Hc' Hpc'. specialize (Hmax c' Hc' Hpc'). clear -Hmax Hlt. keys.
Qed.

(** The root of a heap does not sort before any of its elements. *)
Lemma heap_max (d : routeSlice) (first hi : Z) :
  HeapFrom d first 0 hi ->
  forall k, 0 <= k < hi -> lessInfo (elt d (first + 0)) (elt d (first + k)) = false.
Proof.
  intros Hheap.
  assert (H : forall n : nat, forall k, 0 <= k < hi -> k <= Z.of_nat n ->
                lessInfo (elt d (first + 0)) (elt d (first + k)) = false).
  { induction n as [| n IH]; intros k Hk Hn.
    - replace k with 0 by lia. keys.
    - destruct (Z.eq_dec k 0) as [-> | Hk0]; [keys |].
      pose proof (IH (Z.quot (k - 1) 2)) as Hp.
      assert (Hq : k = 2 * Z.quot (k - 1) 2 + 1 \/ k = 2 * Z.quot (k - 1) 2 + 2).
      { pose proof (Z.quot_rem (k - 1) 2 ltac:(lia)) as E.
        pose proof (Z.rem_bound_pos (k - 1) 2 ltac:(lia) ltac:(lia)). lia. }
      specialize (Hp ltac:(lia) ltac:(lia)).
      pose proof (Hheap (Z.quot (k - 1) 2) ltac:(lia) k ltac:(lia) Hq) as Hc.
      clear -Hp Hc. keys. }
  intros k Hk. apply (H (Z.to_nat k)); lia.
Qed.

Lemma heapBuild_ok (fuel0 fuel : nat) (d : routeSlice) (i hi first : Z) :
  0 <= first -> 0 <= hi -> first + hi <= Len d -> -1 <= i <= hi ->
  HeapFrom d first (i + 1) hi ->
  (Z.to_nat (Len d) < fuel0)%nat -> (Z.to_nat (i + 1) < fuel)%nat ->
  exists d', sort.heapBuild Less Swap fuel0 fuel d i hi first = Some d'
             /\ Frame first (first + hi) d d'
             /\ HeapFrom d' first 0 hi.
Proof.
  revert d i. induction fuel as [| n IH]; intros d i Hfirst Hhi Hlen Hi Hheap Hf0 Hf; [lia |].
  simpl. destruct (Z.leb_spec 0 i) as [Hge | Hlt].
  - destruct (siftDown_ok fuel0 d i hi first i) as (d1 & -> & Hfr1 & Hh1); try lia.
    { split.
      - intros p Hp Hne. apply Hheap. lia.
      - intros pr c Hpr Hroot. lia. }
    simpl. pose proof (Frame_Len _ _ _ _ Hfr1) as Hl1.
    destruct (IH d1 (i - 1)) as (d' & Hrun & Hfr & Hh'); try lia.
    { replace (i - 1 + 1) with i by lia. exact Hh1. }
    exists d'. split; [exact Hrun |]. split; [| exact Hh'].
    apply (Frame_trans first (first + hi) d d1 d'); [| exact Hfr].
    apply (Frame_weaken first (first + hi) (first + i) (first + Z.max i hi)); try lia.
    exact Hfr1.
  - exists d. split; [reflexivity |]. split; [apply Frame_refl |].
    replace (i + 1) with 0 in Hheap by lia. exact Hheap.
Qed.

Lemma heapPop_ok (fuel0 fuel : nat) (d : routeSlice) (i hi first : Z) :
  0 <= first -> first + hi <= Len d -> -1 <= i < hi ->
  Popping d first hi i ->
  (Z.to_nat (Len d) < fuel0)%nat -> (Z.to_nat (i + 1) < fuel)%nat ->
  exists d', sort.heapPop Less Swap fuel0 fuel d i 0 first = Some d'
             /\ Frame first (first + hi) d d'
             /\ SortedSeg d' first (first + hi).
Proof.
  revert d i. induction fuel as [| n IH]; intros d i Hfirst Hlen Hi (Hheap & Hsorted & Hle) Hf0 Hf;
    [lia |].
  simpl. destruct (Z.leb_spec 0 i) as [Hge | Hlt].
  - rewrite Swap_in by lia. simpl.
    set (d1 := swp d first (first + i)).
    assert (Hl1 : Len d1 = Len d) by apply Len_swp.
    assert (Hfs : Frame first (first + hi) d d1) by (apply Frame_swp; lia).
    destruct (siftDown_ok fuel0 d1 0 i first 0) as (d2 & -> & Hfr2 & Hh2); try lia.
    { split.
      - intros p Hp Hne c Hc Hpc. unfold d1. rewrite !elt_swp by lia. eqb_lia.
        apply (Hheap p); lia.
      - intros pr c Hpr Hroot. lia. }
    simpl. replace (Z.max 0 i) with i in Hfr2 by lia. replace (first + 0) with first in Hfr2 by lia.
    pose proof (Frame_Len _ _ _ _ Hfr2) as Hl2.
    assert (Hmax : forall k, 0 <= k <= i ->
                     lessInfo (elt d (first + 0)) (elt d (first + k)) = false).
    { intros k Hk. apply (heap_max d first (i + 1) Hheap). lia. }
    (* the elements from [i] on in [d2] *)
    assert (Hat : forall y, i <= y < hi ->
                    elt d2 (first + y) = if y =? i then elt d (first + 0) else elt d (first + y)).
    { intros y Hy. rewrite (Frame_outside first (first + i) d1 d2 _ Hfr2) by lia.
      unfold d1. rewrite elt_swp by lia. replace (first + 0) with first by lia.
      eqb_lia; try reflexivity. }
    (* no element of the heap in [d2] sorts after them *)
    assert (Hbelow : forall x y, 0 <= x < i -> i <= y < hi ->
                       lessInfo (elt d2 (first + y)) (elt d2 (first + x)) = false).
    { intros x y Hx Hy.
      apply (Frame_inside first (first + i) d1 d2
               (fun e => lessInfo (elt d2 (first + y)) e = false) Hfr2); [| lia].
      intros k Hk. rewrite (Hat y Hy). unfold d1. rewrite elt_swp by lia.
      destruct (Z.eqb_spec y i) as [-> | Hyi].
      - eqb_lia.
        + apply (Hmax i). lia.
        + replace k with (first + (k - first)) by lia. apply Hmax. lia.
      - eqb_lia.
        + apply (Hle i y); lia.
        + replace k with (first + (k - first)) by lia. apply (Hle (k - first) y); lia. }
    destruct (IH d2 (i - 1)) as (d' & Hrun & Hfr & Hs'); try lia.
    { split; [replace (i - 1 + 1) with i by lia; exact Hh2 |]. split.
      - replace (first + (i - 1) + 1) with (first + i) by lia.
        intros x y Hx Hxy Hy.
        replace x with (first + (x - first)) by lia. replace y with (first + (y - first)) by lia.
        rewrite !Hat by lia.
        destruct (Z.eqb_spec (y - first) i); [lia |].
        destruct (Z.eqb_spec (x - first) i) as [E | E].
        + apply (Hle 0 (y - first)); lia.
        + replace (first + (y - first)) with y by lia.
          replace (first + (x - first)) with x by lia. apply Hsorted; lia.
      - intros x y Hx Hy. apply Hbelow; lia. }
    exists d'. split; [exact Hrun |]. split; [| exact Hs'].
    apply (Frame_trans first (first + hi) d d1 d' Hfs).
    apply (Frame_trans first (first + hi) d1 d2 d'); [| exact Hfr].
    apply (Frame_weaken first (first + hi) first (first + i)); try lia. exact Hfr2.
  - exists d. split; [reflexivity |]. split; [apply Frame_refl |].
    replace (first + i + 1) with first in Hsorted by lia. exact Hsorted.
Qed.

Lemma heapSort_ok (fuel : nat) (d : routeSlice) (a b : Z) :
  0 <= a <= b -> b <= Len d -> (Z.to_nat (Len d) + 1 < fuel)%nat ->
  exists d', sort.heapSort Less Swap fuel d a b = Some d'
             /\ Frame a b d d' /\ SortedSeg d' a b.
Proof.
  intros Ha Hb Hf. unfold sort.heapSort.
  assert (Hq : -1 <= Z.quot (b - a - 1) 2 <= b - a /\ b - a <= 2 * Z.quot (b - a - 1) 2 + 3).
  { pose proof (Z.quot_rem (b - a - 1) 2 ltac:(lia)) as E1.
    destruct (Z.eq_dec (b - a) 0) as [E | E].
    - replace (b - a - 1) with (-1) by lia. change (Z.quot (-1) 2) with 0. lia.
    - pose proof (Z.rem_bound_pos (b - a - 1) 2 ltac:(lia) ltac:(lia)). lia. }
  destruct (heapBuild_ok fuel fuel d (Z.quot (b - a - 1) 2) (b - a) a)
    as (d1 & -> & Hfr1 & Hh1); try lia.
  { intros p Hp c Hc Hpc. lia. }
  simpl. pose proof (Frame_Len _ _ _ _ Hfr1) as Hl1.
  replace (a + (b - a)) with b in Hfr1 by lia.
  destruct (heapPop_ok fuel fuel d1 (b - a - 1) (b - a) a) as (d' & -> & Hfr & Hs); try lia.
  { split; [replace (b - a - 1 + 1) with (b - a) by lia; exact Hh1 |].
    split; [intros x y Hx Hxy Hy; lia | intros x y Hx Hy; lia]. }
  replace (a + (b - a)) with b in * by lia.
  exists d'. split; [reflexivity |]. split; [| exact Hs].
  apply (Frame_trans a b d d1 d' Hfr1 Hfr).
Qed.

(** *** The steps of [pdqsort] around the partitions *)

Lemma reverseLoop_ok (fuel : nat) (d : routeSlice) (a b i j : Z) :
  0 <= a -> b <= Len d -> a <= i -> j < b -> i <= j + 1 ->
  (Z.to_nat (j + 1 - i) < fuel)%nat ->
  exists d', sort.reverseLoop Swap fuel d i j = Some d' /\ Frame a b d d'.
Proof.
  revert d i j. induction fuel as [| n IH]; intros d i j Ha Hb Hi Hj Hij Hf; [lia |].
  simpl. destruct (Z.ltb_spec i j) as [Hlt | Hge].
  - rewrite Swap_in by lia. simpl.
    destruct (IH (swp d i j) (i + 1) (j - 1)) as (d' & Hrun & Hfr);
      try lia; try (rewrite Len_swp; lia).
    exists d'. split; [exact Hrun |].
    apply (Frame_trans a b d (swp d i j) d'); [apply Frame_swp; lia | exact Hfr].
  - exists d. split; [reflexivity | apply Frame_refl].
Qed.

Lemma reverseRange_ok (fuel : nat) (d : routeSlice) (a b : Z) :
  0 <= a <= b -> b <= Len d -> (Z.to_nat (Len d) < fuel)%nat ->
  exists d', sort.reverseRange Swap fuel d a b = Some d' /\ Frame a b d d'.
Proof.
  intros Ha Hb Hf. unfold sort.reverseRange. apply reverseLoop_ok; lia.
Qed.

Lemma order2_ok (d : routeSlice) (a b swaps : Z) :
  0 <= a < Len d -> 0 <= b < Len d ->
  exists x y s, sort.order2 Less d a b swaps = Some (x, y, s)
                /\ ((x = a /\ y = b) \/ (x = b /\ y = a)).
Proof.
  intros Ha Hb. unfold sort.order2. rewrite Less_in by lia. simpl.
  destruct (lessInfo (elt d b) (elt d a)); eauto 10.
Qed.

Lemma median_ok (d : routeSlice) (a b c swaps : Z) :
  0 <= a < Len d -> 0 <= b < Len d -> 0 <= c < Len d ->
  exists m s, sort.median Less d a b c swaps = Some (m, s) /\ (m = a \/ m = b \/ m = c).
Proof.
  intros Ha Hb Hc. unfold sort.median.
  destruct (order2_ok d a b swaps Ha Hb) as (x1 & y1 & s1 & -> & H1). simpl.
  destruct (order2_ok d y1 c s1) as (x2 & y2 & s2 & -> & H2); try lia. simpl.
  destruct (order2_ok d x1 x2 s2) as (x3 & y3 & s3 & -> & H3); try lia. simpl.
  exists y3, s3. split; [reflexivity | lia].
Qed.

Lemma choosePivot_ok (d : routeSlice) (a b : Z) :
  0 <= a -> b <= Len d -> 8 <= b - a ->
  exists pivot hint, sort.choosePivot Less d a b = Some (pivot, hint) /\ a <= pivot < b.
Proof.
  intros Ha Hb Hl. unfold sort.choosePivot.
  pose proof (Z.quot_rem (b - a) 4 ltac:(lia)) as Eq.
  pose proof (Z.rem_bound_pos (b - a) 4 ltac:(lia) ltac:(lia)) as Er.
  set (q := Z.quot (b - a) 4) in *.
  destruct (Z.leb_spec 8 (b - a)) as [_ | ?]; [| lia].
  destruct (Z.leb_spec 50 (b - a)) as [H50 | H50].
  - unfold sort.medianAdjacent.
    destruct (median_ok d (a + q * 1 - 1) (a + q * 1) (a + q * 1 + 1) 0)
      as (i & s1 & -> & Hi); try lia. simpl.
    destruct (median_ok d (a + q * 2 - 1) (a + q * 2) (a + q * 2 + 1) s1)
      as (j & s2 & -> & Hj); try lia. simpl.
    destruct (median_ok d (a + q * 3 - 1) (a + q * 3) (a + q * 3 + 1) s2)
      as (k & s3 & -> & Hk); try lia. simpl.
    destruct (median_ok d i j k s3) as (m & s4 & -> & Hm); try lia. simpl.
    eexists _, _. split; [reflexivity | lia].
  - simpl.
    destruct (median_ok d (a + q * 1) (a + q * 2) (a + q * 3) 0)
      as (m & s4 & -> & Hm); try lia. simpl.
    eexists _, _. split; [reflexivity | lia].
Qed.

Lemma nextPowerOfTwo_bound (length : Z) :
  0 < length ->
  exists n, 0 <= n /\ sort.nextPowerOfTwo length = 2 ^ n /\ 2 ^ n <= 2 * length.
Proof.
  intros H. unfold sort.nextPowerOfTwo, sort.bitsLen.
  destruct (Z.leb_spec length 0); [lia |].
  pose proof (Z.log2_nonneg length). pose proof (Z.log2_spec length H) as [Hlo _].
  exists (Z.log2 length + 1). split; [lia |]. split; [apply Z.shiftl_1_l |].
  rewrite Z.pow_add_r by lia. change (2 ^ 1) with 2. lia.
Qed.

Lemma breakLoop_ok (next : Z -> Z) (rounds : nat) (d : routeSlice)
    (a b modulus idx i random n : Z) :
  0 <= a -> b <= Len d -> 0 < b - a ->
  0 <= n -> modulus = 2 ^ n -> 2 ^ n <= 2 * (b - a) ->
  0 <= i -> a <= idx - 1 + i -> idx - 1 + i + Z.of_nat rounds <= b ->
  exists d', sort.breakLoop Swap next rounds d a (b - a) modulus idx i random = Some d'
             /\ Frame a b d d'.
Proof.
  revert d i random. induction rounds as [| k IH]; intros d i random Ha Hb Hl Hn Hm Hp Hi Hlo Hhi.
  - exists d. split; [reflexivity | apply Frame_refl].
  - simpl.
    assert (Hother : 0 <= Z.land (next random) (modulus - 1) < 2 ^ n).
    { subst modulus. replace (2 ^ n - 1) with (Z.ones n) by (rewrite Z.ones_equiv; lia).
      rewrite Z.land_ones by lia. apply Z.mod_pos_bound. lia. }
    set (other := Z.land (next random) (modulus - 1)) in *.
    set (other' := if b - a <=? other then other - (b - a) else other).
    assert (Ho' : 0 <= other' < b - a).
    { unfold other'. destruct (Z.leb_spec (b - a) other); lia. }
    rewrite Swap_in by lia. simpl.
    destruct (IH (swp d (idx - 1 + i) (a + other')) (i + 1) (next random))
      as (d' & Hrun & Hfr); try lia; try (rewrite Len_swp; lia).
    exists d'. split; [exact Hrun |].
    apply (Frame_trans a b d (swp d (idx - 1 + i) (a + other')) d');
      [apply Frame_swp; lia | exact Hfr].
Qed.

Lemma breakPatterns_ok (next : Z -> Z) (d : routeSlice) (a b : Z) :
  0 <= a <= b -> b <= Len d ->
  exists d', sort.breakPatterns Swap next d a b = Some d' /\ Frame a b d d'.
Proof.
  intros Ha Hb. unfold sort.breakPatterns.
  destruct (Z.leb_spec 8 (b - a)) as [H8 | H8].
  - destruct (nextPowerOfTwo_bound (b - a)) as (n & Hn & -> & Hp); [lia |].
    pose proof (Z.quot_rem (b - a) 4 ltac:(lia)) as Eq.
    pose proof (Z.rem_bound_pos (b - a) 4 ltac:(lia) ltac:(lia)) as Er.
    apply (breakLoop_ok next 3 d a b (2 ^ n) _ 0 (b - a) n); try lia.
  - exists d. split; [reflexivity | apply Frame_refl].
Qed.

Lemma Above_Frame (a b a' b' : Z) (d d' : routeSlice) :
  0 <= a -> a <= a' -> b' <= b -> b <= Len d -> Frame a' b' d d' -> Above d a b -> Above d' a b.
Proof.
  intros Ha Ha' Hb' Hb Hfr Hab H1 k Hk.
  assert (Hfr' : Frame a b d d') by (apply (Frame_weaken a b a' b'); try lia; exact Hfr).
  rewrite (Frame_outside a b d d' (a - 1) Hfr') by lia.
  apply (Frame_inside a b d d' (fun e => lessInfo e (elt d (a - 1)) = false) Hfr'); [| lia].
  intros k' Hk'. apply Hab; lia.
Qed.

Lemma Above_sub (d : routeSlice) (a b b' : Z) : b' <= b -> Above d a b -> Above d a b'.
Proof. intros Hb H H1 k Hk. apply H; lia. Qed.

Lemma SortedSeg_Frame_outside (a b x y : Z) (d d' : routeSlice) :
  0 <= x -> y <= Len d -> Frame a b d d' -> y <= a \/ b <= x ->
  SortedSeg d x y -> SortedSeg d' x y.
Proof.
  intros Hx Hy Hfr Hout Hs i j Hi Hij Hj.
  rewrite !(Frame_outside a b d d' _ Hfr) by lia. apply Hs; lia.
Qed.

(** Under [Above], the loop that shifts the smaller element to the left is
    the inner loop of the insertion sort. *)
Lemma shiftLeft_insertDown (fuel : nat) (d : routeSlice) (a j : Z) :
  0 <= a <= j -> j < Len d -> Above d a (j + 1) ->
  sort.shiftLeft Less Swap fuel d j = sort.insertDown Less Swap fuel d a j.
Proof.
  revert d j. induction fuel as [| n IH]; intros d j Ha Hj Hab; [reflexivity |].
  simpl. destruct (Z.ltb_spec a j) as [Haj | Haj].
  - destruct (Z.leb_spec 1 j); [| lia].
    rewrite Less_in by lia. simpl.
    destruct (lessInfo (elt d j) (elt d (j - 1))) eqn:Hlt; simpl; [| reflexivity].
    rewrite Swap_in by lia. simpl.
    apply IH; try lia; [rewrite Len_swp; lia |].
    replace (j - 1 + 1) with j by lia.
    apply (Above_sub _ a (j + 1) j); [lia |].
    apply (Above_Frame a (j + 1) a (j + 1) d); try lia; [| exact Hab].
    apply Frame_swp; lia.
  - destruct (Z.leb_spec 1 j) as [H1 | H1]; [| reflexivity].
    rewrite Less_in by lia. simpl.
    assert (j = a) by lia. subst j. rewrite (Hab H1 a) by lia. reflexivity.
Qed.

Lemma shiftRight_ok (fuel : nat) (d : routeSlice) (b j : Z) :
  1 <= j -> b <= Len d -> (Z.to_nat (b - j) < fuel)%nat ->
  exists d', sort.shiftRight Less Swap fuel d b j = Some d' /\ Frame (j - 1) (Z.max b j) d d'.
Proof.
  revert d j. induction fuel as [| n IH]; intros d j Hj Hb Hf; [lia |].
  simpl. destruct (Z.ltb_spec j b) as [Hlt | Hge].
  - rewrite Less_in by lia. simpl.
    destruct (lessInfo (elt d j) (elt d (j - 1))); simpl.
    + rewrite Swap_in by lia. simpl.
      destruct (IH (swp d j (j - 1)) (j + 1)) as (d' & Hrun & Hfr);
        try lia; try (rewrite Len_swp; lia).
      exists d'. split; [exact Hrun |].
      replace (Z.max b j) with b by lia. replace (Z.max b (j + 1)) with b in Hfr by lia.
      apply (Frame_trans (j - 1) b d (swp d j (j - 1)) d'); [apply Frame_swp; lia |].
      apply (Frame_weaken (j - 1) b (j + 1 - 1) b); try lia; [rewrite Len_swp; lia | exact Hfr].
    + exists d. split; [reflexivity | apply Frame_refl].
  - exists d. split; [reflexivity | apply Frame_refl].
Qed.

Lemma skipOrdered_ok (fuel : nat) (d : routeSlice) (a b i : Z) :
  0 <= a -> a < i <= b -> b <= Len d -> SortedSeg d a i ->
  (Z.to_nat (b - i) < fuel)%nat ->
  exists i', sort.skipOrdered Less fuel d b i = Some i'
             /\ i <= i' <= b /\ SortedSeg d a i'.
Proof.
  revert i. induction fuel as [| n IH]; intros i Ha Hi Hb Hs Hf; [lia |].
  simpl. destruct (Z.ltb_spec i b) as [Hlt | Hge].
  - rewrite Less_in by lia. simpl.
    destruct (lessInfo (elt d i) (elt d (i - 1))) eqn:Hless; simpl.
    + exists i. split; [reflexivity |]. split; [lia | exact Hs].
    + destruct (IH (i + 1)) as (i' & -> & Hi' & Hs'); try lia.
      * intros x y Hx Hxy Hy.
        destruct (Z.eq_dec y i) as [-> | Hyi]; [| apply Hs; lia].
        destruct (Z.eq_dec x (i - 1)) as [-> | Hxi]; [exact Hless |].
        pose proof (Hs x (i - 1) Hx ltac:(lia) ltac:(lia)) as H1. keys.
      * exists i'. split; [reflexivity |]. split; [lia | exact Hs'].
  - exists i. split; [reflexivity |]. split; [lia | exact Hs].
Qed.

Lemma partialInsertionLoop_ok (steps fuel : nat) (d : routeSlice) (a b i : Z) :
  0 <= a -> a < i <= b -> b <= Len d -> Above d a b -> SortedSeg d a i ->
  (Z.to_nat (Len d) < fuel)%nat ->
  exists d' s, sort.partialInsertionLoop Less Swap steps fuel d a b i = Some (d', s)
               /\ Frame a b d d'
               /\ (s = true -> SortedSeg d' a b).
Proof.
  revert d i. induction steps as [| n IH]; intros d i Ha Hi Hb Hab Hs Hf.
  - exists d, false. split; [reflexivity |]. split; [apply Frame_refl | discriminate].
  - simpl.
    destruct (skipOrdered_ok fuel d a b i) as (i1 & -> & Hi1 & Hs1); try lia; [exact Hs |].
    simpl. destruct (Z.eqb_spec i1 b) as [-> | Hne].
    { exists d, true. split; [reflexivity |]. split; [apply Frame_refl | auto]. }
    destruct (Z.ltb_spec (b - a) 50) as [Hshort | Hlong].
    { exists d, false. split; [reflexivity |]. split; [apply Frame_refl | discriminate]. }
    rewrite Swap_in by lia. simpl.
    set (d1 := swp d i1 (i1 - 1)).
    assert (Hl1 : Len d1 = Len d) by apply Len_swp.
    assert (Hf1 : Frame a b d d1) by (apply Frame_swp; lia).
    assert (Hs1' : SortedSeg d1 a (i1 - 1)).
    { intros x y Hx Hxy Hy. unfold d1. rewrite !elt_swp by lia. eqb_lia. apply Hs1; lia. }
    (* the smaller element goes to the left *)
    assert (Hleft : exists d2,
               (if 2 <=? i1 - a then sort.shiftLeft Less Swap fuel d1 (i1 - 1) else Some d1)
               = Some d2 /\ Frame a i1 d1 d2 /\ SortedSeg d2 a i1).
    { destruct (Z.leb_spec 2 (i1 - a)) as [H2 | H2].
      - rewrite (shiftLeft_insertDown fuel d1 a (i1 - 1)); try lia.
        + destruct (insertDown_ok fuel d1 a (i1 - 1)) as (d2 & -> & Hfr2 & Hs2); try lia.
          replace (i1 - 1 + 1) with i1 in * by lia.
          exists d2. auto.
        + replace (i1 - 1 + 1) with i1 by lia.
          apply (Above_sub _ a b i1); [lia |].
          apply (Above_Frame a b a b d); try lia; assumption.
      - exists d1. split; [reflexivity |]. split; [apply Frame_refl |].
        intros x y Hx Hxy Hy. lia. }
    destruct Hleft as (d2 & -> & Hf2 & Hs2). simpl.
    pose proof (Frame_Len _ _ _ _ Hf2) as Hl2.
    (* the greater one to the right *)
    assert (Hright : exists d3,
               (if 2 <=? b - i1 then sort.shiftRight Less Swap fuel d2 b (i1 + 1) else Some d2)
               = Some d3 /\ Frame i1 b d2 d3).
    { destruct (Z.leb_spec 2 (b - i1)) as [H2 | H2].
      - destruct (shiftRight_ok fuel d2 b (i1 + 1)) as (d3 & -> & Hfr3); try lia.
        replace (i1 + 1 - 1) with i1 in Hfr3 by lia.
        replace (Z.max b (i1 + 1)) with b in Hfr3 by lia.
        exists d3. auto.
      - exists d2. split; [reflexivity | apply Frame_refl]. }
    destruct Hright as (d3 & -> & Hf3). simpl.
    pose proof (Frame_Len _ _ _ _ Hf3) as Hl3.
    assert (Hf13 : Frame a b d d3).
    { apply (Frame_trans a b d d1 d3 Hf1).
      apply (Frame_trans a b d1 d2 d3).
      - apply (Frame_weaken a b a i1); try lia. exact Hf2.
      - apply (Frame_weaken a b i1 b); try lia. exact Hf3. }
    destruct (IH d3 i1) as (d' & s & Hrun & Hfr & Hsorted); try lia.
    + apply (Above_Frame a b a b d); try lia; assumption.
    + apply (SortedSeg_Frame_outside i1 b a i1 d2 d3); try lia; assumption.
    + exists d', s. split; [exact Hrun |]. split; [| exact Hsorted].
      apply (Frame_trans a b d d3 d' Hf13 Hfr).
Qed.

Lemma partialInsertionSort_ok (fuel : nat) (d : routeSlice) (a b : Z) :
  0 <= a -> a < b -> b <= Len d -> Above d a b -> (Z.to_nat (Len d) < fuel)%nat ->
  exists d' s, sort.partialInsertionSort Less Swap fuel d a b = Some (d', s)
               /\ Frame a b d d'
               /\ (s = true -> SortedSeg d' a b).
Proof.
  intros Ha Hab Hb Habove Hf. unfold sort.partialInsertionSort.
  apply partialInsertionLoop_ok; try lia; [exact Habove |].
  intros x y Hx Hxy Hy. lia.
Qed.

(** *** The loop of [pdqsort] *)

Lemma Split_Frame_left (d d' : routeSlice) (a b mid : Z) :
  0 <= a -> a <= mid < b -> b <= Len d ->
  Frame a mid d d' -> Split d a b mid -> Split d' a b mid.
Proof.
  intros Ha Hm Hb Hfr [HL HR]. split; intros k Hk.
  - rewrite (Frame_outside a mid d d' mid Hfr) by lia.
    apply (Frame_inside a mid d d' (fun e => lessInfo e (elt d mid) = true) Hfr); [| lia].
    intros k' Hk'. apply HL. lia.
  - rewrite !(Frame_outside a mid d d' _ Hfr) by lia. apply HR. lia.
Qed.

Lemma Split_Frame_right (d d' : routeSlice) (a b mid : Z) :
  0 <= a -> a <= mid < b -> b <= Len d ->
  Frame (mid + 1) b d d' -> Split d a b mid -> Split d' a b mid.
Proof.
  intros Ha Hm Hb Hfr [HL HR]. split; intros k Hk.
  - rewrite !(Frame_outside (mid + 1) b d d' _ Hfr) by lia. apply HL. lia.
  - rewrite (Frame_outside (mid + 1) b d d' mid Hfr) by lia.
    apply (Frame_inside (mid + 1) b d d' (fun e => lessInfo e (elt d mid) = false) Hfr); [| lia].
    intros k' Hk'. apply HR. lia.
Qed.

(** Two sorted halves around the pivot make a sorted slice. *)
Lemma Split_sorted (d : routeSlice) (a b mid : Z) :
  a <= mid < b -> Split d a b mid ->
  SortedSeg d a mid -> SortedSeg d (mid + 1) b -> SortedSeg d a b.
Proof.
  intros Hm [HL HR] Hs1 Hs2 x y Hx Hxy Hy.
  destruct (Z_lt_ge_dec y mid) as [Hym | Hym]; [apply Hs1; lia |].
  destruct (Z_lt_ge_dec mid x) as [Hxm | Hxm]; [apply Hs2; lia |].
  destruct (Z.eq_dec y mid) as [-> | Hne].
  - pose proof (HL x ltac:(lia)). keys.
  - destruct (Z.eq_dec x mid) as [-> | Hne'].
    + apply HR. lia.
    + pose proof (HL x ltac:(lia)). pose proof (HR y ltac:(lia)). keys.
Qed.

Lemma Split_Above (d : routeSlice) (a b mid : Z) :
  Split d a b mid -> Above d (mid + 1) b.
Proof.
  intros [_ HR] _ k Hk. replace (mid + 1 - 1) with mid by lia. apply HR. lia.
Qed.

Lemma pdqsortLoop_ok (next : Z -> Z) (fuel0 fuel : nat) (d : routeSlice) (a b limit : Z)
    (wasBalanced wasPartitioned : bool) :
  0 <= a <= b -> b <= Len d -> Above d a b ->
  (Z.to_nat (Len d) + 1 < fuel0)%nat -> (Z.to_nat (b - a) < fuel)%nat ->
  exists d', sort.pdqsortLoop Less Swap next fuel0 fuel d a b limit
                              wasBalanced wasPartitioned = Some d'
             /\ Frame a b d d' /\ SortedSeg d' a b.
Proof.
  revert d a b limit wasBalanced wasPartitioned.
  induction fuel as [| n IH]; intros d a b limit wb wp Ha Hb Hab Hf0 Hf; [lia |].
  simpl. destruct (Z.leb_spec (b - a) 12) as [Hsmall | Hbig].
  { apply insertionSort_ok; lia. }
  destruct (Z.eqb_spec limit 0) as [Hlim | Hlim].
  { apply heapSort_ok; lia. }
  (* breakPatterns *)
  assert (H1 : exists d1 limit1,
             (if negb wb
              then data ← sort.breakPatterns Swap next d a b; Some (data, limit - 1)
              else Some (d, limit)) = Some (d1, limit1) /\ Frame a b d d1).
  { destruct wb; simpl.
    - exists d, limit. split; [reflexivity | apply Frame_refl].
    - destruct (breakPatterns_ok next d a b) as (d1 & -> & Hfr); try lia.
      exists d1, (limit - 1). auto. }
  destruct H1 as (d1 & limit1 & -> & Hf1). simpl.
  pose proof (Frame_Len _ _ _ _ Hf1) as Hl1.
  destruct (choosePivot_ok d1 a b) as (pivot & hint & -> & Hp); try lia. simpl.
  (* reverseRange *)
  assert (H2 : exists d2 pivot2 hint2,
             (if sort.isDecreasing hint
              then data ← sort.reverseRange Swap fuel0 d1 a b;
                   Some (data, b - 1 - (pivot - a), sort.increasingHint)
              else Some (d1, pivot, hint)) = Some (d2, pivot2, hint2)
             /\ Frame a b d1 d2 /\ a <= pivot2 < b).
  { destruct (sort.isDecreasing hint).
    - destruct (reverseRange_ok fuel0 d1 a b) as (d2 & -> & Hfr); try lia.
      exists d2, (b - 1 - (pivot - a)), sort.increasingHint. simpl.
      split; [reflexivity |]. split; [exact Hfr | lia].
    - exists d1, pivot, hint. split; [reflexivity |]. split; [apply Frame_refl | lia]. }
  destruct H2 as (d2 & pivot2 & hint2 & -> & Hf2 & Hp2). simpl.
  pose proof (Frame_Len _ _ _ _ Hf2) as Hl2.
  assert (Hf12 : Frame a b d d2) by (apply (Frame_trans a b d d1 d2); assumption).
  assert (Hab2 : Above d2 a b) by (apply (Above_Frame a b a b d); try lia; assumption).
  (* partialInsertionSort *)
  assert (H3 : exists d3 sorted,
             (if wb && wp && sort.isIncreasing hint2
              then sort.partialInsertionSort Less Swap fuel0 d2 a b
              else Some (d2, false)) = Some (d3, sorted)
             /\ Frame a b d2 d3 /\ (sorted = true -> SortedSeg d3 a b)).
  { destruct (wb && wp && sort.isIncreasing hint2).
    - apply partialInsertionSort_ok; try lia. exact Hab2.
    - exists d2, false. split; [reflexivity |]. split; [apply Frame_refl | discriminate]. }
  destruct H3 as (d3 & sorted & -> & Hf3 & Hsorted). simpl.
  pose proof (Frame_Len _ _ _ _ Hf3) as Hl3.
  assert (Hf13 : Frame a b d d3) by (apply (Frame_trans a b d d2 d3); assumption).
  assert (Hab3 : Above d3 a b) by (apply (Above_Frame a b a b d); try lia; assumption).
  destruct sorted.
  { exists d3. split; [reflexivity |]. split; [exact Hf13 | apply Hsorted; reflexivity]. }
  (* many equal elements? *)
  assert (H4 : exists dup,
             (if 0 <? a then lt ← Less d3 (a - 1) pivot2; Some (negb lt) else Some false)
             = Some dup
             /\ (dup = true -> 1 <= a
                 /\ lessInfo (elt d3 (a - 1)) (elt d3 pivot2) = false)).
  { destruct (Z.ltb_spec 0 a) as [Hpos | Hzero].
    - rewrite Less_in by lia. simpl. eexists. split; [reflexivity |].
      intros Hd. apply negb_true_iff in Hd. split; [lia | exact Hd].
    - exists false. split; [reflexivity | discriminate]. }
  destruct H4 as (dup & -> & Hdup). simpl. destruct dup.
  - destruct (Hdup eq_refl) as [Ha1 Hge]. clear Hdup.
    destruct (partitionEqual_ok fuel0 d3 a b pivot2) as (d4 & mid & -> & Hf4 & Hmid & Hpa & HL & HR);
      try lia.
    simpl. pose proof (Frame_Len _ _ _ _ Hf4) as Hl4.
    assert (Hf14 : Frame a b d d4) by (apply (Frame_trans a b d d3 d4); assumption).
    (* no element of the slice sorts before the pivot *)
    assert (Hlow : forall k, a <= k < b -> lessInfo (elt d4 k) (elt d4 a) = false).
    { rewrite Hpa.
      apply (Frame_inside a b d3 d4 (fun e => lessInfo e (elt d3 pivot2) = false) Hf4).
      intros k Hk. pose proof (Hab3 Ha1 k Hk). clear -H Hge. keys. }
    destruct (IH d4 mid b limit1 wb wp) as (d5 & Hrun & Hf5 & Hs5); try lia.
    { intros H1m k Hk. pose proof (HR k Hk). pose proof (HL (mid - 1) ltac:(lia)).
      clear -H H0. keys. }
    exists d5. split; [exact Hrun |]. split.
    + apply (Frame_trans a b d d4 d5 Hf14).
      apply (Frame_weaken a b mid b); try lia. exact Hf5.
    + intros x y Hx Hxy Hy.
      destruct (Z_lt_ge_dec x mid) as [Hxm | Hxm]; [| apply Hs5; lia].
      rewrite (Frame_outside mid b d4 d5 x Hf5) by lia.
      destruct (Z_lt_ge_dec y mid) as [Hym | Hym].
      * rewrite (Frame_outside mid b d4 d5 y Hf5) by lia.
        pose proof (HL x ltac:(lia)). pose proof (Hlow y ltac:(lia)). clear -H H0. keys.
      * apply (Frame_inside mid b d4 d5 (fun e => lessInfo e (elt d4 x) = false) Hf5); [| lia].
        intros k Hk. pose proof (HL x ltac:(lia)). pose proof (HR k Hk). clear -H H0. keys.
  - clear Hdup.
    destruct (partition_ok fuel0 d3 a b pivot2) as (d4 & mid & ap & -> & Hf4 & Hmid & HL & HR);
      try lia.
    simpl. pose proof (Frame_Len _ _ _ _ Hf4) as Hl4.
    assert (Hf14 : Frame a b d d4) by (apply (Frame_trans a b d d3 d4); assumption).
    assert (Hab4 : Above d4 a b) by (apply (Above_Frame a b a b d); try lia; assumption).
    assert (Hsplit : Split d4 a b mid) by (split; assumption).
    destruct (Z.ltb_spec (mid - a) (b - mid)) as [Hleft | Hright].
    + destruct (IH d4 a mid limit1 true true) as (d5 & -> & Hf5 & Hs5); try lia.
      { apply (Above_sub _ a b mid); [lia | exact Hab4]. }
      simpl. pose proof (Frame_Len _ _ _ _ Hf5) as Hl5.
      assert (Hsplit5 : Split d5 a b mid)
        by (apply (Split_Frame_left d4 d5); try lia; assumption).
      destruct (IH d5 (mid + 1) b limit1 (Z.quot (b - a) 8 <=? mid - a) ap)
        as (d6 & Hrun & Hf6 & Hs6); try lia.
      { apply (Split_Above d5 a b mid Hsplit5). }
      exists d6. split; [exact Hrun |]. split.
      * apply (Frame_trans a b d d4 d6 Hf14). apply (Frame_trans a b d4 d5 d6).
        -- apply (Frame_weaken a b a mid); try lia. exact Hf5.
        -- apply (Frame_weaken a b (mid + 1) b); try lia. exact Hf6.
      * apply (Split_sorted d6 a b mid); try lia.
        -- apply (Split_Frame_right d5 d6); try lia; assumption.
        -- apply (SortedSeg_Frame_outside (mid + 1) b a mid d5 d6); try lia; assumption.
        -- exact Hs6.
    + destruct (IH d4 (mid + 1) b limit1 true true) as (d5 & -> & Hf5 & Hs5); try lia.
      { apply (Split_Above d4 a b mid Hsplit). }
      simpl. pose proof (Frame_Len _ _ _ _ Hf5) as Hl5.
      assert (Hsplit5 : Split d5 a b mid)
        by (apply (Split_Frame_right d4 d5); try lia; assumption).
      destruct (IH d5 a mid limit1 (Z.quot (b - a) 8 <=? b - mid) ap)
        as (d6 & Hrun & Hf6 & Hs6); try lia.
      { apply (Above_sub _ a b mid); [lia |].
        apply (Above_Frame a b (mid + 1) b d4); try lia; assumption. }
      exists d6. split; [exact Hrun |]. split.
      * apply (Frame_trans a b d d4 d6 Hf14). apply (Frame_trans a b d4 d5 d6).
        -- apply (Frame_weaken a b (mid + 1) b); try lia. exact Hf5.
        -- apply (Frame_weaken a b a mid); try lia. exact Hf6.
      * apply (Split_sorted d6 a b mid); try lia.
        -- apply (Split_Frame_left d5 d6); try lia; assumption.
        -- exact Hs6.
        -- apply (SortedSeg_Frame_outside a mid (mid + 1) b d5 d6); try lia; assumption.
Qed.

Lemma elt_cons (x : rtInfo) (l : routeSlice) (k : Z) :
  0 <= k -> elt (x :: l) (k + 1) = elt l k.
Proof.
  intros Hk. unfold elt. replace (Z.to_nat (k + 1)) with (S (Z.to_nat k)) by lia. reflexivity.
Qed.

Lemma SortedSeg_StronglySorted (d : routeSlice) :
  SortedSeg d 0 (Len d) -> StronglySorted notAfter d.
Proof.
  induction d as [| x l IH]; intros Hs; [constructor |].
  assert (Hlen : Len (x :: l) = Len l + 1) by (unfold Len; simpl length; lia).
  pose proof (Len_nonneg l) as Hnn.
  apply StronglySorted_cons. split.
  - apply Forall_lookup. intros i y Hy.
    assert (Hi : (i < length l)%nat) by (apply lookup_lt_is_Some; eauto).
    pose proof (Hs 0 (Z.of_nat i + 1) ltac:(lia) ltac:(lia) ltac:(unfold Len in *; lia)) as H.
    rewrite elt_cons in H by lia. unfold elt in H. rewrite Nat2Z.id in H.
    rewrite (nth_lookup_Some l i zeroRtInfo y Hy) in H. exact H.
  - apply IH. intros i j Hi Hij Hj.
    pose proof (Hs (i + 1) (j + 1) ltac:(lia) ltac:(lia) ltac:(lia)) as H.
    rewrite !elt_cons in H by lia. exact H.
Qed.

(** [sort.Sort] returns, whatever the generator of [breakPatterns] is, and
    what it returns holds the elements of the slice, in order. *)
Theorem Sort_sorts (next : Z -> Z) (d : routeSlice) :
  exists d', sort.Sort Len Less Swap next d = Some d'
             /\ d' ≡ₚ d /\ StronglySorted notAfter d'.
Proof.
  unfold sort.Sort. pose proof (Len_nonneg d) as Hnn.
  destruct (Z.leb_spec (Len d) 1) as [Hshort | Hlong].
  - exists d. split; [reflexivity |]. split; [reflexivity |].
    apply SortedSeg_StronglySorted. intros i j Hi Hij Hj. lia.
  - unfold sort.pdqsort.
    destruct (pdqsortLoop_ok next (Z.to_nat (Len d) + 2) (Z.to_nat (Len d) + 2) d 0 (Len d)
                (sort.bitsLen (Len d)) true true) as (d' & -> & Hfr & Hs); try lia.
    { intros H1. lia. }
    exists d'. split; [reflexivity |]. split; [apply Hfr |].
    apply SortedSeg_StronglySorted. rewrite (Frame_Len _ _ _ _ Hfr). exact Hs.
Qed.

Theorem sortRoutes_contract (next : Z -> Z) : sortContract (sortRoutes next).
Proof.
  intros d. unfold sortRoutes.
  destruct (Sort_sorts next d) as (d' & -> & Hp & Hs). simpl. auto.
Qed.

(** The construction with the transcribed [sort.Sort] leaves both
    partitions in order. *)
Lemma setupRouteTable_ordered (next : Z -> Z) (r r' : router) :
  (forall tab, setupRouteTable_linux (sortRoutes next) tab r = (r', None) ->
               ordered (v4 r') /\ ordered (v6 r'))
  /\ (forall table4 table6,
         setupRouteTable_windows (sortRoutes next) table4 table6 r = (r', None) ->
         ordered (v4 r') /\ ordered (v6 r')).
Proof.
  split.
  - intros tab H. apply finish_ok in H as (r1 & _ & ->).
    apply sortTables_ordered, sortRoutes_contract.
  - intros table4 table6 H. apply finish_ok in H as (r1 & _ & ->).
    apply sortTables_ordered, sortRoutes_contract.
Qed.

(** *** The order by the length of the prefix *)

Lemma setAttr_bytes (rt : routeInfoInMemory) (e : rtInfo) (a : NetlinkRouteAttr) :
  bytesOf (net.IPNet_Mask (Dst e)) -> bytesOf (net.IPNet_Mask (Dst (setAttr rt e a))).
Proof.
  intros H. unfold setAttr. destruct e.
  destruct (Attr_Type a =? syscall.RTA_DST); [apply CIDRMask_bytes |].
  repeat (match goal with |- context [if ?c then _ else _] => destruct c end;
          try exact H).
Qed.

Lemma routeInfoOf_bytes (rt : routeInfoInMemory) (attrs : list NetlinkRouteAttr) :
  bytesOf (net.IPNet_Mask (Dst (routeInfoOf rt attrs))).
Proof.
  unfold routeInfoOf.
  assert (H : bytesOf (net.IPNet_Mask (Dst zeroRtInfo))) by constructor.
  revert H. generalize zeroRtInfo. induction attrs as [| a attrs IH]; intros e H.
  - exact H.
  - simpl. apply IH, setAttr_bytes, H.
Qed.

Lemma byteMasks_snoc (l : routeSlice) (e : rtInfo) :
  byteMasks l -> bytesOf (net.IPNet_Mask (Dst e)) -> byteMasks (l ++ [e]).
Proof. intros Hl He. apply Forall_app. split; [exact Hl | constructor; [exact He | constructor]]. Qed.

(** The Linux ingestion appends entries whose masks are slices of bytes. *)
Lemma readMessages_byteMasks (msgs : list NetlinkMessage) (r : router) :
  byteMasks (v4 r) -> byteMasks (v6 r) ->
  byteMasks (v4 (fst (readMessages msgs r))) /\ byteMasks (v6 (fst (readMessages msgs r))).
Proof.
  revert r. induction msgs as [| m msgs IH]; intros r H4 H6; [auto |].
  simpl. destruct (Header_Type m =? syscall.NLMSG_DONE); [auto |].
  destruct (Header_Type m =? syscall.RTM_NEWROUTE); [| apply IH; assumption].
  destruct (ParsedAttrs m) as [attrs |]; [| auto].
  destruct (negb _ && negb _); [apply IH; assumption |].
  destruct (Family (Data m) =? syscall.AF_INET); apply IH; simpl; try assumption;
    apply byteMasks_snoc; try assumption; apply routeInfoOf_bytes.
Qed.

(** So does the Windows ingestion. *)
Lemma ingestWindows_byteMasks (table4 table6 : option (list mibIPForwardRow2))
    (r : router) :
  byteMasks (v4 r) -> byteMasks (v6 r) ->
  byteMasks (v4 (fst (ingestWindows table4 table6 r)))
  /\ byteMasks (v6 (fst (ingestWindows table4 table6 r))).
Proof.
  assert (Hrows4 : forall rows r0,
             byteMasks (v4 r0) -> byteMasks (v6 r0) ->
             byteMasks (v4 (fold_left (fun r row => appendV4 r (rowInfo4 row)) rows r0))
             /\ byteMasks (v6 (fold_left (fun r row => appendV4 r (rowInfo4 row)) rows r0))).
  { induction rows as [| row rows IH]; intros r0 H4 H6; [auto |].
    simpl. apply IH; simpl; [| exact H6].
    apply byteMasks_snoc; [exact H4 | apply CIDRMask_bytes]. }
  assert (Hrows6 : forall rows r0,
             byteMasks (v4 r0) -> byteMasks (v6 r0) ->
             byteMasks (v4 (fold_left (fun r row => appendV6 r (rowInfo6 row)) rows r0))
             /\ byteMasks (v6 (fold_left (fun r row => appendV6 r (rowInfo6 row)) rows r0))).
  { induction rows as [| row rows IH]; intros r0 H4 H6; [auto |].
    simpl. apply IH; simpl; [exact H4 |].
    apply byteMasks_snoc; [exact H6 | apply CIDRMask_bytes]. }
  intros H4 H6. unfold ingestWindows.
  destruct table4 as [rows4 |]; [| auto].
  destruct (Hrows4 rows4 r H4 H6) as [H4' H6'].
  destruct table6 as [rows6 |]; [| auto]. apply Hrows6; assumption.
Qed.

(** A sorted slice of entries with masks of bytes has the ordering
    invariant for the length of the prefix. *)
Lemma sorted_orderedByLength (sortSort : routeSlice -> routeSlice) (l : routeSlice) :
  sortContract sortSort -> byteMasks l -> orderedByLength (sortSort l).
Proof.
  intros Hc Hl. destruct (Hc l) as [Hp Hs].
  assert (Hb : forall e, e ∈ sortSort l -> prefixLen e = dstLength e).
  { intros e He. rewrite Hp in He. unfold byteMasks in Hl. rewrite Forall_forall in Hl.
    apply countMaskOnes_onesOf, Hl, He. }
  intros i j a b Hij Hi Hj.
  pose proof (sorted_ordered _ Hs i j a b Hij Hi Hj) as H.
  rewrite (Hb a), (Hb b) in H by (apply list_elem_of_lookup; eauto). exact H.
Qed.

(** C2. After the construction on Linux and on Windows, on a router whose
    entries have masks of bytes, each of the two partitions has the ordering
    invariant: the lengths of the destination prefixes do not increase, and
    between entries of equal length the pairs of priority and metric do not
    decrease.  The length is the number of one bits of the mask of the
    destination, which is [ones] for the mask [net.CIDRMask(ones, bits)] that
    both ingestions build. *)
Theorem C2_ordering_invariant (sortSort : routeSlice -> routeSlice) :
  sortContract sortSort ->
  (forall tab r r',
      byteMasks (v4 r) -> byteMasks (v6 r) ->
      setupRouteTable_linux sortSort tab r = (r', None) ->
      orderedByLength (v4 r') /\ orderedByLength (v6 r'))
  /\ (forall table4 table6 r r',
         byteMasks (v4 r) -> byteMasks (v6 r) ->
         setupRouteTable_windows sortSort table4 table6 r = (r', None) ->
         orderedByLength (v4 r') /\ orderedByLength (v6 r'))
  /\ (forall e ones bits,
         bits = 32 \/ bits = 128 -> 0 <= ones <= bits ->
         net.IPNet_Mask (Dst e) = net.CIDRMask ones bits ->
         dstLength e = ones).
Proof.
  intros Hc. split; [| split].
  - intros tab r r' H4 H6 H. apply finish_ok in H as (r1 & H & ->).
    assert (Hb : byteMasks (v4 r1) /\ byteMasks (v6 r1)).
    { destruct tab as [msgs |]; [| discriminate H]. simpl in H.
      pose proof (readMessages_byteMasks msgs r H4 H6) as Hr. rewrite H in Hr. exact Hr. }
    destruct Hb as [Hb4 Hb6]. split; simpl; apply sorted_orderedByLength; assumption.
  - intros table4 table6 r r' H4 H6 H. apply finish_ok in H as (r1 & H & ->).
    pose proof (ingestWindows_byteMasks table4 table6 r H4 H6) as Hr. rewrite H in Hr.
    destruct Hr as [Hb4 Hb6]. split; simpl; apply sorted_orderedByLength; assumption.
  - intros e ones bits Hbits Hones Hm. unfold dstLength. rewrite Hm.
    apply onesOf_CIDRMask; assumption.
Qed.

(** The theorem on the dump of thirteen routes, with the transcribed
    [sort.Sort]: the host route, of length 32, stands in front of the
    routes of length 24. *)
Lemma C2_witness :
  (orderedByLength (v4 thirteenRouter) /\ orderedByLength (v6 thirteenRouter))
  /\ dstLength hostRoute = 32 /\ dstLength (subnetRoute 0) = 24.
Proof.
  destruct (C2_ordering_invariant (sortRoutes sort.xorshiftNext)
              (sortRoutes_contract sort.xorshiftNext)) as (Hlinux & _ & Hlen).
  split; [| split].
  - apply (Hlinux (Some thirteenMessages) emptyRouter); [constructor | constructor |].
    evaluate.
  - apply (Hlen hostRoute 32 32); [left; reflexivity | lia | reflexivity].
  - apply (Hlen (subnetRoute 0) 24 32); [left; reflexivity | lia | reflexivity].
Defined.

Lemma lessInfo_longer (a b : rtInfo) :
  prefixLen b < prefixLen a -> lessInfo a b = true.
Proof. intros H. apply lessInfo_true_iff. auto. Qed.

(** C3. Of two entries to 10.0.0.0/8 and 10.1.0.0/16, supplied in either
    order, the one to 10.1.0.0/16, without source and input interface, is
    the match for the destination 10.1.2.3. *)
Theorem C3_longest_prefix_match (sortSort : routeSlice -> routeSlice)
    (e8 e16 : rtInfo) (r : router) (vs : visits) (input : Z) :
  sortContract sortSort ->
  Dst e8 = cidr4 10 0 0 0 8 ->
  Dst e16 = cidr4 10 1 0 0 16 ->
  Src e16 = net.zeroIPNet ->
  InputIface e16 = 0 ->
  v4 r = [e8; e16] \/ v4 r = [e16; e8] ->
  e16 <> e8
  /\ scan input None (ip4 10 1 2 3) (v4 (sortTables sortSort r)) = Some e16
  /\ route (sortTables sortSort r) vs input None (ip4 10 1 2 3) false
     = derive (sortTables sortSort r) vs e16 (ip4 10 1 2 3) false.
Proof.
  intros Hc H8 H16 Hsrc Hin Hv4.
  assert (Hless : lessInfo e16 e8 = true).
  { apply lessInfo_longer. unfold prefixLen. rewrite H8, H16. reflexivity. }
  assert (Hsorted : v4 (sortTables sortSort r) = [e16; e8]).
  { simpl. apply (sort_two sortSort Hc e16 e8 (v4 r) Hless). tauto. }
  assert (Hscan : scan input None (ip4 10 1 2 3) (v4 (sortTables sortSort r)) = Some e16).
  { rewrite Hsorted, scan_cons. unfold matchesb. rewrite H16, Hsrc, Hin. reflexivity. }
  split; [| split].
  - intros Heq. rewrite Heq, H8 in H16. discriminate H16.
  - exact Hscan.
  - unfold route. rewrite Hscan. reflexivity.
Qed.

(** The theorem on the routes [route8] and [route16], with the transcribed
    [sort.Sort]. *)
Lemma C3_witness :
  route16 <> route8
  /\ scan 0 None (ip4 10 1 2 3)
          (v4 (sortTables (sortRoutes sort.xorshiftNext) (lanRouterWith [route8; route16])))
     = Some route16
  /\ route (sortTables (sortRoutes sort.xorshiftNext) (lanRouterWith [route8; route16]))
           (someVisits lanRouter) 0 None (ip4 10 1 2 3) false
     = derive (sortTables (sortRoutes sort.xorshiftNext) (lanRouterWith [route8; route16]))
              (someVisits lanRouter) route16 (ip4 10 1 2 3) false.
Proof.
  apply (C3_longest_prefix_match (sortRoutes sort.xorshiftNext) route8 route16
           (lanRouterWith [route8; route16]) (someVisits lanRouter) 0
           (sortRoutes_contract sort.xorshiftNext)); try reflexivity.
  left. reflexivity.
Defined.

(** What [sort.Sort] makes of the thirteen routes, whatever the generator
    of [breakPatterns] is: the host route first, then the twelve tying
    routes in another order than the supplied one. *)
Lemma Sort_thirteen (next : Z -> Z) :
  sort.Sort Len Less Swap next thirteenRoutes
  = Some (hostRoute :: map subnetRoute [6; 2; 3; 4; 5; 0; 7; 8; 9; 10; 11; 1]).
Proof. evaluate. Qed.

(** C9 as stated fails: [sort.Sort] is no stable sort.  The Linux
    construction is given the routes to 10.0.0.0/24, ..., 10.0.11.0/24 in
    this order and then a host route.  The twelve routes tie on prefix
    length, priority and metric; the route to 10.0.6.0/24, supplied after
    the one to 10.0.0.0/24, stands before it in the built table. *)
Lemma C9_counterexample :
  sort.Sort Len Less Swap sort.xorshiftNext thirteenSupplied = Some thirteenBuilt
  /\ thirteenSupplied !! 0%nat = Some (subnetRoute 0)
  /\ thirteenSupplied !! 6%nat = Some (subnetRoute 6)
  /\ tiesb (subnetRoute 0) (subnetRoute 6) = true
  /\ thirteenBuilt !! 1%nat = Some (subnetRoute 6)
  /\ thirteenBuilt !! 6%nat = Some (subnetRoute 0)
  /\ ~ keepsTieOrder thirteenSupplied thirteenBuilt.
Proof.
  do 6 (split; [evaluate |]).
  intros H. specialize (H (subnetRoute 0)). vm_compute in H. discriminate H.
Qed.

(** C9, amended.  The construction on Linux and on Windows leaves in each
    partition the supplied entries, in the order of the comparator; for
    every entry, the supplied entries that tie with it on prefix length,
    priority and metric are all there, in some order. *)
Theorem C9_ties_kept (sortSort : routeSlice -> routeSlice) :
  sortContract sortSort ->
  (forall tab r r',
      setupRouteTable_linux sortSort tab r = (r', None) ->
      exists r1, ingestLinux tab r = (r1, None)
                 /\ v4 r' ≡ₚ v4 r1 /\ v6 r' ≡ₚ v6 r1
                 /\ keepsTies (v4 r1) (v4 r') /\ keepsTies (v6 r1) (v6 r')
                 /\ ordered (v4 r') /\ ordered (v6 r'))
  /\ (forall table4 table6 r r',
         setupRouteTable_windows sortSort table4 table6 r = (r', None) ->
         exists r1, ingestWindows table4 table6 r = (r1, None)
                    /\ v4 r' ≡ₚ v4 r1 /\ v6 r' ≡ₚ v6 r1
                    /\ keepsTies (v4 r1) (v4 r') /\ keepsTies (v6 r1) (v6 r')
                    /\ ordered (v4 r') /\ ordered (v6 r')).
Proof.
  intros Hc. split.
  - intros tab r r' H. apply finish_ok in H as (r1 & H1 & ->). exists r1.
    pose proof (sortTables_perm sortSort Hc r1).
    pose proof (sortTables_keepsTies sortSort Hc r1).
    pose proof (sortTables_ordered sortSort Hc r1). tauto.
  - intros table4 table6 r r' H. apply finish_ok in H as (r1 & H1 & ->). exists r1.
    pose proof (sortTables_perm sortSort Hc r1).
    pose proof (sortTables_keepsTies sortSort Hc r1).
    pose proof (sortTables_ordered sortSort Hc r1). tauto.
Qed.

(** The theorem on the dump of thirteen routes, with the transcribed
    [sort.Sort]. *)
Lemma C9_witness :
  exists r1,
    ingestLinux (Some thirteenMessages) emptyRouter = (r1, None)
    /\ v4 thirteenRouter ≡ₚ v4 r1 /\ v6 thirteenRouter ≡ₚ v6 r1
    /\ keepsTies (v4 r1) (v4 thirteenRouter) /\ keepsTies (v6 r1) (v6 thirteenRouter)
    /\ ordered (v4 thirteenRouter) /\ ordered (v6 thirteenRouter).
Proof.
  destruct (C9_ties_kept (sortRoutes sort.xorshiftNext)
              (sortRoutes_contract sort.xorshiftNext)) as [Hlinux _].
  apply (Hlinux (Some thirteenMessages) emptyRouter). evaluate.
Defined.

(** ** The search for the source address *)

(** An address loop either finds no address and leaves the state, or ends
    with an address of the list that meets the condition. *)
Lemma pickAddr_spec (p : net.IPNet -> bool) (l : list net.IPNet) (ps : net.IP) :
  (Forall (fun a => p a = false) l /\ pickAddr p l ps = ps)
  \/ (exists a, a ∈ l /\ p a = true /\ pickAddr p l ps = net.IPNet_IP a).
Proof.
  revert ps. induction l as [| x l IH]; intros ps.
  - left. split; [constructor | reflexivity].
  - unfold pickAddr. simpl fold_left. fold (pickAddr p l (if p x then net.IPNet_IP x else ps)).
    destruct (IH (if p x then net.IPNet_IP x else ps)) as [[Hall Heq] | (a & Ha & Hp & Heq)].
    + destruct (p x) eqn:Hx.
      * right. exists x. split; [apply list_elem_of_here | auto].
      * left. split; [constructor; assumption | exact Heq].
    + right. exists a. split; [apply list_elem_of_further, Ha | auto].
Qed.

Lemma eachAddr_spec (p : net.IPNet -> bool) (i : Z) (l : list net.IPNet)
    (st : Z * net.IP) :
  (Forall (fun a => p a = false) l /\ eachAddr p i l st = st)
  \/ (exists a, a ∈ l /\ p a = true /\ eachAddr p i l st = (i, net.IPNet_IP a)).
Proof.
  revert st. induction l as [| x l IH]; intros st.
  - left. split; [constructor | reflexivity].
  - unfold eachAddr. simpl fold_left.
    fold (eachAddr p i l (if p x then (i, net.IPNet_IP x) else st)).
    destruct (IH (if p x then (i, net.IPNet_IP x) else st))
      as [[Hall Heq] | (a & Ha & Hp & Heq)].
    + destruct (p x) eqn:Hx.
      * right. exists x. split; [apply list_elem_of_here | auto].
      * left. split; [constructor; assumption | exact Heq].
    + right. exists a. split; [apply list_elem_of_further, Ha | auto].
Qed.

Lemma eachIface_spec (p : net.IPNet -> bool) (ipv6 : bool)
    (o : list (Z * ipAddrs)) (st : Z * net.IP) :
  ((forall i ia a, (i, ia) ∈ o -> a ∈ family ipv6 ia -> p a = false)
   /\ eachIface p ipv6 o st = st)
  \/ (exists i ia a, (i, ia) ∈ o /\ a ∈ family ipv6 ia /\ p a = true
                     /\ eachIface p ipv6 o st = (i, net.IPNet_IP a)).
Proof.
  revert st. induction o as [| [j ja] o IH]; intros st.
  - left. split; [| reflexivity]. intros i ia a Hin. inversion Hin.
  - unfold eachIface. simpl fold_left.
    fold (eachIface p ipv6 o (eachAddr p j (family ipv6 ja) st)).
    destruct (IH (eachAddr p j (family ipv6 ja) st))
      as [[Hall Heq] | (i & ia & a & Hi & Ha & Hp & Heq)].
    + destruct (eachAddr_spec p j (family ipv6 ja) st)
        as [[Hnone Hst] | (a & Ha & Hp & Hst)].
      * left. split; [| rewrite Heq; exact Hst].
        intros i ia a Hin Ha. apply elem_of_cons in Hin as [[= -> ->] | Hin].
        -- rewrite Forall_forall in Hnone. apply Hnone, Ha.
        -- apply (Hall i ia a Hin Ha).
      * right. exists j, ja, a. split; [apply list_elem_of_here |].
        split; [exact Ha |]. split; [exact Hp |]. rewrite Heq. exact Hst.
    + right. exists i, ia, a. split; [apply list_elem_of_further, Hi | auto].
Qed.

Lemma containsAndEqual_true (gateway prefSrc : net.IP) (a : net.IPNet) :
  containsAndEqual gateway prefSrc a = true ->
  net.Contains a gateway = true /\ net.Equal (net.IPNet_IP a) prefSrc = true.
Proof. unfold containsAndEqual. apply andb_true_iff. Qed.

(** C6 as stated fails: the route of [pinnedRouter] has the output
    interface 2, which is in the index; no address of the interface equals
    the preferred source or reaches the gateway, and the error is "no src
    found", not "no output interface found". *)
Lemma C6_counterexample :
  scan 0 None (ip4 172 16 5 5) (v4 pinnedRouter) = Some pinnedRoute
  /\ OutputIface pinnedRoute = 2
  /\ addrs pinnedRouter !! 2 = Some (mkIpAddrs [cidr4 10 0 0 5 8] [])
  /\ net.Equal (net.IPNet_IP (cidr4 10 0 0 5 8)) (PrefSrc pinnedRoute) = false
  /\ net.Contains (cidr4 10 0 0 5 8) (gatewayOf pinnedRoute (ip4 172 16 5 5)) = false
  /\ res_err (route pinnedRouter (someVisits pinnedRouter) 0 None (ip4 172 16 5 5) false)
     = Some (NoSourceFound (ip4 172 16 5 5))
  /\ res_err (route pinnedRouter (someVisits pinnedRouter) 0 None (ip4 172 16 5 5) false)
     <> Some (NoOutputInterfaceFound (ip4 172 16 5 5)).
Proof.
  do 6 (split; [evaluate |]). vm_compute. discriminate.
Qed.

(** C6, amended.  When the matched entry has an output interface and no
    address of that interface, in the family of the destination, contains
    the gateway, [route] fails: with "no src found" when the interface is in
    the index, with "no output interface found" when it is not. *)
Theorem C6_pinned_without_address (r : router) (vs : visits) (input : Z)
    (src dst : net.IP) (ipv6 : bool) (e : rtInfo) :
  scan input src dst (partitionOf r ipv6) = Some e ->
  OutputIface e <> 0 ->
  (forall ia a, addrs r !! OutputIface e = Some ia -> a ∈ family ipv6 ia ->
                net.Contains a (gatewayOf e dst) = false) ->
  route r vs input src dst ipv6
  = mkRouteResult (OutputIface e) (gatewayOf e dst) None (Some (pinnedFailure r e dst)).
Proof.
  intros Hs Hoif Hnone. unfold route. fold (partitionOf r ipv6). rewrite Hs.
  unfold derive, pinnedFailure. apply Z.eqb_neq in Hoif. rewrite Hoif.
  destruct (addrs r !! OutputIface e) as [ia |] eqn:Hia; [| reflexivity].
  assert (H1 : forall ps, pickAddr (containsAndEqual (gatewayOf e dst) (PrefSrc e))
                                   (family ipv6 ia) ps = ps).
  { intros ps. destruct (pickAddr_spec (containsAndEqual (gatewayOf e dst) (PrefSrc e))
                           (family ipv6 ia) ps) as [[_ H] | (a & Ha & Hp & _)]; [exact H |].
    apply containsAndEqual_true in Hp as [Hp _].
    rewrite (Hnone ia a eq_refl Ha) in Hp. discriminate. }
  assert (H2 : forall ps, pickAddr (containsGateway (gatewayOf e dst))
                                   (family ipv6 ia) ps = ps).
  { intros ps. destruct (pickAddr_spec (containsGateway (gatewayOf e dst))
                           (family ipv6 ia) ps) as [[_ H] | (a & Ha & Hp & _)]; [exact H |].
    unfold containsGateway in Hp. rewrite (Hnone ia a eq_refl Ha) in Hp. discriminate. }
  rewrite H1. destruct (negb (isNil (PrefSrc e))); simpl; rewrite H2; reflexivity.
Qed.

Lemma C6_witness :
  route pinnedRouter (someVisits pinnedRouter) 0 None (ip4 172 16 5 5) false
  = mkRouteResult (OutputIface pinnedRoute) (gatewayOf pinnedRoute (ip4 172 16 5 5))
                  None (Some (pinnedFailure pinnedRouter pinnedRoute (ip4 172 16 5 5))).
Proof.
  apply (C6_pinned_without_address pinnedRouter (someVisits pinnedRouter) 0 None
           (ip4 172 16 5 5) false pinnedRoute).
  - evaluate.
  - discriminate.
  - intros ia a Hia Ha.
    assert (Hl : addrs pinnedRouter !! OutputIface pinnedRoute
                 = Some (mkIpAddrs [cidr4 10 0 0 5 8] [])) by evaluate.
    rewrite Hl in Hia. injection Hia as <-. simpl in Ha.
    apply list_elem_of_singleton in Ha as ->. evaluate.
Defined.

(** C7. The matched entry prefers a source that none of the searched
    addresses equals, and one of them contains the gateway, an address of at
    least one byte: [route] succeeds with a searched address that contains
    the gateway as the preferred source, on the interface of that address
    (the output interface of the entry when it has one). *)
Theorem C7_source_fallback (r : router) (vs : visits) (input : Z)
    (src dst : net.IP) (ipv6 : bool) (e : rtInfo) :
  visitsOf r vs ->
  scan input src dst (partitionOf r ipv6) = Some e ->
  isNil (PrefSrc e) = false ->
  (forall i a, searched r e ipv6 i a ->
               net.Equal (net.IPNet_IP a) (PrefSrc e) = false) ->
  len (gatewayOf e dst) <> 0 ->
  (exists i a, searched r e ipv6 i a /\ net.Contains a (gatewayOf e dst) = true) ->
  exists i a,
    searched r e ipv6 i a
    /\ net.Contains a (gatewayOf e dst) = true
    /\ isNil (net.IPNet_IP a) = false
    /\ route r vs input src dst ipv6
       = mkRouteResult i (gatewayOf e dst) (net.IPNet_IP a) None.
Proof.
  intros (_ & Hpref & Hany) Hs Hps Hneq Hgw (i0 & a0 & (Hoif0 & ia0 & Hia0 & Ha0) & Hc0).
  unfold route. fold (partitionOf r ipv6). rewrite Hs. unfold derive. rewrite Hps.
  simpl negb. cbv iota.
  destruct (OutputIface e =? 0) eqn:Hoif.
  - apply Z.eqb_eq in Hoif.
    destruct (eachIface_spec (containsAndEqual (gatewayOf e dst) (PrefSrc e)) ipv6
                (visitAddrsPref vs) (0, None))
      as [[_ ->] | (i & ia & a & Hi & Ha & Hp & _)].
    + simpl snd. cbv iota.
      destruct (eachIface_spec (containsGateway (gatewayOf e dst)) ipv6
                  (visitAddrsAny vs) (0, None))
        as [[Hnone _] | (i & ia & a & Hi & Ha & Hp & ->)].
      * exfalso. apply (rangeOver_lookup _ _ _ _ Hany) in Hia0.
        specialize (Hnone i0 ia0 a0 Hia0 Ha0). unfold containsGateway in Hnone.
        congruence.
      * unfold containsGateway in Hp.
        pose proof (Contains_IP_present a (gatewayOf e dst) Hp Hgw) as Hnil.
        exists i, a. simpl fst. simpl snd. rewrite Hnil.
        split; [| auto]. split; [left; exact Hoif |].
        exists ia. split; [apply (rangeOver_lookup _ _ _ _ Hany), Hi | exact Ha].
    + exfalso. apply containsAndEqual_true in Hp as [_ Hp].
      rewrite (Hneq i a) in Hp; [discriminate |].
      split; [left; exact Hoif |].
      exists ia. split; [apply (rangeOver_lookup _ _ _ _ Hpref), Hi | exact Ha].
  - apply Z.eqb_neq in Hoif. destruct Hoif0 as [Hz | Hoif0]; [contradiction |].
    subst i0. rewrite Hia0.
    destruct (pickAddr_spec (containsAndEqual (gatewayOf e dst) (PrefSrc e))
                (family ipv6 ia0) None) as [[_ ->] | (a & Ha & Hp & _)].
    + simpl isNil. cbv iota.
      destruct (pickAddr_spec (containsGateway (gatewayOf e dst)) (family ipv6 ia0) None)
        as [[Hnone _] | (a & Ha & Hp & ->)].
      * exfalso. rewrite Forall_forall in Hnone. specialize (Hnone a0 Ha0).
        unfold containsGateway in Hnone. congruence.
      * unfold containsGateway in Hp.
        pose proof (Contains_IP_present a (gatewayOf e dst) Hp Hgw) as Hnil.
        exists (OutputIface e), a. rewrite Hnil.
        split; [| auto]. split; [right; reflexivity |]. exists ia0. auto.
    + exfalso. apply containsAndEqual_true in Hp as [_ Hp].
      rewrite (Hneq (OutputIface e) a) in Hp; [discriminate |].
      split; [right; reflexivity |]. exists ia0. auto.
Qed.

(** The addresses [route] searches on the routers of the examples: the one
    address of interface 2. *)
Lemma searched_lan (l : routeSlice) (e : rtInfo) (i : Z) (a : net.IPNet) :
  searched (lanRouterWith l) e false i a -> i = 2 /\ a = cidr4 10 0 0 5 8.
Proof.
  intros (_ & ia & Hia & Ha). unfold lanRouterWith, lanAddrs in Hia. simpl in Hia.
  apply lookup_singleton_Some in Hia as [<- <-]. simpl in Ha.
  apply list_elem_of_singleton in Ha. auto.
Qed.

Lemma C7_witness :
  exists i a,
    searched (staleRouter 0) (staleRoute 0) false i a
    /\ net.Contains a (gatewayOf (staleRoute 0) (ip4 10 1 2 3)) = true
    /\ isNil (net.IPNet_IP a) = false
    /\ route (staleRouter 0) (someVisits (staleRouter 0)) 0 None (ip4 10 1 2 3) false
       = mkRouteResult i (gatewayOf (staleRoute 0) (ip4 10 1 2 3)) (net.IPNet_IP a) None.
Proof.
  apply (C7_source_fallback (staleRouter 0) (someVisits (staleRouter 0)) 0 None
           (ip4 10 1 2 3) false (staleRoute 0)).
  - apply someVisits_ok.
  - evaluate.
  - reflexivity.
  - intros i a H. apply (searched_lan [staleRoute 0]) in H as [_ ->]. evaluate.
  - vm_compute. discriminate.
  - exists 2, (cidr4 10 0 0 5 8). split; [| evaluate].
    split; [left; reflexivity |]. exists (mkIpAddrs [cidr4 10 0 0 5 8] []).
    split; [evaluate | apply list_elem_of_here].
Defined.

(** The fallback on the two routers of the example: with and without an
    output interface, the source is 10.0.0.5, the address of interface 2. *)
Lemma fallback_examples :
  route (staleRouter 0) (someVisits (staleRouter 0)) 0 None (ip4 10 1 2 3) false
  = mkRouteResult 2 (ip4 10 1 2 3) (ip4 10 0 0 5) None
  /\ route (staleRouter 2) (someVisits (staleRouter 2)) 0 None (ip4 10 1 2 3) false
     = mkRouteResult 2 (ip4 10 1 2 3) (ip4 10 0 0 5) None.
Proof. split; evaluate. Qed.



(** On [homeRouter], [Route] answers with the interface record of index 2. *)
Lemma Route_home :
  Route homeRouter (someVisits homeRouter) (ip4 192 168 1 50)
  = mkRouteAnswer (Some eth0) (ip4 192 168 1 50) (ip4 192 168 1 10) None.
Proof. evaluate. Qed.

(** ** The comparator on the masks [net.CIDRMask] builds *)

(** On the mask of a prefix, [countMaskOnes] is the length of the prefix. *)
Lemma countMaskOnes_CIDRMask (ones : Z) :
  (0 <= ones <= 32 -> countMaskOnes (net.CIDRMask ones 32) = ones)
  /\ (0 <= ones <= 128 -> countMaskOnes (net.CIDRMask ones 128) = ones).
Proof.
  assert (H32 : forallb (fun n => countMaskOnes (net.CIDRMask (Z.of_nat n) 32) =? Z.of_nat n)
                        (seq 0 33) = true) by evaluate.
  assert (H128 : forallb (fun n => countMaskOnes (net.CIDRMask (Z.of_nat n) 128) =? Z.of_nat n)
                         (seq 0 129) = true) by evaluate.
  rewrite forallb_forall in H32, H128. split; intros H.
  - specialize (H32 (Z.to_nat ones)). rewrite Z2Nat.id in H32 by lia.
    apply Z.eqb_eq, H32, in_seq. lia.
  - specialize (H128 (Z.to_nat ones)). rewrite Z2Nat.id in H128 by lia.
    apply Z.eqb_eq, H128, in_seq. lia.
Qed.

(** ** [sort.Sort] on the tables of the examples *)

(** Two entries: [sort.Sort] exchanges them when the second sorts before
    the first. *)
Lemma Sort_two (next : Z -> Z) (a b : rtInfo) :
  sort.Sort Len Less Swap next [a; b] = Some (if lessInfo b a then [b; a] else [a; b]).
Proof.
  cbv -[lessInfo]. destruct (lessInfo b a); reflexivity.
Qed.

(** The table [sort.Sort] builds from the routes to 10.0.0.0/8 and
    10.1.0.0/16, supplied in either order, has the route to 10.1.0.0/16
    first. *)
Lemma sortRoutes_two (next : Z -> Z) :
  sortRoutes next [route8; route16] = [route16; route8]
  /\ sortRoutes next [route16; route8] = [route16; route8].
Proof.
  unfold sortRoutes. rewrite !Sort_two. split; reflexivity.
Qed.

(** * Further properties of the package *)

(** ** [countMaskOnes] and the methods of [routeSlice] *)

(** X1. On a mask of bytes, [countMaskOnes] is the number of one bits of the
    mask, whether the ones stand in front or not; it lies between zero and
    eight times the length of the mask. *)
Theorem X1_countMaskOnes_counts_bits (mask : net.IPMask) :
  bytesOf mask ->
  countMaskOnes mask = onesOf mask /\ 0 <= countMaskOnes mask <= 8 * len mask.
Proof.
  unfold bytesOf, countMaskOnes, onesOf, len. generalize (elems mask) as l. clear mask.
  intros l Hl.
  assert (Hacc : forall cnt,
             fold_left (fun cnt each => snd (onesLoop 8 each cnt)) l cnt
             = cnt + foldr (fun b n => bitCount b + n) 0 l).
  { induction Hl as [| b l Hb _ IH]; intros cnt; cbn [fold_left foldr]; [lia |].
    rewrite IH, (onesLoop_bitCount b cnt Hb). lia. }
  rewrite (Hacc 0). split; [lia |].
  clear Hacc Hl. induction l as [| b l IH]; simpl length; simpl foldr; [lia |].
  pose proof (bitCount_bound b). lia.
Qed.

Lemma X1_witness :
  countMaskOnes (Some [255; 0; 255; 1]) = onesOf (Some [255; 0; 255; 1])
  /\ 0 <= countMaskOnes (Some [255; 0; 255; 1]) <= 8 * len (Some [255; 0; 255; 1]).
Proof.
  apply (X1_countMaskOnes_counts_bits (Some [255; 0; 255; 1])).
  unfold bytesOf. simpl. repeat constructor; lia.
Defined.

(** X2. [Less] is a strict weak order on the indexes of the slice, which
    is what [sort.Sort] asks of it: no index is less than itself, the
    relation is transitive, and so is the relation of two indexes neither of
    which is less than the other. *)
Theorem X2_Less_strict_weak_order (r : routeSlice) (i j k : Z) :
  (0 <= i < Len r -> Less r i i = Some false)
  /\ (Less r i j = Some true -> Less r j i = Some false)
  /\ (Less r i j = Some true -> Less r j k = Some true -> Less r i k = Some true)
  /\ (Less r i j = Some false -> Less r j i = Some false ->
      Less r j k = Some false -> Less r k j = Some false ->
      Less r i k = Some false /\ Less r k i = Some false).
Proof.
  conjuncts.
  - intros Hi. rewrite Less_in by lia. f_equal. keys.
  - unfold Less. destruct (index r i) as [x |], (index r j) as [y |]; try discriminate.
    intros [= H]. f_equal. keys.
  - unfold Less.
    destruct (index r i) as [x |], (index r j) as [y |], (index r k) as [z |];
      try discriminate.
    intros [= H1] [= H2]. f_equal. keys.
  - unfold Less.
    destruct (index r i) as [x |], (index r j) as [y |], (index r k) as [z |];
      try discriminate.
    intros [= H1] [= H2] [= H3] [= H4]. split; f_equal; keys.
Qed.

Lemma X2_witness :
  Less [route8; route16] 0 0 = Some false
  /\ (Less [route8; route16] 1 0 = Some true -> Less [route8; route16] 0 1 = Some false).
Proof.
  destruct (X2_Less_strict_weak_order [route8; route16] 0 1 1) as (H1 & _).
  destruct (X2_Less_strict_weak_order [route8; route16] 1 0 0) as (_ & H2 & _).
  split; [apply H1; vm_compute; split; [discriminate | reflexivity] | exact H2].
Defined.

Lemma index_None (r : routeSlice) (i : Z) : ~ 0 <= i < Len r -> index r i = None.
Proof.
  unfold index, Len. intros H. destruct (Z.ltb_spec i 0); [reflexivity |].
  apply lookup_ge_None. lia.
Qed.

Lemma swp_swp (r : routeSlice) (i j : Z) :
  0 <= i < Len r -> 0 <= j < Len r -> swp (swp r i j) i j = r.
Proof.
  intros Hi Hj. apply (nth_ext _ _ zeroRtInfo zeroRtInfo).
  - pose proof (Len_swp (swp r i j) i j) as H1. pose proof (Len_swp r i j) as H2.
    unfold Len in H1, H2. lia.
  - intros n Hn.
    assert (Hl : Len (swp (swp r i j) i j) = Len r) by (rewrite !Len_swp; reflexivity).
    assert (Hk : 0 <= Z.of_nat n < Len r) by (unfold Len in *; lia).
    pose proof (elt_swp (swp r i j) i j (Z.of_nat n)) as E. rewrite Len_swp in E.
    specialize (E Hi Hj Hk). unfold elt at 1 in E. rewrite Nat2Z.id in E. rewrite E.
    rewrite !(elt_swp r i j) by lia.
    replace (nth n r zeroRtInfo) with (elt r (Z.of_nat n))
      by (unfold elt; rewrite Nat2Z.id; reflexivity).
    destruct (Z.eqb_spec (Z.of_nat n) j) as [-> | Hnj].
    + rewrite Z.eqb_refl. destruct (Z.eqb_spec i j) as [-> | _]; reflexivity.
    + destruct (Z.eqb_spec (Z.of_nat n) i) as [-> | Hni]; [| reflexivity].
      rewrite Z.eqb_refl. reflexivity.
Qed.

(** X3. [Swap] on two indexes of the slice exchanges the two entries and
    leaves the others and the length; a second [Swap] on the same indexes
    brings the slice back.  On an index that is not one of the slice, [Swap]
    and [Less] panic. *)
Theorem X3_Swap_exchanges (r : routeSlice) (i j : Z) :
  (0 <= i < Len r -> 0 <= j < Len r ->
   exists r', Swap r i j = Some r'
              /\ Len r' = Len r /\ r' ≡ₚ r
              /\ index r' i = index r j /\ index r' j = index r i
              /\ (forall k, k <> i -> k <> j -> index r' k = index r k)
              /\ Swap r' i j = Some r)
  /\ (~ (0 <= i < Len r /\ 0 <= j < Len r) -> Swap r i j = None /\ Less r i j = None).
Proof.
  split.
  - intros Hi Hj. exists (swp r i j).
    assert (Hidx : forall k, index (swp r i j) k
                             = if k =? j then index r i else if k =? i then index r j
                                                             else index r k).
    { intros k. destruct (decide (0 <= k < Len r)) as [Hk | Hk].
      - rewrite index_in by (rewrite Len_swp; exact Hk).
        rewrite (elt_swp r i j k Hi Hj Hk), !index_in by assumption.
        destruct (k =? j); [reflexivity |]. destruct (k =? i); reflexivity.
      - rewrite (index_None (swp r i j) k) by (rewrite Len_swp; exact Hk).
        rewrite (index_None r k Hk).
        destruct (Z.eqb_spec k j); [lia |]. destruct (Z.eqb_spec k i); [lia | reflexivity]. }
    split; [apply Swap_in; assumption |].
    split; [apply Len_swp |]. split; [apply swp_perm; assumption |].
    split; [| split; [| split]].
    + rewrite Hidx. destruct (Z.eqb_spec i j) as [-> | _]; [reflexivity |].
      rewrite Z.eqb_refl. reflexivity.
    + rewrite Hidx, Z.eqb_refl. reflexivity.
    + intros k Hki Hkj. rewrite Hidx.
      destruct (Z.eqb_spec k j); [lia |]. destruct (Z.eqb_spec k i); [lia | reflexivity].
    + rewrite Swap_in by (rewrite Len_swp; assumption). f_equal.
      apply swp_swp; assumption.
  - intros H. unfold Swap, Less.
    destruct (decide (0 <= i < Len r)) as [Hi | Hi].
    + rewrite (index_None r j) by tauto. destruct (index r i); auto.
    + rewrite (index_None r i) by tauto. auto.
Qed.

Lemma X3_witness :
  exists r', Swap [route8; route16] 0 1 = Some r'
             /\ Len r' = Len [route8; route16] /\ r' ≡ₚ [route8; route16]
             /\ index r' 0 = index [route8; route16] 1
             /\ index r' 1 = index [route8; route16] 0
             /\ (forall k, k <> 0 -> k <> 1 -> index r' k = index [route8; route16] k)
             /\ Swap r' 0 1 = Some [route8; route16].
Proof.
  destruct (X3_Swap_exchanges [route8; route16] 0 1) as [H _].
  apply H; vm_compute; split; congruence.
Defined.

(** ** [RouteWithSrc] and [route] *)

Lemma derive_err (r : router) (vs : visits) (e : rtInfo) (dst : net.IP) (ipv6 : bool) :
  res_err (derive r vs e dst ipv6) = None
  \/ res_err (derive r vs e dst ipv6) = Some (NoOutputInterfaceFound dst)
  \/ res_err (derive r vs e dst ipv6) = Some (NoSourceFound dst).
Proof.
  unfold derive.
  repeat match goal with
         | |- context [if ?c then _ else _] => destruct c
         | |- context [match ?c with Some _ => _ | None => _ end] => destruct c
         end; simpl; auto.
Qed.

Lemma route_err (r : router) (vs : visits) (input : Z) (src dst : net.IP) (ipv6 : bool) :
  res_err (route r vs input src dst ipv6) = None
  \/ res_err (route r vs input src dst ipv6) = Some (NoRouteFound dst)
  \/ res_err (route r vs input src dst ipv6) = Some (NoOutputInterfaceFound dst)
  \/ res_err (route r vs input src dst ipv6) = Some (NoSourceFound dst).
Proof.
  unfold route. destruct (scan _ _ _ _) as [e |]; [| simpl; auto].
  destruct (derive_err r vs e dst ipv6) as [H | [H | H]]; auto.
Qed.

Lemma valid_To4_To16 (dst : net.IP) :
  validIP dst -> isNil (net.To4 dst) = false \/ isNil (net.To16 dst) = false.
Proof.
  unfold validIP, net.To4, net.To16, net.IPv4len, net.IPv6len. intros [H | H]; rewrite H; simpl.
  - left. destruct dst; [reflexivity | discriminate H].
  - right. destruct dst; [reflexivity | discriminate H].
Qed.

(** X4. [RouteWithSrc] answers a destination that has neither four nor
    sixteen bytes with the error "IP is not valid as IPv4 or IPv6" and
    nothing else, whatever the router; for a destination of four or sixteen
    bytes its error, if any, is one of "no route found", "no output
    interface found" and "no src found" for this destination.  With an
    error there is no interface in the answer. *)
Theorem X4_errors_of_RouteWithSrc (r : router) (vs : visits) (input : net.HardwareAddr)
    (src dst : net.IP) :
  (~ validIP dst ->
   RouteWithSrc r vs input src dst = mkRouteAnswer None None None (Some InvalidAddress))
  /\ (validIP dst ->
      forall e, ans_err (RouteWithSrc r vs input src dst) = Some e ->
                e = NoRouteFound dst \/ e = NoOutputInterfaceFound dst
                \/ e = NoSourceFound dst)
  /\ (ans_err (RouteWithSrc r vs input src dst) <> None ->
      ans_iface (RouteWithSrc r vs input src dst) = None).
Proof.
  conjuncts.
  - intros Hv. unfold RouteWithSrc.
    destruct (isNil (net.To4 dst)) eqn:E4;
      [| exfalso; apply Hv, To4_present_valid, E4].
    destruct (isNil (net.To16 dst)) eqn:E16;
      [| exfalso; apply Hv, To16_present_valid, E16].
    reflexivity.
  - intros Hv e. unfold RouteWithSrc.
    set (i := if negb (isNil input) then _ else _).
    destruct (isNil (net.To4 dst)) eqn:E4; simpl negb; cbv iota.
    + destruct (valid_To4_To16 dst Hv) as [H | H]; [congruence |]. rewrite H.
      simpl negb. cbv iota.
      destruct (route_err r vs i src dst true) as [H0 | [H0 | [H0 | H0]]];
        rewrite H0; simpl; intros [= <-]; auto.
    + destruct (route_err r vs i src dst false) as [H0 | [H0 | [H0 | H0]]];
        rewrite H0; simpl; intros [= <-]; auto.
  - unfold RouteWithSrc. destruct (res_err _); simpl; [reflexivity | congruence].
Qed.

Lemma X4_witness :
  RouteWithSrc lanRouter (someVisits lanRouter) None None (Some [10; 1; 2])
  = mkRouteAnswer None None None (Some InvalidAddress).
Proof.
  destruct (X4_errors_of_RouteWithSrc lanRouter (someVisits lanRouter) None None
              (Some [10; 1; 2])) as [H _].
  apply H. unfold validIP. vm_compute. intros [H1 | H1]; discriminate H1.
Defined.

(** *** The four-byte form of a destination *)

Lemma To4_len (ip : net.IP) : isNil (net.To4 ip) = false -> len (net.To4 ip) = 4.
Proof.
  unfold net.To4, net.IPv4len, net.IPv6len.
  destruct (Z.eqb_spec (len ip) 4) as [E | E]; [intros _; exact E |].
  destruct (Z.eqb_spec (len ip) 16) as [E16 | E16]; simpl; [| discriminate].
  destruct (net.allZero _ && _ && _); [| discriminate].
  intros _. unfold len in *. simpl. rewrite length_drop. lia.
Qed.

Lemma To4_To4 (ip : net.IP) : isNil (net.To4 ip) = false -> net.To4 (net.To4 ip) = net.To4 ip.
Proof.
  intros H. pose proof (To4_len ip H) as Hl.
  unfold net.To4 at 1. unfold net.IPv4len. rewrite Hl. reflexivity.
Qed.

Lemma shortForm_idem (ip : net.IP) : shortForm (shortForm ip) = shortForm ip.
Proof.
  unfold shortForm. destruct (isNil (net.To4 ip)) eqn:E.
  - rewrite E. reflexivity.
  - rewrite (To4_To4 ip E), E. reflexivity.
Qed.

Lemma shortForm_To4 (ip : net.IP) :
  isNil (net.To4 ip) = false -> shortForm (net.To4 ip) = shortForm ip.
Proof.
  intros E. unfold shortForm. rewrite (To4_To4 ip E), E. reflexivity.
Qed.

(** [Contains] looks at the four-byte form of the address when it has
    one. *)
Lemma Contains_shortForm (n : net.IPNet) (ip ip' : net.IP) :
  shortForm ip = shortForm ip' -> net.Contains n ip = net.Contains n ip'.
Proof. intros H. rewrite !Contains_unfold, H. reflexivity. Qed.

Lemma scan_shortForm (input : Z) (src dst dst' : net.IP) (rs : routeSlice) :
  shortForm dst = shortForm dst' -> scan input src dst rs = scan input src dst' rs.
Proof.
  intros H. induction rs as [| e rest IH]; [reflexivity |].
  rewrite !scan_cons, IH. unfold matchesb.
  rewrite (Contains_shortForm (Dst e) dst dst' H). reflexivity.
Qed.

Lemma pickAddr_ext (p q : net.IPNet -> bool) (l : list net.IPNet) (ps : net.IP) :
  (forall a, p a = q a) -> pickAddr p l ps = pickAddr q l ps.
Proof.
  intros H. unfold pickAddr. revert ps.
  induction l as [| x l IH]; intros ps; simpl; [reflexivity |]. rewrite H. apply IH.
Qed.

Lemma eachAddr_ext (p q : net.IPNet -> bool) (i : Z) (l : list net.IPNet) (st : Z * net.IP) :
  (forall a, p a = q a) -> eachAddr p i l st = eachAddr q i l st.
Proof.
  intros H. unfold eachAddr. revert st.
  induction l as [| x l IH]; intros st; simpl; [reflexivity |]. rewrite H. apply IH.
Qed.

Lemma eachIface_ext (p q : net.IPNet -> bool) (ipv6 : bool) (o : list (Z * ipAddrs))
    (st : Z * net.IP) :
  (forall a, p a = q a) -> eachIface p ipv6 o st = eachIface q ipv6 o st.
Proof.
  intros H. unfold eachIface. revert st.
  induction o as [| x o IH]; intros st; simpl; [reflexivity |].
  rewrite (eachAddr_ext p q _ _ _ H). apply IH.
Qed.

Lemma gatewayOf_shortForm (e : rtInfo) (dst dst' : net.IP) :
  shortForm dst = shortForm dst' ->
  shortForm (gatewayOf e dst) = shortForm (gatewayOf e dst').
Proof. intros H. unfold gatewayOf. destruct (_ || _); [exact H | reflexivity]. Qed.

Lemma derive_shortForm (r : router) (vs : visits) (e : rtInfo) (dst dst' : net.IP)
    (ipv6 : bool) :
  shortForm dst = shortForm dst' ->
  res_iface (derive r vs e dst ipv6) = res_iface (derive r vs e dst' ipv6)
  /\ res_preferredSrc (derive r vs e dst ipv6) = res_preferredSrc (derive r vs e dst' ipv6)
  /\ shortForm (res_gateway (derive r vs e dst ipv6))
     = shortForm (res_gateway (derive r vs e dst' ipv6))
  /\ res_err (derive r vs e dst' ipv6)
     = option_map (withAddress dst') (res_err (derive r vs e dst ipv6)).
Proof.
  intros H. pose proof (gatewayOf_shortForm e dst dst' H) as Hg.
  unfold derive. revert Hg. generalize (gatewayOf e dst), (gatewayOf e dst').
  intros g g' Hg.
  assert (Hce : forall a, containsAndEqual g (PrefSrc e) a = containsAndEqual g' (PrefSrc e) a)
    by (intros a; unfold containsAndEqual; rewrite (Contains_shortForm a g g' Hg); reflexivity).
  assert (Hcg : forall a, containsGateway g a = containsGateway g' a)
    by (intros a; unfold containsGateway; apply Contains_shortForm, Hg).
  destruct (OutputIface e =? 0).
  - rewrite (eachIface_ext _ _ ipv6 (visitAddrsPref vs) (0, None) Hce).
    set (st1 := if negb (isNil (PrefSrc e)) then _ else _).
    rewrite (eachIface_ext _ _ ipv6 (visitAddrsAny vs) st1 Hcg).
    set (st2 := if isNil st1.2 then _ else _).
    destruct (isNil st2.2); simpl; auto.
  - destruct (addrs r !! OutputIface e) as [ia |]; [| simpl; auto].
    rewrite (pickAddr_ext _ _ (family ipv6 ia) None Hce).
    set (ps1 := if negb (isNil (PrefSrc e)) then _ else _).
    rewrite (pickAddr_ext _ _ (family ipv6 ia) ps1 Hcg).
    set (ps2 := if isNil ps1 then _ else _).
    destruct (isNil ps2); simpl; auto.
Qed.

(** X5. A destination of sixteen bytes that maps an IPv4 address is
    resolved in the IPv4 partition like the four bytes it maps: the same
    interface and preferred source, the same gateway up to the four-byte
    form, and the same error for the other form of the address. *)
Theorem X5_mapped_destination (r : router) (vs : visits) (input : net.HardwareAddr)
    (src dst : net.IP) :
  isNil (net.To4 dst) = false ->
  ans_iface (RouteWithSrc r vs input src dst)
  = ans_iface (RouteWithSrc r vs input src (net.To4 dst))
  /\ ans_preferredSrc (RouteWithSrc r vs input src dst)
     = ans_preferredSrc (RouteWithSrc r vs input src (net.To4 dst))
  /\ shortForm (ans_gateway (RouteWithSrc r vs input src dst))
     = shortForm (ans_gateway (RouteWithSrc r vs input src (net.To4 dst)))
  /\ ans_err (RouteWithSrc r vs input src (net.To4 dst))
     = option_map (withAddress (net.To4 dst)) (ans_err (RouteWithSrc r vs input src dst)).
Proof.
  intros E. unfold RouteWithSrc. rewrite (To4_To4 dst E), E. simpl negb. cbv iota.
  set (i := if negb (isNil input) then _ else _).
  assert (Hs : shortForm dst = shortForm (net.To4 dst))
    by (symmetry; apply shortForm_To4, E).
  unfold route. rewrite <- (scan_shortForm i src dst (net.To4 dst) _ Hs).
  destruct (scan i src dst (v4 r)) as [e |]; [| simpl; auto].
  destruct (derive_shortForm r vs e dst (net.To4 dst) false Hs) as (H1 & H2 & H3 & H4).
  rewrite H4. destruct (res_err (derive r vs e dst false)); simpl; rewrite ?H1; auto.
Qed.

Lemma X5_witness :
  ans_iface (RouteWithSrc homeRouter (someVisits homeRouter) None None
                          (net.IPv4 192 168 1 50))
  = ans_iface (RouteWithSrc homeRouter (someVisits homeRouter) None None
                            (net.To4 (net.IPv4 192 168 1 50)))
  /\ ans_preferredSrc (RouteWithSrc homeRouter (someVisits homeRouter) None None
                                    (net.IPv4 192 168 1 50))
     = ans_preferredSrc (RouteWithSrc homeRouter (someVisits homeRouter) None None
                                      (net.To4 (net.IPv4 192 168 1 50)))
  /\ shortForm (ans_gateway (RouteWithSrc homeRouter (someVisits homeRouter) None None
                                          (net.IPv4 192 168 1 50)))
     = shortForm (ans_gateway (RouteWithSrc homeRouter (someVisits homeRouter) None None
                                            (net.To4 (net.IPv4 192 168 1 50))))
  /\ ans_err (RouteWithSrc homeRouter (someVisits homeRouter) None None
                           (net.To4 (net.IPv4 192 168 1 50)))
     = option_map (withAddress (net.To4 (net.IPv4 192 168 1 50)))
                  (ans_err (RouteWithSrc homeRouter (someVisits homeRouter) None None
                                         (net.IPv4 192 168 1 50))).
Proof.
  apply (X5_mapped_destination homeRouter (someVisits homeRouter) None None
           (net.IPv4 192 168 1 50)).
  reflexivity.
Defined.

(** *** What a successful resolution returns *)

Lemma gatewayOf_present (e : rtInfo) (dst : net.IP) :
  isNil dst = false -> isNil (gatewayOf e dst) = false.
Proof.
  intros H. unfold gatewayOf. destruct (isNil (Gateway e)) eqn:E; simpl; [exact H |].
  destruct (net.IsUnspecified (Gateway e)); [exact H | exact E].
Qed.

Lemma valid_present (ip : net.IP) : validIP ip -> isNil ip = false.
Proof. intros [H | H]; destruct ip; try reflexivity; discriminate H. Qed.

(** A successful [derive] ends with an address that the search visits, whose
    prefix contains the gateway. *)
Lemma derive_success (r : router) (vs : visits) (e : rtInfo) (dst : net.IP) (ipv6 : bool) :
  visitsOf r vs ->
  res_err (derive r vs e dst ipv6) = None ->
  exists i a, searched r e ipv6 i a
              /\ net.Contains a (gatewayOf e dst) = true
              /\ isNil (net.IPNet_IP a) = false
              /\ derive r vs e dst ipv6
                 = mkRouteResult i (gatewayOf e dst) (net.IPNet_IP a) None.
Proof.
  intros (_ & Hpref & Hany). unfold derive, searched.
  destruct (OutputIface e =? 0) eqn:Hoif.
  - apply Z.eqb_eq in Hoif.
    set (st1 := if negb (isNil (PrefSrc e)) then _ else _).
    assert (H1 : st1 = (0, None)
                 \/ exists i ia a, (i, ia) ∈ visitAddrsPref vs /\ a ∈ family ipv6 ia
                                   /\ net.Contains a (gatewayOf e dst) = true
                                   /\ st1 = (i, net.IPNet_IP a)).
    { unfold st1. destruct (negb (isNil (PrefSrc e))); [| left; reflexivity].
      destruct (eachIface_spec (containsAndEqual (gatewayOf e dst) (PrefSrc e)) ipv6
                  (visitAddrsPref vs) (0, None))
        as [[_ ->] | (i & ia & a & Hi & Ha & Hp & ->)]; [left; reflexivity |].
      right. exists i, ia, a. apply containsAndEqual_true in Hp as [Hp _]. auto. }
    clearbody st1.
    destruct (isNil st1.2) eqn:Hnil1.
    + destruct (eachIface_spec (containsGateway (gatewayOf e dst)) ipv6
                  (visitAddrsAny vs) st1)
        as [[_ ->] | (i & ia & a & Hi & Ha & Hp & ->)].
      * rewrite Hnil1. simpl. discriminate.
      * simpl fst. simpl snd. destruct (isNil (net.IPNet_IP a)) eqn:Hnil; simpl;
          [discriminate |]. intros _. exists i, a.
        split; [split; [left; exact Hoif |]; exists ia;
                split; [apply (rangeOver_lookup _ _ _ _ Hany), Hi | exact Ha] |].
        split; [exact Hp |]. rewrite Hnil. auto.
    + rewrite Hnil1. intros _.
      destruct H1 as [-> | (i & ia & a & Hi & Ha & Hp & ->)]; [discriminate Hnil1 |].
      simpl in Hnil1. exists i, a.
      split; [split; [left; exact Hoif |]; exists ia;
              split; [apply (rangeOver_lookup _ _ _ _ Hpref), Hi | exact Ha] |].
      auto.
  - destruct (addrs r !! OutputIface e) as [ia |] eqn:Hia; [| simpl; discriminate].
    set (ps1 := if negb (isNil (PrefSrc e)) then _ else _).
    assert (H1 : ps1 = None
                 \/ exists a, a ∈ family ipv6 ia
                              /\ net.Contains a (gatewayOf e dst) = true
                              /\ ps1 = net.IPNet_IP a).
    { unfold ps1. destruct (negb (isNil (PrefSrc e))); [| left; reflexivity].
      destruct (pickAddr_spec (containsAndEqual (gatewayOf e dst) (PrefSrc e))
                  (family ipv6 ia) None)
        as [[_ ->] | (a & Ha & Hp & ->)]; [left; reflexivity |].
      right. exists a. apply containsAndEqual_true in Hp as [Hp _]. auto. }
    clearbody ps1.
    destruct (isNil ps1) eqn:Hnil1.
    + destruct (pickAddr_spec (containsGateway (gatewayOf e dst)) (family ipv6 ia) ps1)
        as [[_ ->] | (a & Ha & Hp & ->)].
      * rewrite Hnil1. simpl. discriminate.
      * destruct (isNil (net.IPNet_IP a)) eqn:Hnil; simpl; [discriminate |].
        intros _. exists (OutputIface e), a.
        split; [split; [right; reflexivity |]; exists ia; auto |].
        split; [exact Hp |]. auto.
    + rewrite Hnil1. intros _.
      destruct H1 as [-> | (a & Ha & Hp & ->)]; [discriminate Hnil1 |].
      exists (OutputIface e), a.
      split; [split; [right; reflexivity |]; exists ia; auto |]. auto.
Qed.

(** The answer of [RouteWithSrc] from the result of [route]. *)
Lemma RouteWithSrc_success (r : router) (vs : visits) (input : net.HardwareAddr)
    (src dst : net.IP) :
  ans_err (RouteWithSrc r vs input src dst) = None ->
  exists i ipv6 res,
    validIP dst
    /\ ipv6 = isNil (net.To4 dst)
    /\ route r vs i src dst ipv6 = res
    /\ res_err res = None
    /\ RouteWithSrc r vs input src dst
       = mkRouteAnswer (ifaces r !! res_iface res) (res_gateway res)
                       (res_preferredSrc res) None.
Proof.
  unfold RouteWithSrc. set (i := if negb (isNil input) then _ else _).
  destruct (isNil (net.To4 dst)) eqn:E4; simpl negb; cbv iota.
  - destruct (isNil (net.To16 dst)) eqn:E16; simpl negb; cbv iota; [simpl; discriminate |].
    destruct (res_err (route r vs i src dst true)) eqn:He; simpl; [discriminate |].
    intros _. exists i, true, (route r vs i src dst true).
    split; [apply To16_present_valid, E16 | auto].
  - destruct (res_err (route r vs i src dst false)) eqn:He; simpl; [discriminate |].
    intros _. exists i, false, (route r vs i src dst false).
    split; [apply To4_present_valid, E4 | auto].
Qed.

(** X6. When [RouteWithSrc] returns no error, the gateway and the preferred
    source of the answer are not nil; the preferred source is an address of
    an interface of the address index, in the family of the destination,
    whose prefix contains the gateway, and the interface of the answer is
    the entry of the interface index for this interface. *)
Theorem X6_successful_answer (r : router) (vs : visits) (input : net.HardwareAddr)
    (src dst : net.IP) :
  visitsOf r vs ->
  ans_err (RouteWithSrc r vs input src dst) = None ->
  isNil (ans_gateway (RouteWithSrc r vs input src dst)) = false
  /\ isNil (ans_preferredSrc (RouteWithSrc r vs input src dst)) = false
  /\ exists i ia a,
       addrs r !! i = Some ia
       /\ a ∈ family (isNil (net.To4 dst)) ia
       /\ net.Contains a (ans_gateway (RouteWithSrc r vs input src dst)) = true
       /\ ans_preferredSrc (RouteWithSrc r vs input src dst) = net.IPNet_IP a
       /\ ans_iface (RouteWithSrc r vs input src dst) = ifaces r !! i.
Proof.
  intros Hvs Herr.
  destruct (RouteWithSrc_success r vs input src dst Herr)
    as (i & ipv6 & res & Hv & -> & Hres & He & ->).
  subst res. unfold route in *.
  destruct (scan i src dst _) as [e |]; [| discriminate He].
  destruct (derive_success r vs e dst _ Hvs He) as (j & a & (_ & ia & Hia & Ha) & Hc & Hn & ->).
  simpl. split; [apply gatewayOf_present, valid_present, Hv |].
  split; [exact Hn |]. exists j, ia, a. auto.
Qed.

Lemma X6_witness :
  isNil (ans_gateway (Route homeRouter (someVisits homeRouter) (ip4 192 168 1 50))) = false
  /\ isNil (ans_preferredSrc (Route homeRouter (someVisits homeRouter) (ip4 192 168 1 50)))
     = false
  /\ exists i ia a,
       addrs homeRouter !! i = Some ia
       /\ a ∈ family (isNil (net.To4 (ip4 192 168 1 50))) ia
       /\ net.Contains a (ans_gateway (Route homeRouter (someVisits homeRouter)
                                             (ip4 192 168 1 50))) = true
       /\ ans_preferredSrc (Route homeRouter (someVisits homeRouter) (ip4 192 168 1 50))
          = net.IPNet_IP a
       /\ ans_iface (Route homeRouter (someVisits homeRouter) (ip4 192 168 1 50))
          = ifaces homeRouter !! i.
Proof.
  apply (X6_successful_answer homeRouter (someVisits homeRouter) None None
           (ip4 192 168 1 50)).
  - apply someVisits_ok.
  - evaluate.
Defined.

(** X7. The matched entry prefers a source, and one of the addresses that
    [route] searches for it equals this source and contains the gateway, an
    address of at least one byte: [route] succeeds with such an address as
    the preferred source, on the interface of that address. *)
Theorem X7_preferred_source (r : router) (vs : visits) (input : Z)
    (src dst : net.IP) (ipv6 : bool) (e : rtInfo) :
  visitsOf r vs ->
  scan input src dst (partitionOf r ipv6) = Some e ->
  isNil (PrefSrc e) = false ->
  len (gatewayOf e dst) <> 0 ->
  (exists i a, searched r e ipv6 i a
               /\ net.Contains a (gatewayOf e dst) = true
               /\ net.Equal (net.IPNet_IP a) (PrefSrc e) = true) ->
  exists i a,
    searched r e ipv6 i a
    /\ net.Contains a (gatewayOf e dst) = true
    /\ net.Equal (net.IPNet_IP a) (PrefSrc e) = true
    /\ isNil (net.IPNet_IP a) = false
    /\ route r vs input src dst ipv6
       = mkRouteResult i (gatewayOf e dst) (net.IPNet_IP a) None.
Proof.
  intros (_ & Hpref & _) Hs Hps Hgw (i0 & a0 & (Hoif0 & ia0 & Hia0 & Ha0) & Hc0 & He0).
  unfold route. fold (partitionOf r ipv6). rewrite Hs. unfold derive. rewrite Hps.
  simpl negb. cbv iota.
  assert (Hp0 : containsAndEqual (gatewayOf e dst) (PrefSrc e) a0 = true)
    by (unfold containsAndEqual; rewrite Hc0, He0; reflexivity).
  destruct (OutputIface e =? 0) eqn:Hoif.
  - apply Z.eqb_eq in Hoif.
    destruct (eachIface_spec (containsAndEqual (gatewayOf e dst) (PrefSrc e)) ipv6
                (visitAddrsPref vs) (0, None))
      as [[Hnone _] | (i & ia & a & Hi & Ha & Hp & ->)].
    + exfalso. apply (rangeOver_lookup _ _ _ _ Hpref) in Hia0.
      rewrite (Hnone i0 ia0 a0 Hia0 Ha0) in Hp0. discriminate.
    + apply containsAndEqual_true in Hp as [Hc He].
      pose proof (Contains_IP_present a (gatewayOf e dst) Hc Hgw) as Hnil.
      exists i, a. cbv zeta. cbn [fst snd]. rewrite Hnil. cbn [fst snd]. rewrite Hnil.
      split; [| conjuncts; auto]. split; [left; exact Hoif |].
      exists ia. split; [apply (rangeOver_lookup _ _ _ _ Hpref), Hi | exact Ha].
  - apply Z.eqb_neq in Hoif. destruct Hoif0 as [Hz | Hoif0]; [contradiction |].
    subst i0. rewrite Hia0.
    destruct (pickAddr_spec (containsAndEqual (gatewayOf e dst) (PrefSrc e))
                (family ipv6 ia0) None) as [[Hnone _] | (a & Ha & Hp & ->)].
    + exfalso. rewrite Forall_forall in Hnone. rewrite (Hnone a0 Ha0) in Hp0. discriminate.
    + apply containsAndEqual_true in Hp as [Hc He].
      pose proof (Contains_IP_present a (gatewayOf e dst) Hc Hgw) as Hnil.
      exists (OutputIface e), a. cbv zeta. rewrite Hnil. cbn [isNil negb]. rewrite Hnil.
      split; [| conjuncts; auto]. split; [right; reflexivity |]. exists ia0. auto.
Qed.

Lemma X7_witness :
  exists i a,
    searched (lanRouterWith [preferringRoute]) preferringRoute false i a
    /\ net.Contains a (gatewayOf preferringRoute (ip4 10 1 2 3)) = true
    /\ net.Equal (net.IPNet_IP a) (PrefSrc preferringRoute) = true
    /\ isNil (net.IPNet_IP a) = false
    /\ route (lanRouterWith [preferringRoute]) (someVisits (lanRouterWith [preferringRoute]))
             0 None (ip4 10 1 2 3) false
       = mkRouteResult i (gatewayOf preferringRoute (ip4 10 1 2 3)) (net.IPNet_IP a) None.
Proof.
  apply (X7_preferred_source (lanRouterWith [preferringRoute])
           (someVisits (lanRouterWith [preferringRoute])) 0 None (ip4 10 1 2 3) false
           preferringRoute).
  - apply someVisits_ok.
  - evaluate.
  - reflexivity.
  - vm_compute. discriminate.
  - exists 2, (cidr4 10 0 0 5 8). split; [| split; evaluate].
    split; [right; reflexivity |]. exists (mkIpAddrs [cidr4 10 0 0 5 8] []).
    split; [evaluate | apply list_elem_of_here].
Defined.

(** *** The order of the visits *)

Lemma eachAddr_none (p : net.IPNet -> bool) (i : Z) (l : list net.IPNet) (st : Z * net.IP) :
  Forall (fun a => p a = false) l -> eachAddr p i l st = st.
Proof.
  intros H. unfold eachAddr. induction H as [| x l Hx _ IH]; simpl; [reflexivity |].
  rewrite Hx. exact IH.
Qed.

Lemma eachAddr_last (p : net.IPNet -> bool) (i : Z) (l1 l2 : list net.IPNet)
    (a : net.IPNet) (st : Z * net.IP) :
  p a = true -> Forall (fun b => p b = false) l2 ->
  eachAddr p i (l1 ++ a :: l2) st = (i, net.IPNet_IP a).
Proof.
  intros Ha Hl2. unfold eachAddr. rewrite fold_left_app. simpl fold_left. rewrite Ha.
  apply (eachAddr_none p i l2 _ Hl2).
Qed.

Lemma eachIface_none (p : net.IPNet -> bool) (ipv6 : bool) (o : list (Z * ipAddrs))
    (st : Z * net.IP) :
  Forall (fun jb => Forall (fun b => p b = false) (family ipv6 (snd jb))) o ->
  eachIface p ipv6 o st = st.
Proof.
  intros H. unfold eachIface. induction H as [| x o Hx _ IH]; simpl; [reflexivity |].
  rewrite (eachAddr_none p _ _ st Hx). exact IH.
Qed.

Lemma eachIface_last (p : net.IPNet -> bool) (ipv6 : bool) (o1 o2 : list (Z * ipAddrs))
    (i : Z) (ia : ipAddrs) (l1 l2 : list net.IPNet) (a : net.IPNet) (st : Z * net.IP) :
  family ipv6 ia = l1 ++ a :: l2 ->
  p a = true -> Forall (fun b => p b = false) l2 ->
  Forall (fun jb => Forall (fun b => p b = false) (family ipv6 (snd jb))) o2 ->
  eachIface p ipv6 (o1 ++ (i, ia) :: o2) st = (i, net.IPNet_IP a).
Proof.
  intros Hf Ha Hl2 Ho2. unfold eachIface. rewrite fold_left_app. simpl fold_left.
  rewrite Hf, (eachAddr_last p i l1 l2 a _ Ha Hl2).
  apply (eachIface_none p ipv6 o2 _ Ho2).
Qed.

(** X8. The matched entry has neither output interface nor preferred
    source.  Of the addresses whose prefix contains the gateway, [route]
    returns the one that the loop over the address index visits last, with
    its interface: the answer follows the order in which Go ranges over the
    map. *)
Theorem X8_last_visited_wins (r : router) (vs : visits) (input : Z)
    (src dst : net.IP) (ipv6 : bool) (e : rtInfo)
    (o1 o2 : list (Z * ipAddrs)) (i : Z) (ia : ipAddrs)
    (l1 l2 : list net.IPNet) (a : net.IPNet) :
  scan input src dst (partitionOf r ipv6) = Some e ->
  OutputIface e = 0 ->
  PrefSrc e = None ->
  visitAddrsAny vs = o1 ++ (i, ia) :: o2 ->
  family ipv6 ia = l1 ++ a :: l2 ->
  net.Contains a (gatewayOf e dst) = true ->
  isNil (net.IPNet_IP a) = false ->
  noneContains (gatewayOf e dst) l2 ->
  Forall (fun jb => noneContains (gatewayOf e dst) (family ipv6 (snd jb))) o2 ->
  route r vs input src dst ipv6
  = mkRouteResult i (gatewayOf e dst) (net.IPNet_IP a) None.
Proof.
  intros Hs Hoif Hps Ho Hf Hc Hn Hl2 Ho2.
  unfold route. fold (partitionOf r ipv6). rewrite Hs. unfold derive.
  rewrite Hoif, Hps, Ho. simpl Z.eqb. simpl isNil. simpl negb. cbv iota zeta.
  cbn [fst snd isNil].
  rewrite (eachIface_last (containsGateway (gatewayOf e dst)) ipv6 o1 o2 i ia l1 l2 a
             (0, None) Hf Hc Hl2 Ho2).
  cbn [fst snd]. rewrite Hn. reflexivity.
Qed.

Lemma pairVisits_ok (a3 : net.IPNet) (upwards : bool) :
  visitsOf (pairRouter a3) (pairVisits a3 upwards).
Proof.
  assert (H : map_to_list (addrs (pairRouter a3))
              = [(3, mkIpAddrs [a3] []); (2, mkIpAddrs [cidr4 10 0 0 5 8] [])])
    by (vm_compute; reflexivity).
  unfold visitsOf, rangeOver, pairVisits. cbn [visitIfaces visitAddrsPref visitAddrsAny].
  rewrite H. split; [reflexivity |].
  destruct upwards; split; try reflexivity; apply perm_swap.
Qed.

(** The theorem on a router both of whose interfaces have an address in
    10.0.0.0/8: the two orders of the visits give two interfaces. *)
Lemma X8_witness :
  route (pairRouter (cidr4 10 0 0 6 8)) (pairVisits (cidr4 10 0 0 6 8) true)
        0 None (ip4 10 1 2 3) false
  = mkRouteResult 3 (ip4 10 1 2 3) (ip4 10 0 0 6) None
  /\ route (pairRouter (cidr4 10 0 0 6 8)) (pairVisits (cidr4 10 0 0 6 8) false)
           0 None (ip4 10 1 2 3) false
     = mkRouteResult 2 (ip4 10 1 2 3) (ip4 10 0 0 5) None.
Proof.
  split.
  - apply (X8_last_visited_wins (pairRouter (cidr4 10 0 0 6 8))
             (pairVisits (cidr4 10 0 0 6 8) true) 0 None (ip4 10 1 2 3) false
             route8 [(2, mkIpAddrs [cidr4 10 0 0 5 8] [])] [] 3
             (mkIpAddrs [cidr4 10 0 0 6 8] []) [] [] (cidr4 10 0 0 6 8));
      try reflexivity; constructor.
  - apply (X8_last_visited_wins (pairRouter (cidr4 10 0 0 6 8))
             (pairVisits (cidr4 10 0 0 6 8) false) 0 None (ip4 10 1 2 3) false
             route8 [(3, mkIpAddrs [cidr4 10 0 0 6 8] [])] [] 2
             (mkIpAddrs [cidr4 10 0 0 5 8] []) [] [] (cidr4 10 0 0 5 8));
      try reflexivity; constructor.
Defined.

(** X9. The answer of [route] does not depend on the order in which Go
    ranges over the address index when, for the matched entry without
    output interface, all the searched addresses whose prefix contains the
    gateway are the same address of the same interface. *)
Theorem X9_order_independent (r : router) (vs vs' : visits) (input : Z)
    (src dst : net.IP) (ipv6 : bool) :
  visitsOf r vs -> visitsOf r vs' ->
  (forall e i j a b,
      scan input src dst (partitionOf r ipv6) = Some e ->
      OutputIface e = 0 ->
      searched r e ipv6 i a -> searched r e ipv6 j b ->
      net.Contains a (gatewayOf e dst) = true ->
      net.Contains b (gatewayOf e dst) = true ->
      i = j /\ net.IPNet_IP a = net.IPNet_IP b) ->
  route r vs input src dst ipv6 = route r vs' input src dst ipv6.
Proof.
  intros (_ & Hpref & Hany) (_ & Hpref' & Hany') Huniq.
  unfold route. fold (partitionOf r ipv6).
  destruct (scan input src dst (partitionOf r ipv6)) as [e |] eqn:Hs; [| reflexivity].
  unfold derive. destruct (OutputIface e =? 0) eqn:Hoif; [| reflexivity].
  apply Z.eqb_eq in Hoif.
  (* a loop gives the same state for the two orders *)
  assert (Hsame : forall (p : net.IPNet -> bool) o o' st,
             (forall a, p a = true -> net.Contains a (gatewayOf e dst) = true) ->
             rangeOver (addrs r) o -> rangeOver (addrs r) o' ->
             eachIface p ipv6 o st = eachIface p ipv6 o' st).
  { intros p o o' st Hp Ho Ho'.
    destruct (eachIface_spec p ipv6 o st)
      as [[Hnone ->] | (i & ia & a & Hi & Ha & Hpa & ->)];
      destruct (eachIface_spec p ipv6 o' st)
        as [[Hnone' ->] | (j & ja & b & Hj & Hb & Hpb & ->)].
    - reflexivity.
    - apply (rangeOver_lookup _ _ _ _ Ho') in Hj.
      apply (rangeOver_lookup _ _ _ _ Ho) in Hj.
      rewrite (Hnone j ja b Hj Hb) in Hpb. discriminate.
    - apply (rangeOver_lookup _ _ _ _ Ho) in Hi.
      apply (rangeOver_lookup _ _ _ _ Ho') in Hi.
      rewrite (Hnone' i ia a Hi Ha) in Hpa. discriminate.
    - apply (rangeOver_lookup _ _ _ _ Ho) in Hi.
      apply (rangeOver_lookup _ _ _ _ Ho') in Hj.
      destruct (Huniq e i j a b eq_refl Hoif) as [-> ->]; try reflexivity.
      + split; [left; exact Hoif | exists ia; auto].
      + split; [left; exact Hoif | exists ja; auto].
      + apply Hp, Hpa.
      + apply Hp, Hpb. }
  rewrite (Hsame (containsAndEqual (gatewayOf e dst) (PrefSrc e))
             (visitAddrsPref vs) (visitAddrsPref vs') (0, None)
             (fun a H => proj1 (containsAndEqual_true _ _ a H)) Hpref Hpref').
  set (st1 := if negb (isNil (PrefSrc e)) then _ else _).
  rewrite (Hsame (containsGateway (gatewayOf e dst))
             (visitAddrsAny vs) (visitAddrsAny vs') st1 (fun a H => H) Hany Hany').
  reflexivity.
Qed.

(** The theorem on a router one of whose two interfaces reaches
    10.0.0.0/8: the two orders of the visits give the same answer. *)
Lemma X9_witness :
  route (pairRouter (cidr4 192 168 1 10 24)) (pairVisits (cidr4 192 168 1 10 24) true)
        0 None (ip4 10 1 2 3) false
  = route (pairRouter (cidr4 192 168 1 10 24)) (pairVisits (cidr4 192 168 1 10 24) false)
          0 None (ip4 10 1 2 3) false.
Proof.
  apply (X9_order_independent (pairRouter (cidr4 192 168 1 10 24))
           (pairVisits (cidr4 192 168 1 10 24) true)
           (pairVisits (cidr4 192 168 1 10 24) false)
           0 None (ip4 10 1 2 3) false); try apply pairVisits_ok.
  intros e i j a b Hs _ (_ & ia & Hia & Ha) (_ & ja & Hja & Hb) Hca Hcb.
  assert (Hs' : scan 0 None (ip4 10 1 2 3)
                     (partitionOf (pairRouter (cidr4 192 168 1 10 24)) false)
                = Some route8) by evaluate.
  rewrite Hs' in Hs. injection Hs as <-.
  assert (Hall : forall k ka c,
             addrs (pairRouter (cidr4 192 168 1 10 24)) !! k = Some ka ->
             c ∈ family false ka ->
             net.Contains c (gatewayOf route8 (ip4 10 1 2 3)) = true ->
             k = 2 /\ c = cidr4 10 0 0 5 8).
  { intros k ka c Hk Hc Hcc. unfold pairRouter in Hk. simpl in Hk.
    apply lookup_insert_Some in Hk as [[<- <-] | [_ Hk]].
    - simpl in Hc. apply list_elem_of_singleton in Hc. auto.
    - apply lookup_singleton_Some in Hk as [<- <-]. simpl in Hc.
      apply list_elem_of_singleton in Hc as ->. vm_compute in Hcc. discriminate. }
  destruct (Hall i ia a Hia Ha Hca) as [-> ->].
  destruct (Hall j ja b Hja Hb Hcb) as [-> ->]. auto.
Defined.

Lemma inputIndexOf_unique (input : net.HardwareAddr) (o : list (Z * net.Interface)) (i : Z) :
  (exists ifc, (i, ifc) ∈ o /\ bytes.Equal input (net.HardwareAddr_ ifc) = true) ->
  (forall j jfc, (j, jfc) ∈ o -> bytes.Equal input (net.HardwareAddr_ jfc) = true -> j = i) ->
  inputIndexOf input o = i.
Proof.
  induction o as [| [j jfc] rest IH]; intros (ifc & Hin & Heq) Huniq.
  - inversion Hin.
  - simpl. destruct (bytes.Equal input (net.HardwareAddr_ jfc)) eqn:E.
    + apply (Huniq j jfc); [apply list_elem_of_here | exact E].
    + apply IH.
      * exists ifc. split; [| exact Heq].
        apply elem_of_cons in Hin as [[= -> ->] | Hin]; [congruence | exact Hin].
      * intros k kfc Hk. apply (Huniq k kfc). apply list_elem_of_further, Hk.
Qed.

(** X10. When exactly one interface has the hardware address that
    [RouteWithSrc] is given, the loop over the interfaces ends with the
    index of this interface, in whatever order Go ranges over the map, and
    the answer is the same for two such orders. *)
Theorem X10_input_interface (r : router) (vs : visits) (hw : net.HardwareAddr)
    (i : Z) (ifc : net.Interface) :
  visitsOf r vs ->
  ifaces r !! i = Some ifc ->
  bytes.Equal hw (net.HardwareAddr_ ifc) = true ->
  (forall j jfc, ifaces r !! j = Some jfc ->
                 bytes.Equal hw (net.HardwareAddr_ jfc) = true -> j = i) ->
  inputIndexOf hw (visitIfaces vs) = i
  /\ forall o src dst,
       rangeOver (ifaces r) o ->
       RouteWithSrc r (mkVisits o (visitAddrsPref vs) (visitAddrsAny vs)) hw src dst
       = RouteWithSrc r vs hw src dst.
Proof.
  intros (Hifaces & _ & _) Hi Heq Huniq.
  assert (Hidx : forall o, rangeOver (ifaces r) o -> inputIndexOf hw o = i).
  { intros o Ho. apply inputIndexOf_unique.
    - exists ifc. split; [apply (rangeOver_lookup _ _ _ _ Ho), Hi | exact Heq].
    - intros j jfc Hj. apply (Huniq j jfc), (rangeOver_lookup _ _ _ _ Ho), Hj. }
  split; [apply Hidx, Hifaces |].
  intros o src dst Ho. unfold RouteWithSrc. cbn [visitIfaces].
  rewrite (Hidx o Ho), (Hidx _ Hifaces). reflexivity.
Qed.

Lemma X10_witness :
  inputIndexOf (Some [2; 0; 0; 0; 0; 1]) (visitIfaces (someVisits lanRouter)) = 2
  /\ forall o src dst,
       rangeOver (ifaces lanRouter) o ->
       RouteWithSrc lanRouter
                    (mkVisits o (visitAddrsPref (someVisits lanRouter))
                              (visitAddrsAny (someVisits lanRouter)))
                    (Some [2; 0; 0; 0; 0; 1]) src dst
       = RouteWithSrc lanRouter (someVisits lanRouter) (Some [2; 0; 0; 0; 0; 1]) src dst.
Proof.
  apply (X10_input_interface lanRouter (someVisits lanRouter) (Some [2; 0; 0; 0; 0; 1])
           2 eth0).
  - apply someVisits_ok.
  - reflexivity.
  - reflexivity.
  - intros j jfc Hj _. unfold lanRouter, lanIfaces in Hj. simpl in Hj.
    apply lookup_singleton_Some in Hj as [<- _]. reflexivity.
Defined.

(** ** The ingestion on Linux *)

Lemma withRoutes_nil (r : router) : withRoutes [] r = r.
Proof. destruct r. unfold withRoutes. simpl. rewrite !app_nil_r. reflexivity. Qed.

Lemma withRoutes_cons (m : NetlinkMessage) (msgs : list NetlinkMessage) (r : router) :
  withRoutes (m :: msgs) r
  = withRoutes msgs
      (if isRoute syscall.AF_INET m then appendV4 r (infoOf m)
       else if isRoute syscall.AF_INET6 m then appendV6 r (infoOf m) else r).
Proof.
  unfold withRoutes, isRoute, appendV4, appendV6. simpl List.filter.
  destruct (Header_Type m =? syscall.RTM_NEWROUTE); simpl andb; [| reflexivity].
  destruct (Z.eqb_spec (Family (Data m)) syscall.AF_INET) as [E | E].
  - rewrite E. simpl. rewrite <- app_assoc. reflexivity.
  - destruct (Family (Data m) =? syscall.AF_INET6); simpl; rewrite <- ?app_assoc;
      reflexivity.
Qed.

Lemma withRoutes_app (pre post : list NetlinkMessage) (r : router) :
  withRoutes (pre ++ post) r = withRoutes post (withRoutes pre r).
Proof.
  revert r. induction pre as [| m pre IH]; intros r.
  - rewrite withRoutes_nil. reflexivity.
  - simpl app. rewrite !withRoutes_cons. apply IH.
Qed.

(** The loop over readable messages goes on behind them with their routes
    appended. *)
Lemma readMessages_readable (pre rest : list NetlinkMessage) (r : router) :
  readable pre -> readMessages (pre ++ rest) r = readMessages rest (withRoutes pre r).
Proof.
  intros H. revert r. induction H as [| m pre (Hdone & Hparse & _) _ IH]; intros r.
  - rewrite withRoutes_nil. reflexivity.
  - simpl app. rewrite withRoutes_cons. simpl readMessages. unfold isRoute.
    apply Z.eqb_neq in Hdone. rewrite Hdone.
    destruct (Z.eqb_spec (Header_Type m) syscall.RTM_NEWROUTE) as [E | E]; simpl andb;
      [| apply IH].
    destruct (Hparse E) as [attrs Hattrs]. unfold infoOf. rewrite Hattrs. simpl default.
    destruct (Z.eqb_spec (Family (Data m)) syscall.AF_INET) as [E4 | E4]; simpl.
    + apply IH.
    + destruct (Family (Data m) =? syscall.AF_INET6); simpl; apply IH.
Qed.

Lemma readMessages_done (pre post : list NetlinkMessage) (m : NetlinkMessage) (r : router) :
  Header_Type m = syscall.NLMSG_DONE ->
  readMessages (pre ++ m :: post) r = readMessages pre r.
Proof.
  intros Hm. revert r. induction pre as [| x pre IH]; intros r.
  - simpl. rewrite Hm. reflexivity.
  - simpl. destruct (Header_Type x =? syscall.NLMSG_DONE); [reflexivity |].
    destruct (Header_Type x =? syscall.RTM_NEWROUTE); [| apply IH].
    destruct (ParsedAttrs x); [| reflexivity].
    repeat match goal with |- context [if ?c then _ else _] => destruct c end; apply IH.
Qed.

(** The loop leaves the two indexes of the router as they are. *)
Lemma readMessages_indexes (msgs : list NetlinkMessage) (r : router) :
  ifaces (fst (readMessages msgs r)) = ifaces r
  /\ addrs (fst (readMessages msgs r)) = addrs r.
Proof.
  revert r. induction msgs as [| m msgs IH]; intros r; [auto |].
  simpl. destruct (Header_Type m =? syscall.NLMSG_DONE); [auto |].
  destruct (Header_Type m =? syscall.RTM_NEWROUTE); [| apply IH].
  destruct (ParsedAttrs m); [| auto].
  repeat match goal with |- context [if ?c then _ else _] => destruct c end;
    try apply IH.
  - destruct (IH (appendV4 r (routeInfoOf (Data m) l))) as [H1 H2]. auto.
  - destruct (IH (appendV6 r (routeInfoOf (Data m) l))) as [H1 H2]. auto.
Qed.

(** The attributes of the route messages of the examples have four
    bytes. *)
Lemma intValues_examples (dstLen : Z) (a b c d : Z) :
  intValues (routeMessage dstLen [mkAttr syscall.RTA_DST [a; b; c; d];
                                  mkAttr syscall.RTA_OIF [2; 0; 0; 0]]).
Proof.
  intros _ attrs x [= <-] Hx _.
  apply elem_of_cons in Hx as [-> | Hx]; [simpl; lia |].
  apply list_elem_of_singleton in Hx as ->. simpl. lia.
Qed.

(** X15. The Linux [setupRouteTable] stops at the first message
    [NLMSG_DONE]: what follows it in the dump changes nothing, neither the
    table nor the error. *)
Theorem X15_stops_at_done (sortSort : routeSlice -> routeSlice)
    (pre post : list NetlinkMessage) (m : NetlinkMessage) (r : router) :
  Header_Type m = syscall.NLMSG_DONE ->
  setupRouteTable_linux sortSort (Some (pre ++ m :: post)) r
  = setupRouteTable_linux sortSort (Some pre) r.
Proof.
  intros Hm. unfold setupRouteTable_linux, ingestLinux.
  rewrite (readMessages_done pre post m r Hm). reflexivity.
Qed.

Lemma X15_witness :
  setupRouteTable_linux (sortRoutes sort.xorshiftNext)
    (Some ([subnetMessage 1]
           ++ mkMessage syscall.NLMSG_DONE (mkRouteInfoInMemory 0 0 0 0 0 0 0 0 0) None
           :: [hostMessage])) emptyRouter
  = setupRouteTable_linux (sortRoutes sort.xorshiftNext) (Some [subnetMessage 1]) emptyRouter.
Proof.
  apply (X15_stops_at_done (sortRoutes sort.xorshiftNext) [subnetMessage 1] [hostMessage]).
  reflexivity.
Defined.

(** X16. From a dump without the message [NLMSG_DONE] all of whose route
    messages parse and give the attributes read as an [int32] their four
    bytes, the Linux [setupRouteTable] takes the route messages of the
    family [AF_INET] into the IPv4 partition and those of the family
    [AF_INET6] into the IPv6 partition, one entry for each message in the
    order of the dump, and sorts the two partitions; messages of other types
    and routes of other families leave no entry, and the two indexes stay as
    they are. *)
Theorem X16_partition_by_family (sortSort : routeSlice -> routeSlice)
    (msgs : list NetlinkMessage) (r : router) :
  readable msgs ->
  setupRouteTable_linux sortSort (Some msgs) r
  = (mkRouter (ifaces r) (addrs r)
              (sortSort (v4 r ++ map infoOf (List.filter (isRoute syscall.AF_INET) msgs)))
              (sortSort (v6 r ++ map infoOf (List.filter (isRoute syscall.AF_INET6) msgs))),
     None).
Proof.
  intros H. unfold setupRouteTable_linux, ingestLinux.
  rewrite <- (app_nil_r msgs) at 1. rewrite (readMessages_readable msgs [] r H).
  reflexivity.
Qed.

Lemma X16_witness :
  setupRouteTable_linux (sortRoutes sort.xorshiftNext)
                        (Some [hostMessage; subnetMessage 1]) emptyRouter
  = (mkRouter (ifaces emptyRouter) (addrs emptyRouter)
       (sortRoutes sort.xorshiftNext
          (v4 emptyRouter
           ++ map infoOf (List.filter (isRoute syscall.AF_INET)
                                      [hostMessage; subnetMessage 1])))
       (sortRoutes sort.xorshiftNext
          (v6 emptyRouter
           ++ map infoOf (List.filter (isRoute syscall.AF_INET6)
                                      [hostMessage; subnetMessage 1]))),
     None).
Proof.
  apply (X16_partition_by_family (sortRoutes sort.xorshiftNext)
           [hostMessage; subnetMessage 1] emptyRouter).
  repeat (constructor; [split; [discriminate | split; [simpl; eauto | apply intValues_examples] ] |]).
  constructor.
Defined.

(** X17. Behind messages that are read without error and without panic,
    the first route message whose attributes do not parse ends the Linux
    [setupRouteTable] with the error, also when the route is of a family the
    table does not hold; the routes read before it stay in the partitions,
    which are not sorted. *)
Theorem X17_parse_error (sortSort : routeSlice -> routeSlice)
    (pre post : list NetlinkMessage) (m : NetlinkMessage) (r : router) :
  readable pre ->
  Header_Type m = syscall.RTM_NEWROUTE ->
  ParsedAttrs m = None ->
  setupRouteTable_linux sortSort (Some (pre ++ m :: post)) r
  = (withRoutes pre r, Some IngestionError).
Proof.
  intros Hpre Hm Hp. unfold setupRouteTable_linux, ingestLinux.
  rewrite (readMessages_readable pre (m :: post) r Hpre). simpl readMessages.
  rewrite Hm, Hp. reflexivity.
Qed.

Lemma X17_witness :
  setupRouteTable_linux (sortRoutes sort.xorshiftNext)
    (Some ([subnetMessage 1; hostMessage]
           ++ mkMessage syscall.RTM_NEWROUTE (mkRouteInfoInMemory 7 0 0 0 0 0 0 0 0) None
           :: [subnetMessage 2])) emptyRouter
  = (withRoutes [subnetMessage 1; hostMessage] emptyRouter, Some IngestionError).
Proof.
  apply (X17_parse_error (sortRoutes sort.xorshiftNext) [subnetMessage 1; hostMessage]
           [subnetMessage 2]); try reflexivity.
  repeat (constructor; [split; [discriminate | split; [simpl; eauto | apply intValues_examples] ] |]).
  constructor.
Defined.

Lemma Contains_malformed (n : net.IPNet) (ip : net.IP) :
  fst (net.networkNumberAndMask n) = None -> validIP ip -> net.Contains n ip = false.
Proof.
  intros Hn Hv. rewrite Contains_unfold. cbv zeta. rewrite Hn.
  change (len None) with 0.
  pose proof (shortForm_valid ip Hv) as Hs. apply Z.eqb_neq in Hs. rewrite Hs. reflexivity.
Qed.

Lemma networkNumberAndMask_no_mask (ip : net.IP) :
  fst (net.networkNumberAndMask (net.mkIPNet ip None)) = None.
Proof.
  unfold net.networkNumberAndMask. cbn [net.IPNet_IP net.IPNet_Mask].
  destruct (isNil (net.To4 ip) && _); reflexivity.
Qed.

Lemma Contains_no_mask (ip dst : net.IP) :
  validIP dst -> net.Contains (net.mkIPNet ip None) dst = false.
Proof. apply Contains_malformed, networkNumberAndMask_no_mask. Qed.

Lemma routeInfoOf_last_Dst (rt : routeInfoInMemory) (pre post : list NetlinkRouteAttr)
    (v : list Z) :
  Forall (fun a => Attr_Type a <> syscall.RTA_DST) post ->
  Dst (routeInfoOf rt (pre ++ mkAttr syscall.RTA_DST v :: post))
  = net.mkIPNet (Some v) (net.CIDRMask (DstLen rt) (Z.of_nat (length v) * 8)).
Proof.
  intros Hpost. unfold routeInfoOf. rewrite fold_left_app. simpl fold_left.
  rewrite (setAttr_Dst rt post _ Hpost).
  destruct (fold_left (setAttr rt) pre zeroRtInfo). reflexivity.
Qed.

(** X18. The destination of the entry that the Linux ingestion builds is
    the value of the last attribute [RTA_DST] of the route, with the mask of
    [DstLen] ones for the bits of the value.  For a value of four or sixteen
    bytes and a [DstLen] within its bits, the prefix length by which the
    table is ordered is [DstLen]; when [net.CIDRMask] gives no mask, the
    entry contains no destination. *)
Theorem X18_destination_of_route (rt : routeInfoInMemory)
    (pre post : list NetlinkRouteAttr) (v : list Z) :
  Forall (fun a => Attr_Type a <> syscall.RTA_DST) post ->
  Dst (routeInfoOf rt (pre ++ mkAttr syscall.RTA_DST v :: post))
  = net.mkIPNet (Some v) (net.CIDRMask (DstLen rt) (Z.of_nat (length v) * 8))
  /\ ((length v = 4%nat /\ 0 <= DstLen rt <= 32)
      \/ (length v = 16%nat /\ 0 <= DstLen rt <= 128) ->
      prefixLen (routeInfoOf rt (pre ++ mkAttr syscall.RTA_DST v :: post)) = DstLen rt)
  /\ (net.CIDRMask (DstLen rt) (Z.of_nat (length v) * 8) = None ->
      forall dst, validIP dst ->
                  net.Contains (Dst (routeInfoOf rt (pre ++ mkAttr syscall.RTA_DST v :: post)))
                               dst = false).
Proof.
  intros Hpost. pose proof (routeInfoOf_last_Dst rt pre post v Hpost) as Hd.
  split; [exact Hd |]. split.
  - unfold prefixLen. rewrite Hd. cbn [net.IPNet_Mask].
    intros [[-> H] | [-> H]].
    + apply (proj1 (countMaskOnes_CIDRMask (DstLen rt)) H).
    + apply (proj2 (countMaskOnes_CIDRMask (DstLen rt)) H).
  - intros Hm dst Hv. rewrite Hd, Hm. apply Contains_no_mask, Hv.
Qed.

Lemma X18_witness :
  Dst (routeInfoOf (mkRouteInfoInMemory syscall.AF_INET 24 0 0 254 3 0 1 0)
         ([mkAttr syscall.RTA_DST [10; 9; 9; 9]]
          ++ mkAttr syscall.RTA_DST [10; 0; 1; 0] :: [mkAttr syscall.RTA_OIF [2; 0; 0; 0]]))
  = net.mkIPNet (Some [10; 0; 1; 0]) (net.CIDRMask 24 32)
  /\ prefixLen (routeInfoOf (mkRouteInfoInMemory syscall.AF_INET 24 0 0 254 3 0 1 0)
                  ([mkAttr syscall.RTA_DST [10; 9; 9; 9]]
                   ++ mkAttr syscall.RTA_DST [10; 0; 1; 0]
                   :: [mkAttr syscall.RTA_OIF [2; 0; 0; 0]]))
     = 24.
Proof.
  destruct (X18_destination_of_route (mkRouteInfoInMemory syscall.AF_INET 24 0 0 254 3 0 1 0)
              [mkAttr syscall.RTA_DST [10; 9; 9; 9]] [mkAttr syscall.RTA_OIF [2; 0; 0; 0]]
              [10; 0; 1; 0]) as (H1 & H2 & _).
  - repeat constructor. discriminate.
  - split; [exact H1 |]. apply H2. left. split; [reflexivity | simpl; lia].
Defined.

(** ** The ingestion on Windows *)

Lemma fold_appendV4 (rows : list mibIPForwardRow2) (r : router) :
  fold_left (fun r row => appendV4 r (rowInfo4 row)) rows r
  = mkRouter (ifaces r) (addrs r) (v4 r ++ map rowInfo4 rows) (v6 r).
Proof.
  revert r. induction rows as [| row rows IH]; intros r; simpl.
  - rewrite app_nil_r. destruct r; reflexivity.
  - rewrite IH. unfold appendV4. simpl. rewrite <- app_assoc. reflexivity.
Qed.

Lemma fold_appendV6 (rows : list mibIPForwardRow2) (r : router) :
  fold_left (fun r row => appendV6 r (rowInfo6 row)) rows r
  = mkRouter (ifaces r) (addrs r) (v4 r) (v6 r ++ map rowInfo6 rows).
Proof.
  revert r. induction rows as [| row rows IH]; intros r; simpl.
  - rewrite app_nil_r. destruct r; reflexivity.
  - rewrite IH. unfold appendV6. simpl. rewrite <- app_assoc. reflexivity.
Qed.

(** What the Windows ingestion leaves when it ends without error. *)
Lemma ingestWindows_ok (table4 table6 : option (list mibIPForwardRow2)) (r r1 : router) :
  ingestWindows table4 table6 r = (r1, None) ->
  exists rows4 rows6,
    table4 = Some rows4 /\ table6 = Some rows6
    /\ r1 = mkRouter (ifaces r) (addrs r) (v4 r ++ map rowInfo4 rows4)
                     (v6 r ++ map rowInfo6 rows6).
Proof.
  unfold ingestWindows. destruct table4 as [rows4 |]; [| discriminate].
  destruct table6 as [rows6 |]; [| discriminate].
  rewrite fold_appendV6, fold_appendV4. intros [= <-]. exists rows4, rows6. auto.
Qed.

Lemma unsetOnWindows_rows (rows4 rows6 : list mibIPForwardRow2) (e : rtInfo) :
  e ∈ map rowInfo4 rows4 \/ e ∈ map rowInfo6 rows6 -> unsetOnWindows e.
Proof.
  intros [H | H]; apply list_elem_of_fmap in H as (row & -> & _);
    unfold unsetOnWindows; auto.
Qed.

(** The entries of a table that the Windows [setupRouteTable] builds for a
    router without routes. *)
Lemma setupRouteTable_windows_entries (sortSort : routeSlice -> routeSlice)
    (table4 table6 : option (list mibIPForwardRow2)) (r r' : router) :
  sortContract sortSort ->
  v4 r = [] -> v6 r = [] ->
  setupRouteTable_windows sortSort table4 table6 r = (r', None) ->
  ifaces r' = ifaces r /\ addrs r' = addrs r
  /\ exists rows4 rows6,
       table4 = Some rows4 /\ table6 = Some rows6
       /\ v4 r' ≡ₚ map rowInfo4 rows4 /\ v6 r' ≡ₚ map rowInfo6 rows6.
Proof.
  intros Hc H4 H6 H. apply finish_ok in H as (r1 & H & ->).
  apply ingestWindows_ok in H as (rows4 & rows6 & -> & -> & ->).
  rewrite H4, H6. simpl. split; [reflexivity |]. split; [reflexivity |].
  exists rows4, rows6. split; [reflexivity |]. split; [reflexivity |].
  split; apply Hc.
Qed.

(** ** [New] *)

Lemma fold_addAddr (l : list Addr) (acc : ipAddrs) :
  fold_left addAddr l acc
  = mkIpAddrs (addrs_v4 acc ++ addrs_v4 (addrsOf l)) (addrs_v6 acc ++ addrs_v6 (addrsOf l)).
Proof.
  revert acc. induction l as [| addr l IH]; intros [a4 a6].
  - simpl. rewrite !app_nil_r. reflexivity.
  - simpl fold_left. rewrite IH. destruct addr as [inet |]; [| reflexivity].
    assert (Hd : addrsOf (IPNetAddr inet :: l)
                 = if hasTo4 inet
                   then mkIpAddrs (inet :: addrs_v4 (addrsOf l)) (addrs_v6 (addrsOf l))
                   else mkIpAddrs (addrs_v4 (addrsOf l)) (inet :: addrs_v6 (addrsOf l)))
      by (unfold addrsOf, inetsOf; simpl; destruct (hasTo4 inet); reflexivity).
    rewrite Hd. unfold addAddr. fold (hasTo4 inet).
    destruct (hasTo4 inet); simpl; rewrite <- app_assoc; reflexivity.
Qed.

Lemma fold_addAddr_zero (l : list Addr) : fold_left addAddr l (mkIpAddrs [] []) = addrsOf l.
Proof. rewrite fold_addAddr. reflexivity. Qed.

Lemma indexesOf_cons (x : net.Interface * option (list Addr))
    (l : list (net.Interface * option (list Addr))) :
  indexesOf (x :: l) = net.Index (fst x) :: indexesOf l.
Proof. reflexivity. Qed.

Lemma elem_of_indexesOf (l : list (net.Interface * option (list Addr))) (i : Z) :
  i ∈ indexesOf l <-> exists ifc las, (ifc, las) ∈ l /\ net.Index ifc = i.
Proof.
  unfold indexesOf. rewrite list_elem_of_fmap. split.
  - intros ([ifc las] & -> & Hin). eauto.
  - intros (ifc & las & Hin & <-). exists (ifc, las). auto.
Qed.

(** What the loop over the interfaces leaves when it ends without error. *)
Lemma eachInterface_inl (l : list (net.Interface * option (list Addr))) (rtr rtr' : router) :
  eachInterface l rtr = inl rtr' ->
  NoDup (indexesOf l)
  /\ (forall i, i ∈ indexesOf l -> ifaces rtr !! i = None)
  /\ Forall (fun x => is_Some (snd x)) l
  /\ v4 rtr' = v4 rtr /\ v6 rtr' = v6 rtr
  /\ (forall i ifc, ifaces rtr' !! i = Some ifc <->
                    ifaces rtr !! i = Some ifc
                    \/ (net.Index ifc = i /\ exists las, (ifc, las) ∈ l))
  /\ (forall i ia, addrs rtr' !! i = Some ia <->
                   ((i ∉ indexesOf l) /\ addrs rtr !! i = Some ia)
                   \/ exists ifc las, (ifc, Some las) ∈ l /\ net.Index ifc = i
                                      /\ ia = addrsOf las).
Proof.
  revert rtr. induction l as [| [ifc0 las0] l IH]; intros rtr.
  - simpl. intros [= <-]. split; [constructor |]. split; [intros i Hi; inversion Hi |].
    split; [constructor |]. split; [reflexivity |]. split; [reflexivity |]. split.
    + intros i ifc. split; [auto |]. intros [H | (_ & las & H)]; [exact H | inversion H].
    + intros i ia. split.
      * intros H. left. split; [intros Hi; inversion Hi | exact H].
      * intros [[_ H] | (ifc & las & H & _)]; [exact H | inversion H].
  - simpl eachInterface.
    destruct (ifaces rtr !! net.Index ifc0) as [dup |] eqn:Hdup; [discriminate |].
    destruct las0 as [las0 |]; [| discriminate].
    rewrite fold_addAddr_zero. intros H.
    destruct (IH _ H) as (Hnd & Hfresh & Hall & H4 & H6 & Hif & Had). clear IH H.
    cbn [ifaces addrs v4 v6] in *.
    assert (Hnot : net.Index ifc0 ∉ indexesOf l).
    { intros Hin. specialize (Hfresh _ Hin). rewrite lookup_insert_eq in Hfresh.
      discriminate. }
    split; [rewrite indexesOf_cons; constructor; assumption |].
    split.
    { intros i Hi. rewrite indexesOf_cons in Hi.
      apply elem_of_cons in Hi as [-> | Hi]; [exact Hdup |].
      specialize (Hfresh i Hi). apply lookup_insert_None in Hfresh. tauto. }
    split; [constructor; [simpl; eauto | exact Hall] |].
    split; [exact H4 |]. split; [exact H6 |]. split.
    + intros i ifc. rewrite Hif, lookup_insert_Some. split.
      * intros [[[<- <-] | [Hne H]] | (Hi & las & Hin)].
        -- right. split; [reflexivity |]. exists (Some las0). apply list_elem_of_here.
        -- left. exact H.
        -- right. split; [exact Hi |]. exists las. apply list_elem_of_further, Hin.
      * intros [H | (Hi & las & Hin)].
        -- left. right. split; [congruence | exact H].
        -- apply elem_of_cons in Hin as [[= -> ->] | Hin].
           ++ left. left. auto.
           ++ right. split; [exact Hi |]. exists las. exact Hin.
    + intros i ia. rewrite Had, lookup_insert_Some, indexesOf_cons, not_elem_of_cons.
      cbn [fst]. split.
      * intros [[Hni [[<- <-] | [Hne H]]] | (ifc & las & Hin & Hi & ->)].
        -- right. exists ifc0, las0. split; [apply list_elem_of_here | auto].
        -- left. auto.
        -- right. exists ifc, las. split; [apply list_elem_of_further, Hin | auto].
      * intros [[[Hne Hni] H] | (ifc & las & Hin & Hi & ->)].
        -- left. split; [exact Hni |]. right. split; [congruence | exact H].
        -- apply elem_of_cons in Hin as [[= -> ->] | Hin].
           ++ left. split; [rewrite <- Hi; exact Hnot |]. left. auto.
           ++ right. exists ifc, las. auto.
Qed.

(** The loop ends without error when the indexes are new and without
    duplicate and no call of [Addrs] fails. *)
Lemma eachInterface_ok (l : list (net.Interface * option (list Addr))) (rtr : router) :
  NoDup (indexesOf l) ->
  (forall i, i ∈ indexesOf l -> ifaces rtr !! i = None) ->
  Forall (fun x => is_Some (snd x)) l ->
  exists rtr', eachInterface l rtr = inl rtr'.
Proof.
  revert rtr. induction l as [| [ifc0 las0] l IH]; intros rtr Hnd Hfresh Hall.
  - exists rtr. reflexivity.
  - rewrite indexesOf_cons in Hnd. apply NoDup_cons in Hnd as [Hnot Hnd].
    apply Forall_cons in Hall as [[las Hlas] Hall]. simpl in Hlas. subst las0.
    simpl eachInterface. rewrite (Hfresh (net.Index ifc0)) by apply list_elem_of_here.
    apply IH; [exact Hnd | | exact Hall].
    intros i Hi. cbn [ifaces]. apply lookup_insert_None. split.
    + apply Hfresh. rewrite indexesOf_cons. apply list_elem_of_further, Hi.
    + intros <-. apply Hnot, Hi.
Qed.

Lemma eachInterface_app (pre post : list (net.Interface * option (list Addr)))
    (rtr : router) :
  eachInterface (pre ++ post) rtr
  = match eachInterface pre rtr with
    | inl rtr1 => eachInterface post rtr1
    | inr e => inr e
    end.
Proof.
  revert rtr. induction pre as [| [ifc0 las0] pre IH]; intros rtr; [reflexivity |].
  simpl. destruct (ifaces rtr !! net.Index ifc0); [reflexivity |].
  destruct las0; [apply IH | reflexivity].
Qed.

(** X11. The first interface whose index an earlier interface has, or
    whose call of [Addrs] fails, ends [New] with the error for it, before
    the route table is read: the error names the interface and the earlier
    one in the first case, and is the error of [Addrs] in the second. *)
Theorem X11_New_first_failure
    (setupRouteTable : router -> option (router * option error))
    (pre post : list (net.Interface * option (list Addr)))
    (iface : net.Interface) (ifaceAddrs : option (list Addr)) :
  NoDup (indexesOf pre) ->
  Forall (fun x => is_Some (snd x)) pre ->
  (forall duplicated_iface las,
      (duplicated_iface, las) ∈ pre ->
      net.Index duplicated_iface = net.Index iface ->
      New setupRouteTable (Some (pre ++ (iface, ifaceAddrs) :: post))
      = Some (inr (DuplicatedIndex (net.Index iface) iface duplicated_iface)))
  /\ (net.Index iface ∉ indexesOf pre ->
      ifaceAddrs = None ->
      New setupRouteTable (Some (pre ++ (iface, ifaceAddrs) :: post))
      = Some (inr AddrsError)).
Proof.
  intros Hnd Hall.
  destruct (eachInterface_ok pre (mkRouter ∅ ∅ [] []) Hnd) as [rtr1 H1];
    [intros i _; apply lookup_empty | exact Hall |].
  destruct (eachInterface_inl pre _ rtr1 H1) as (_ & _ & _ & _ & _ & Hif & _).
  unfold New. rewrite eachInterface_app, H1. simpl eachInterface. split.
  - intros dup las Hin Hidx.
    assert (Hdup : ifaces rtr1 !! net.Index iface = Some dup)
      by (apply Hif; right; split; [exact Hidx | eauto]).
    rewrite Hdup. reflexivity.
  - intros Hnot ->.
    destruct (ifaces rtr1 !! net.Index iface) as [dup |] eqn:Hdup; [| reflexivity].
    exfalso. apply Hif in Hdup as [Hdup | (Hidx & las & Hin)].
    + cbn [ifaces] in Hdup. rewrite lookup_empty in Hdup. discriminate.
    + apply Hnot, elem_of_indexesOf. eauto.
Qed.

Lemma X11_witness :
  New setupRouteTable_other (Some ([(eth0, Some [])] ++ (eth0, None) :: []))
  = Some (inr (DuplicatedIndex (net.Index eth0) eth0 eth0)).
Proof.
  destruct (X11_New_first_failure setupRouteTable_other [(eth0, Some [])] [] eth0 None)
    as [H _].
  - repeat constructor. intros H. inversion H.
  - repeat constructor. simpl. eauto.
  - apply (H eth0 (Some [])); [apply list_elem_of_here | reflexivity].
Defined.

(** The loop over the interfaces from the router [New] starts with. *)
Lemma eachInterface_indexes (l : list (net.Interface * option (list Addr))) (rtr : router) :
  eachInterface l (mkRouter ∅ ∅ [] []) = inl rtr ->
  (forall i ifc, ifaces rtr !! i = Some ifc <->
                 net.Index ifc = i /\ exists las, (ifc, las) ∈ l)
  /\ (forall i ia, addrs rtr !! i = Some ia <->
                   exists ifc las, (ifc, Some las) ∈ l /\ net.Index ifc = i
                                   /\ ia = addrsOf las).
Proof.
  intros H. destruct (eachInterface_inl l _ rtr H) as (_ & _ & _ & _ & _ & Hif & Had).
  cbn [ifaces addrs] in *. split.
  - intros i ifc. rewrite Hif, lookup_empty. split; [intros [H0 | H0] |]; auto.
    discriminate.
  - intros i ia. rewrite Had, lookup_empty. split; [intros [[_ H0] | H0] |]; auto.
    discriminate.
Qed.

(** A router that [New] returns comes from the loop over the interfaces and
    from [setupRouteTable]. *)
Lemma New_inl (setupRouteTable : router -> option (router * option error))
    (interfaces : option (list (net.Interface * option (list Addr)))) (r : router) :
  New setupRouteTable interfaces = Some (inl r) ->
  exists l rtr,
    interfaces = Some l
    /\ eachInterface l (mkRouter ∅ ∅ [] []) = inl rtr
    /\ setupRouteTable rtr = Some (r, None).
Proof.
  unfold New. destruct interfaces as [l |]; [| discriminate].
  destruct (eachInterface l _) as [rtr | e] eqn:H; [| discriminate].
  destruct (setupRouteTable rtr) as [[r' [e |]] |] eqn:Hs; try discriminate.
  intros [= <-]. exists l, rtr. auto.
Qed.

(** X12. The router that [New] returns is the one [setupRouteTable] leaves
    for a router without routes whose two indexes have exactly the indexes
    of the interfaces, no two of which are equal: the interface index holds
    each interface under its index, and the address index holds for it, in
    order, the [*net.IPNet] addresses with a four-byte form as IPv4
    addresses and the other [*net.IPNet] addresses as IPv6 addresses. *)
Theorem X12_New_indexes
    (setupRouteTable : router -> option (router * option error))
    (l : list (net.Interface * option (list Addr))) (r : router) :
  New setupRouteTable (Some l) = Some (inl r) ->
  exists rtr,
    setupRouteTable rtr = Some (r, None)
    /\ v4 rtr = [] /\ v6 rtr = []
    /\ NoDup (indexesOf l)
    /\ (forall i ifc, ifaces rtr !! i = Some ifc <->
                      net.Index ifc = i /\ exists las, (ifc, las) ∈ l)
    /\ (forall i ia, addrs rtr !! i = Some ia <->
                     exists ifc las, (ifc, Some las) ∈ l /\ net.Index ifc = i
                                     /\ ia = addrsOf las)
    /\ (forall i, is_Some (addrs rtr !! i) <-> is_Some (ifaces rtr !! i)).
Proof.
  intros H. apply New_inl in H as (l' & rtr & [= <-] & H & Hs). exists rtr.
  destruct (eachInterface_inl l _ rtr H) as (Hnd & _ & Hall & H4 & H6 & _).
  destruct (eachInterface_indexes l rtr H) as [Hif Had].
  split; [exact Hs |]. split; [exact H4 |]. split; [exact H6 |].
  split; [exact Hnd |]. split; [exact Hif |]. split; [exact Had |].
  intros i. split.
  - intros [ia Hia]. apply Had in Hia as (ifc & las & Hin & Hi & _).
    exists ifc. apply Hif. eauto.
  - intros [ifc Hifc]. apply Hif in Hifc as (Hi & las & Hin).
    rewrite Forall_forall in Hall. destruct (Hall _ Hin) as [la Hla]. simpl in Hla.
    subst las. exists (addrsOf la). apply Had. eauto.
Qed.

Lemma New_thirteen : New thirteenSetup (Some lanReports) = Some (inl newRouter).
Proof. evaluate. Qed.

Lemma X12_witness :
  exists rtr,
    thirteenSetup rtr = Some (newRouter, None)
    /\ v4 rtr = [] /\ v6 rtr = []
    /\ NoDup (indexesOf lanReports)
    /\ (forall i ifc, ifaces rtr !! i = Some ifc <->
                      net.Index ifc = i /\ exists las, (ifc, las) ∈ lanReports)
    /\ (forall i ia, addrs rtr !! i = Some ia <->
                     exists ifc las, (ifc, Some las) ∈ lanReports /\ net.Index ifc = i
                                     /\ ia = addrsOf las)
    /\ (forall i, is_Some (addrs rtr !! i) <-> is_Some (ifaces rtr !! i)).
Proof.
  apply (X12_New_indexes thirteenSetup lanReports newRouter). evaluate.
Defined.

Lemma setupRouteTable_linux_indexes (sortSort : routeSlice -> routeSlice)
    (tab : option (list NetlinkMessage)) (r r' : router) :
  setupRouteTable_linux sortSort tab r = (r', None) ->
  ifaces r' = ifaces r /\ addrs r' = addrs r.
Proof.
  intros H. apply finish_ok in H as (r1 & H & ->). simpl.
  destruct tab as [msgs |]; [| discriminate]. simpl in H.
  pose proof (readMessages_indexes msgs r) as Hi. rewrite H in Hi. exact Hi.
Qed.

Lemma setupRouteTable_windows_indexes (sortSort : routeSlice -> routeSlice)
    (table4 table6 : option (list mibIPForwardRow2)) (r r' : router) :
  setupRouteTable_windows sortSort table4 table6 r = (r', None) ->
  ifaces r' = ifaces r /\ addrs r' = addrs r.
Proof.
  intros H. apply finish_ok in H as (r1 & H & ->).
  apply ingestWindows_ok in H as (rows4 & rows6 & _ & _ & ->). auto.
Qed.

Lemma elem_of_addrsOf (las : list Addr) (ipv6 : bool) (a : net.IPNet) :
  a ∈ family ipv6 (addrsOf las) -> IPNetAddr a ∈ las.
Proof.
  intros H.
  assert (Hin : a ∈ inetsOf las).
  { destruct ipv6; simpl in H; apply list_elem_of_In, filter_In in H as [H _];
      apply list_elem_of_In, H. }
  unfold inetsOf in Hin. apply list_elem_of_omap in Hin as ([inet |] & Hin & Heq);
    [| discriminate]. injection Heq as ->. exact Hin.
Qed.

(** X13. On a router that [New] returns on Linux or on Windows, an answer
    of [RouteWithSrc] without error has an interface: one of the interfaces
    that [net.Interfaces] reported, and the preferred source is one of the
    [*net.IPNet] addresses reported for it, whose prefix contains the
    gateway of the answer. *)
Theorem X13_answer_on_New (sortSort : routeSlice -> routeSlice)
    (tab : option (list NetlinkMessage))
    (table4 table6 : option (list mibIPForwardRow2))
    (l : list (net.Interface * option (list Addr)))
    (r : router) (vs : visits) (input : net.HardwareAddr) (src dst : net.IP) :
  New_linux sortSort tab (Some l) = Some (inl r)
  \/ New_windows sortSort table4 table6 (Some l) = Some (inl r) ->
  visitsOf r vs ->
  ans_err (RouteWithSrc r vs input src dst) = None ->
  exists iface ifaceAddrs a,
    (iface, Some ifaceAddrs) ∈ l
    /\ IPNetAddr a ∈ ifaceAddrs
    /\ ans_iface (RouteWithSrc r vs input src dst) = Some iface
    /\ ans_preferredSrc (RouteWithSrc r vs input src dst) = net.IPNet_IP a
    /\ net.Contains a (ans_gateway (RouteWithSrc r vs input src dst)) = true.
Proof.
  intros Hnew Hvs Herr.
  assert (Hr : exists rtr,
             ifaces r = ifaces rtr /\ addrs r = addrs rtr
             /\ eachInterface l (mkRouter ∅ ∅ [] []) = inl rtr).
  { destruct Hnew as [H | H]; [unfold New_linux in H | unfold New_windows in H];
      apply New_inl in H as (l' & rtr & [= <-] & Hl & Hs);
      exists rtr; injection Hs as Hs.
    - apply setupRouteTable_linux_indexes in Hs as [H1 H2]. auto.
    - apply setupRouteTable_windows_indexes in Hs as [H1 H2]. auto. }
  destruct Hr as (rtr & Hi & Ha & Hl).
  destruct (eachInterface_indexes l rtr Hl) as [Hif Had].
  destruct (RouteWithSrc_success r vs input src dst Herr)
    as (i & ipv6 & res & _ & -> & Hres & He & ->).
  subst res. unfold route in *.
  destruct (scan i src dst _) as [e |]; [| discriminate He].
  destruct (derive_success r vs e dst _ Hvs He)
    as (j & a & (_ & ia & Hia & Hin) & Hc & _ & ->).
  cbn [ans_iface ans_preferredSrc ans_gateway res_iface res_gateway res_preferredSrc].
  rewrite Ha in Hia. apply Had in Hia as (ifc & las & Hlas & Hidx & ->).
  exists ifc, las, a. split; [exact Hlas |].
  split; [apply (elem_of_addrsOf las _ a Hin) |].
  split; [| auto]. rewrite Hi. apply Hif. eauto.
Qed.

Lemma X13_witness :
  exists iface ifaceAddrs a,
    (iface, Some ifaceAddrs) ∈ lanReports
    /\ IPNetAddr a ∈ ifaceAddrs
    /\ ans_iface (Route newRouter (someVisits newRouter) (ip4 10 0 3 7)) = Some iface
    /\ ans_preferredSrc (Route newRouter (someVisits newRouter) (ip4 10 0 3 7))
       = net.IPNet_IP a
    /\ net.Contains a (ans_gateway (Route newRouter (someVisits newRouter) (ip4 10 0 3 7)))
       = true.
Proof.
  apply (X13_answer_on_New (sortRoutes sort.xorshiftNext) (Some thirteenMessages) None None
           lanReports newRouter (someVisits newRouter) None None (ip4 10 0 3 7)).
  - left. evaluate.
  - apply someVisits_ok.
  - evaluate.
Defined.

(** X14. On the platforms other than Linux and Windows [New] returns no
    router: it panics when [net.Interfaces] and every [Addrs] succeed and no
    two interfaces have the same index, and returns the error of the loop
    over the interfaces when not. *)
Theorem X14_New_on_other_platforms
    (interfaces : option (list (net.Interface * option (list Addr)))) :
  (forall r, New_other interfaces <> Some (inl r))
  /\ (New_other interfaces = None <->
      exists l, interfaces = Some l /\ NoDup (indexesOf l)
                /\ Forall (fun x => is_Some (snd x)) l).
Proof.
  unfold New_other, New, setupRouteTable_other. split.
  - intros r. destruct interfaces as [l |]; [| discriminate].
    destruct (eachInterface l _); discriminate.
  - destruct interfaces as [l |]; [| split; [discriminate | intros (l & H & _); discriminate]].
    split.
    + destruct (eachInterface l _) as [rtr | e] eqn:H; [| discriminate].
      intros _. exists l. apply eachInterface_inl in H as (Hnd & _ & Hall & _). auto.
    + intros (l' & [= <-] & Hnd & Hall).
      destruct (eachInterface_ok l (mkRouter ∅ ∅ [] []) Hnd) as [rtr ->];
        [intros i _; apply lookup_empty | exact Hall | reflexivity].
Qed.

(** *** The table of Windows in a resolution *)

Lemma scan_no_source (input : Z) (src dst : net.IP) (rs : routeSlice) :
  Forall (fun e => Src e = net.zeroIPNet) rs -> validIP src ->
  scan input src dst rs = None.
Proof.
  intros H Hv. induction H as [| e rs He _ IH]; [reflexivity |].
  rewrite (proj2 (absent_source_skipped input src dst e rs He Hv)). exact IH.
Qed.

(** The router that [New] returns on Windows. *)
Lemma New_windows_inl (sortSort : routeSlice -> routeSlice)
    (table4 table6 : option (list mibIPForwardRow2))
    (interfaces : option (list (net.Interface * option (list Addr)))) (r : router) :
  sortContract sortSort ->
  New_windows sortSort table4 table6 interfaces = Some (inl r) ->
  exists rows4 rows6,
    table4 = Some rows4 /\ table6 = Some rows6
    /\ v4 r ≡ₚ map rowInfo4 rows4 /\ v6 r ≡ₚ map rowInfo6 rows6
    /\ StronglySorted notAfter (v4 r) /\ StronglySorted notAfter (v6 r).
Proof.
  intros Hc H. unfold New_windows in H.
  apply New_inl in H as (l & rtr & _ & Hl & Hs). injection Hs as Hs.
  destruct (eachInterface_inl l _ rtr Hl) as (_ & _ & _ & H4 & H6 & _).
  cbn [v4 v6] in H4, H6.
  pose proof Hs as Hs'. apply finish_ok in Hs' as (r1 & _ & ->).
  destruct (setupRouteTable_windows_entries sortSort table4 table6 rtr _ Hc H4 H6 Hs)
    as (_ & _ & rows4 & rows6 & -> & -> & Hp4 & Hp6).
  exists rows4, rows6. split; [reflexivity |]. split; [reflexivity |].
  split; [exact Hp4 |]. split; [exact Hp6 |]. split; simpl; apply Hc.
Qed.

Lemma New_windows_unset (sortSort : routeSlice -> routeSlice)
    (table4 table6 : option (list mibIPForwardRow2))
    (interfaces : option (list (net.Interface * option (list Addr)))) (r : router)
    (ipv6 : bool) :
  sortContract sortSort ->
  New_windows sortSort table4 table6 interfaces = Some (inl r) ->
  Forall unsetOnWindows (partitionOf r ipv6).
Proof.
  intros Hc H.
  destruct (New_windows_inl sortSort table4 table6 interfaces r Hc H)
    as (rows4 & rows6 & _ & _ & Hp4 & Hp6 & _).
  apply Forall_forall. intros e He. apply (unsetOnWindows_rows rows4 rows6).
  destruct ipv6; simpl in He; [right; rewrite <- Hp6 | left; rewrite <- Hp4]; exact He.
Qed.

(** X19. On a router that [New] returns on Windows, [RouteWithSrc] with a
    source of four or sixteen bytes finds no route, whatever the table and
    the destination of four or sixteen bytes are: the Windows ingestion sets
    the source of no entry, and the source test of [route] fails on such an
    entry. *)
Theorem X19_source_on_Windows (sortSort : routeSlice -> routeSlice)
    (table4 table6 : option (list mibIPForwardRow2))
    (interfaces : option (list (net.Interface * option (list Addr))))
    (r : router) (vs : visits) (input : net.HardwareAddr) (src dst : net.IP) :
  sortContract sortSort ->
  New_windows sortSort table4 table6 interfaces = Some (inl r) ->
  validIP src -> validIP dst ->
  RouteWithSrc r vs input src dst
  = mkRouteAnswer None None None (Some (NoRouteFound dst)).
Proof.
  intros Hc H Hsrc Hdst.
  assert (Hscan : forall i ipv6, scan i src dst (partitionOf r ipv6) = None).
  { intros i ipv6. apply scan_no_source; [| exact Hsrc].
    eapply Forall_impl; [apply (New_windows_unset _ _ _ _ _ ipv6 Hc H) |].
    intros e (He & _). exact He. }
  unfold RouteWithSrc, route. set (i := if negb (isNil input) then _ else _).
  pose proof (Hscan i false) as H4. pose proof (Hscan i true) as H6. simpl in H4, H6.
  rewrite H4, H6.
  destruct (isNil (net.To4 dst)) eqn:E4; [| reflexivity].
  destruct (valid_To4_To16 dst Hdst) as [E | E]; [congruence |]. rewrite E. reflexivity.
Qed.

Lemma New_windowsRouter :
  New_windows (sortRoutes sort.xorshiftNext) (Some [defaultRow; linkRow]) (Some [])
              (Some lanReports)
  = Some (inl windowsRouter).
Proof. evaluate. Qed.

Lemma X19_witness :
  RouteWithSrc windowsRouter (someVisits windowsRouter) None (ip4 10 0 0 5) (ip4 10 1 2 3)
  = mkRouteAnswer None None None (Some (NoRouteFound (ip4 10 1 2 3)))
  /\ ans_err (Route windowsRouter (someVisits windowsRouter) (ip4 10 1 2 3)) = None.
Proof.
  split; [| evaluate].
  apply (X19_source_on_Windows (sortRoutes sort.xorshiftNext) (Some [defaultRow; linkRow])
           (Some []) (Some lanReports)).
  - apply sortRoutes_contract.
  - apply New_windowsRouter.
  - left. reflexivity.
  - left. reflexivity.
Defined.

(** The length of the prefix by which [Less] compares the entry of a row
    is the length of the row. *)
Lemma prefixLen_rowInfo (row : mibIPForwardRow2) :
  prefixLen (rowInfo4 row) = lengthOfRow 32 row
  /\ prefixLen (rowInfo6 row) = lengthOfRow 128 row.
Proof.
  assert (H : forall bits, bits = 32 \/ bits = 128 ->
             countMaskOnes (net.CIDRMask (PrefixLength (DestinationPrefix row)) bits)
             = lengthOfRow bits row).
  { intros bits Hbits. unfold lengthOfRow. cbv zeta.
    destruct (Z.leb_spec 0 (PrefixLength (DestinationPrefix row))) as [H0 | H0];
      [destruct (Z.leb_spec (PrefixLength (DestinationPrefix row)) bits) as [H1 | H1] |];
      simpl andb; cbv iota.
    - rewrite countMaskOnes_onesOf by apply CIDRMask_bytes.
      apply onesOf_CIDRMask; [exact Hbits | lia].
    - unfold net.CIDRMask. destruct (negb _ && negb _); [reflexivity |].
      destruct (Z.ltb_spec bits (PrefixLength (DestinationPrefix row))); [| lia].
      rewrite orb_true_r. reflexivity.
    - unfold net.CIDRMask. destruct (negb _ && negb _); [reflexivity |].
      destruct (Z.ltb_spec (PrefixLength (DestinationPrefix row)) 0); [| lia].
      reflexivity. }
  split; apply H; auto.
Qed.

(** X20. Each partition of a router that [New] returns on Windows holds
    the entries of the rows of its table, ordered by the [PrefixLength] of
    the rows, longest first, and among the rows of one length by their
    [Metric], smallest first; a [PrefixLength] that is no length of the
    family counts as zero. *)
Theorem X20_order_on_Windows (sortSort : routeSlice -> routeSlice)
    (table4 table6 : option (list mibIPForwardRow2))
    (interfaces : option (list (net.Interface * option (list Addr))))
    (r : router) :
  sortContract sortSort ->
  New_windows sortSort table4 table6 interfaces = Some (inl r) ->
  exists rows4 rows6,
    table4 = Some rows4 /\ table6 = Some rows6
    /\ v4 r ≡ₚ map rowInfo4 rows4 /\ v6 r ≡ₚ map rowInfo6 rows6
    /\ (forall (i j : nat) (rowa rowb : mibIPForwardRow2),
          (i < j)%nat ->
          v4 r !! i = Some (rowInfo4 rowa) -> v4 r !! j = Some (rowInfo4 rowb) ->
          lengthOfRow 32 rowb <= lengthOfRow 32 rowa
          /\ (lengthOfRow 32 rowa = lengthOfRow 32 rowb -> Metric rowa <= Metric rowb))
    /\ (forall (i j : nat) (rowa rowb : mibIPForwardRow2),
          (i < j)%nat ->
          v6 r !! i = Some (rowInfo6 rowa) -> v6 r !! j = Some (rowInfo6 rowb) ->
          lengthOfRow 128 rowb <= lengthOfRow 128 rowa
          /\ (lengthOfRow 128 rowa = lengthOfRow 128 rowb -> Metric rowa <= Metric rowb)).
Proof.
  intros Hc H.
  destruct (New_windows_inl _ _ _ _ _ Hc H)
    as (rows4 & rows6 & -> & -> & Hp4 & Hp6 & Hs4 & Hs6).
  exists rows4, rows6. split; [reflexivity |]. split; [reflexivity |].
  split; [exact Hp4 |]. split; [exact Hp6 |]. split.
  - intros i j rowa rowb Hij Hi Hj.
    destruct (sorted_ordered _ Hs4 i j _ _ Hij Hi Hj) as [H1 H2].
    rewrite !(proj1 (prefixLen_rowInfo _)) in H1, H2. split; [exact H1 |].
    intros He. specialize (H2 He). simpl in H2. lia.
  - intros i j rowa rowb Hij Hi Hj.
    destruct (sorted_ordered _ Hs6 i j _ _ Hij Hi Hj) as [H1 H2].
    rewrite !(proj2 (prefixLen_rowInfo _)) in H1, H2. split; [exact H1 |].
    intros He. specialize (H2 He). simpl in H2. lia.
Qed.

(** The theorem on the table of the default route and the network on the
    link, supplied in this order: the network, of length 8, stands in front
    of the default route, of length 0. *)
Lemma X20_witness :
  (exists rows4 rows6,
      Some [defaultRow; linkRow] = Some rows4 /\ Some [] = Some rows6
      /\ v4 windowsRouter ≡ₚ map rowInfo4 rows4 /\ v6 windowsRouter ≡ₚ map rowInfo6 rows6
      /\ (forall (i j : nat) (rowa rowb : mibIPForwardRow2),
            (i < j)%nat ->
            v4 windowsRouter !! i = Some (rowInfo4 rowa) ->
            v4 windowsRouter !! j = Some (rowInfo4 rowb) ->
            lengthOfRow 32 rowb <= lengthOfRow 32 rowa
            /\ (lengthOfRow 32 rowa = lengthOfRow 32 rowb -> Metric rowa <= Metric rowb))
      /\ (forall (i j : nat) (rowa rowb : mibIPForwardRow2),
            (i < j)%nat ->
            v6 windowsRouter !! i = Some (rowInfo6 rowa) ->
            v6 windowsRouter !! j = Some (rowInfo6 rowb) ->
            lengthOfRow 128 rowb <= lengthOfRow 128 rowa
            /\ (lengthOfRow 128 rowa = lengthOfRow 128 rowb -> Metric rowa <= Metric rowb)))
  /\ v4 windowsRouter = [rowInfo4 linkRow; rowInfo4 defaultRow]
  /\ lengthOfRow 32 linkRow = 8 /\ lengthOfRow 32 defaultRow = 0.
Proof.
  split; [| split; [evaluate | split; reflexivity]].
  apply (X20_order_on_Windows (sortRoutes sort.xorshiftNext) (Some [defaultRow; linkRow])
           (Some []) (Some lanReports) windowsRouter).
  - apply sortRoutes_contract.
  - apply New_windowsRouter.
Defined.

(** *** The rows of Windows *)

Lemma copyInto_length (n : nat) (s : list Z) : length (copyInto n s) = n.
Proof. unfold copyInto. rewrite length_app, length_take, length_replicate. lia. Qed.

(** Takes a list of known length apart into its elements. *)
Ltac elements l H :=
  repeat (destruct l as [| ? l]; [discriminate H |]);
  destruct l; [| discriminate H].

Lemma Contains_all (ip dst : list Z) :
  length ip = 4%nat -> isNil (net.To4 (Some dst)) = false ->
  net.Contains (net.mkIPNet (Some ip) (net.CIDRMask 0 32)) (Some dst) = true.
Proof.
  intros Hip Hdst. rewrite Contains_unfold. cbv zeta.
  assert (Hs : len (shortForm (Some dst)) = 4)
    by (unfold shortForm; rewrite Hdst; apply To4_len, Hdst).
  destruct ip as [| a [| b [| c [| d [|]]]]]; try discriminate Hip.
  change (net.networkNumberAndMask (net.mkIPNet (Some [a; b; c; d]) (net.CIDRMask 0 32)))
    with (Some [a; b; c; d], Some [0; 0; 0; 0]).
  rewrite Hs. cbn [fst snd elems]. change (len (Some [a; b; c; d])) with 4.
  simpl. rewrite !Z.land_0_r. reflexivity.
Qed.

(** X21. The prefix length by which an entry of Windows is ordered is the
    [PrefixLength] of its row when this is a length of the family.  A row of
    the IPv4 table with a greater [PrefixLength] gives an entry that
    contains no destination, and a row with the [PrefixLength] zero, the
    default route, one that contains every destination with a four-byte
    form. *)
Theorem X21_prefix_of_row (row : mibIPForwardRow2) :
  (0 <= PrefixLength (DestinationPrefix row) <= 32 ->
   prefixLen (rowInfo4 row) = PrefixLength (DestinationPrefix row))
  /\ (0 <= PrefixLength (DestinationPrefix row) <= 128 ->
      prefixLen (rowInfo6 row) = PrefixLength (DestinationPrefix row))
  /\ (32 < PrefixLength (DestinationPrefix row) ->
      forall dst, validIP dst -> net.Contains (Dst (rowInfo4 row)) dst = false)
  /\ (PrefixLength (DestinationPrefix row) = 0 ->
      forall dst, isNil (net.To4 dst) = false ->
                  net.Contains (Dst (rowInfo4 row)) dst = true).
Proof.
  conjuncts.
  - intros H. apply (proj1 (countMaskOnes_CIDRMask _) H).
  - intros H. apply (proj2 (countMaskOnes_CIDRMask _) H).
  - intros H dst Hv. unfold rowInfo4. cbn [Dst].
    assert (Hm : net.CIDRMask (PrefixLength (DestinationPrefix row)) 32 = None).
    { unfold net.CIDRMask. simpl negb. cbn [andb].
      destruct (Z.ltb_spec 32 (PrefixLength (DestinationPrefix row))); [| lia].
      rewrite orb_true_r. reflexivity. }
    rewrite Hm. apply Contains_no_mask, Hv.
  - intros H dst Hdst. unfold rowInfo4. cbn [Dst]. rewrite H.
    destruct dst as [dst |]; [| discriminate Hdst].
    apply Contains_all; [apply copyInto_length | exact Hdst].
Qed.

Lemma X21_witness :
  prefixLen (rowInfo4 linkRow) = 8
  /\ forall dst, isNil (net.To4 dst) = false ->
                 net.Contains (Dst (rowInfo4 defaultRow)) dst = true.
Proof.
  destruct (X21_prefix_of_row linkRow) as (H1 & _).
  destruct (X21_prefix_of_row defaultRow) as (_ & _ & _ & H4).
  split; [apply H1; simpl; lia | apply H4; reflexivity].
Defined.

(** X22. The gateway that [route] derives from an entry of the IPv4 table
    of Windows is the destination when the next hop of the row is 0.0.0.0,
    as it is for a network on the link, and the next hop when not; for an
    entry of the IPv6 table it is the destination when the next hop is [::]
    or [::ffff:0.0.0.0]. *)
Theorem X22_gateway_of_row (row : mibIPForwardRow2) (dst : net.IP) :
  gatewayOf (rowInfo4 row) dst
  = (if net.allZero (copyInto 4 (SinAddr (NextHop row))) then dst
     else Some (copyInto 4 (SinAddr (NextHop row))))
  /\ gatewayOf (rowInfo6 row) dst
     = (if net.allZero (copyInto 16 (Sin6Addr (NextHop row)))
           || bytes.equalList (copyInto 16 (Sin6Addr (NextHop row))) (elems net.IPv4zero)
        then dst
        else Some (copyInto 16 (Sin6Addr (NextHop row)))).
Proof.
  unfold gatewayOf, rowInfo4, rowInfo6. cbn [Gateway isNil orb]. split.
  - pose proof (copyInto_length 4 (SinAddr (NextHop row))) as Hl.
    set (l := copyInto 4 (SinAddr (NextHop row))) in *. clearbody l.
    elements l Hl.
    unfold net.IsUnspecified, net.Equal, net.IPv4zero, net.IPv6unspecified, net.IPv4,
      net.allZero. simpl. rewrite !andb_true_r, orb_false_r. reflexivity.
  - pose proof (copyInto_length 16 (Sin6Addr (NextHop row))) as Hl.
    set (l := copyInto 16 (Sin6Addr (NextHop row))) in *. clearbody l.
    elements l Hl.
    unfold net.IsUnspecified, net.Equal, net.IPv4zero, net.IPv6unspecified, net.IPv4,
      net.allZero. simpl. rewrite !andb_true_r.
    rewrite orb_comm. reflexivity.
Qed.

(** ** The match in an ordered table *)

Lemma cidrBytes_length (l : nat) (n : Z) : length (net.cidrBytes l n) = l.
Proof.
  revert n. induction l as [| l IH]; intros n; simpl; [reflexivity |].
  destruct (8 <=? n); simpl; rewrite IH; reflexivity.
Qed.

Lemma CIDRMask_len (ones bits : Z) :
  (bits = 32 \/ bits = 128) -> 0 <= ones <= bits ->
  len (net.CIDRMask ones bits) = bits / 8.
Proof.
  intros Hb Ho. unfold net.CIDRMask, net.IPv4len, net.IPv6len.
  assert (H1 : negb (bits =? 8 * 4) && negb (bits =? 8 * 16) = false)
    by (destruct Hb as [-> | ->]; reflexivity).
  rewrite H1.
  destruct (Z.ltb_spec ones 0); [lia |]. destruct (Z.ltb_spec bits ones); [lia |].
  simpl orb. cbv iota. unfold len. cbn [elems]. rewrite cidrBytes_length.
  destruct Hb as [-> | ->]; reflexivity.
Qed.

(** A prefix of a value of four or sixteen bytes with the mask of its
    family has a network number of four or sixteen bytes. *)
Lemma networkNumber_present (v : list Z) (ones : Z) :
  length v = 4%nat \/ length v = 16%nat ->
  0 <= ones <= Z.of_nat (length v) * 8 ->
  len (fst (net.networkNumberAndMask
              (net.mkIPNet (Some v) (net.CIDRMask ones (Z.of_nat (length v) * 8))))) <> 0.
Proof.
  intros Hl Ho. unfold net.networkNumberAndMask. cbn [net.IPNet_IP net.IPNet_Mask].
  destruct Hl as [Hl | Hl]; rewrite Hl in *.
  - assert (H4 : net.To4 (Some v) = Some v)
      by (unfold net.To4, len; cbn [elems]; rewrite Hl; reflexivity).
    rewrite H4. cbn [isNil andb].
    rewrite (CIDRMask_len ones (Z.of_nat 4 * 8)) by (simpl; lia).
    assert (Hv : len (Some v) = 4) by (unfold len; cbn [elems]; rewrite Hl; reflexivity).
    change (Z.of_nat 4 * 8 / 8 =? net.IPv4len) with true. cbv iota.
    rewrite Hv. simpl. rewrite Hv. lia.
  - rewrite (CIDRMask_len ones (Z.of_nat 16 * 8)) by (simpl; lia).
    change (Z.of_nat 16 * 8 / 8 =? net.IPv4len) with false.
    change (Z.of_nat 16 * 8 / 8 =? net.IPv6len) with true. cbv iota.
    assert (Hv : len (Some v) = 16) by (unfold len; cbn [elems]; rewrite Hl; reflexivity).
    destruct (isNil (net.To4 (Some v))) eqn:E4.
    + rewrite Hv. simpl. rewrite Hv. lia.
    + cbn [andb]. rewrite (To4_len (Some v) E4). simpl. rewrite (To4_len (Some v) E4). lia.
Qed.

(** X23. An entry whose source prefix is one that the Linux ingestion
    builds from an attribute [RTA_SRC], a value of four or sixteen bytes
    with a [SrcLen] within its bits, is matched for no source without bytes:
    [Route], which passes a nil source, never goes through such an entry. *)
Theorem X23_source_routes_need_a_source (e : rtInfo) (v : list Z) (srcLen : Z)
    (src : net.IP) :
  Src e = net.mkIPNet (Some v) (net.CIDRMask srcLen (Z.of_nat (length v) * 8)) ->
  length v = 4%nat \/ length v = 16%nat ->
  0 <= srcLen <= Z.of_nat (length v) * 8 ->
  len src = 0 ->
  net.Contains (Src e) src = false
  /\ forall input dst rs, scan input src dst rs <> Some e.
Proof.
  intros Hsrc Hl Ho Hs.
  assert (Hc : net.Contains (Src e) src = false).
  { rewrite Hsrc, Contains_unfold. cbv zeta.
    assert (Hsf : len (shortForm src) = 0).
    { unfold shortForm, net.To4, net.IPv4len, net.IPv6len. rewrite Hs. exact Hs. }
    rewrite Hsf. pose proof (networkNumber_present v srcLen Hl Ho) as Hn.
    destruct (Z.eqb_spec 0 (len (fst (net.networkNumberAndMask
        (net.mkIPNet (Some v) (net.CIDRMask srcLen (Z.of_nat (length v) * 8)))))));
      [lia | reflexivity]. }
  split; [exact Hc |].
  intros input dst rs H. apply scan_Some in H as (_ & _ & _ & _ & _ & H & _). congruence.
Qed.

Lemma X23_witness :
  net.Contains (Src (routeInfoOf (mkRouteInfoInMemory syscall.AF_INET 8 24 0 254 3 0 1 0)
                       [mkAttr syscall.RTA_SRC [192; 168; 1; 0]])) None = false
  /\ forall input dst rs,
       scan input None dst rs
       <> Some (routeInfoOf (mkRouteInfoInMemory syscall.AF_INET 8 24 0 254 3 0 1 0)
                  [mkAttr syscall.RTA_SRC [192; 168; 1; 0]]).
Proof.
  apply (X23_source_routes_need_a_source _ [192; 168; 1; 0] 24 None).
  - reflexivity.
  - left. reflexivity.
  - simpl. lia.
  - reflexivity.
Defined.

(** X24. In a partition with the ordering invariant, the entry that
    [route] matches is a best one among the entries of the partition that
    pass the three tests: none of them has a longer destination prefix, and
    none of the same prefix length has a smaller priority, or the same
    priority and a smaller metric. *)
Theorem X24_best_match (r : router) (input : Z) (src dst : net.IP) (ipv6 : bool)
    (e e' : rtInfo) :
  ordered (partitionOf r ipv6) ->
  scan input src dst (partitionOf r ipv6) = Some e ->
  e' ∈ partitionOf r ipv6 ->
  matches input src dst e' ->
  prefixLen e' <= prefixLen e
  /\ (prefixLen e' = prefixLen e ->
      Priority e < Priority e'
      \/ (Priority e = Priority e' /\ Metrics e <= Metrics e')).
Proof.
  intros Hord Hs Hin Hm.
  apply scan_Some in Hs as (pre & post & Heq & Hpre & _). rewrite Heq in Hin, Hord.
  apply elem_of_app in Hin as [Hin | Hin].
  { rewrite Forall_forall in Hpre. exfalso. apply (Hpre e' Hin), Hm. }
  apply elem_of_cons in Hin as [-> | Hin]; [lia |].
  apply list_elem_of_lookup in Hin as [k Hk].
  destruct (Hord (length pre) (length pre + S k)%nat e e') as [H1 H2].
  - lia.
  - rewrite lookup_app_r by lia. rewrite Nat.sub_diag. reflexivity.
  - rewrite lookup_app_r by lia.
    replace (length pre + S k - length pre)%nat with (S k) by lia. exact Hk.
  - split; [exact H1 |]. intros He. apply H2. lia.
Qed.

Lemma X24_witness :
  prefixLen route8 <= prefixLen route16
  /\ (prefixLen route8 = prefixLen route16 ->
      Priority route16 < Priority route8
      \/ (Priority route16 = Priority route8 /\ Metrics route16 <= Metrics route8)).
Proof.
  apply (X24_best_match (sortTables (sortRoutes sort.xorshiftNext)
                                    (lanRouterWith [route8; route16]))
           0 None (ip4 10 1 2 3) false route16 route8).
  - apply (sortTables_ordered (sortRoutes sort.xorshiftNext)
             (sortRoutes_contract sort.xorshiftNext)).
  - evaluate.
  - simpl. rewrite (proj1 (sortRoutes_two sort.xorshiftNext)).
    apply list_elem_of_further, list_elem_of_here.
  - unfold matches. split; [evaluate |]. split; [evaluate | left; reflexivity].
Defined.

(** ** The two families *)

Lemma family_keepFamily (ipv6 : bool) (a : ipAddrs) :
  family ipv6 (keepFamily ipv6 a) = family ipv6 a.
Proof. destruct ipv6; reflexivity. Qed.

Lemma eachIface_keepFamily (p : net.IPNet -> bool) (ipv6 : bool) (o : list (Z * ipAddrs))
    (st : Z * net.IP) :
  eachIface p ipv6 (map (fun x => (fst x, keepFamily ipv6 (snd x))) o) st
  = eachIface p ipv6 o st.
Proof.
  unfold eachIface. revert st. induction o as [| x o IH]; intros st; [reflexivity |].
  simpl. rewrite family_keepFamily. apply IH.
Qed.

Lemma derive_onlyFamily (r : router) (vs : visits) (e : rtInfo) (dst : net.IP) (ipv6 : bool) :
  derive (onlyFamily ipv6 r) (onlyFamilyVisits ipv6 vs) e dst ipv6 = derive r vs e dst ipv6.
Proof.
  unfold derive, onlyFamily, onlyFamilyVisits.
  cbn [addrs visitAddrsPref visitAddrsAny]. rewrite !eachIface_keepFamily.
  destruct (OutputIface e =? 0); [reflexivity |].
  rewrite lookup_fmap. destruct (addrs r !! OutputIface e) as [ia |]; [| reflexivity].
  simpl. rewrite family_keepFamily. reflexivity.
Qed.

Lemma route_onlyFamily (r : router) (vs : visits) (input : Z) (src dst : net.IP)
    (ipv6 : bool) :
  route (onlyFamily ipv6 r) (onlyFamilyVisits ipv6 vs) input src dst ipv6
  = route r vs input src dst ipv6.
Proof.
  unfold route.
  assert (Hp : (if ipv6 then v6 (onlyFamily ipv6 r) else v4 (onlyFamily ipv6 r))
               = (if ipv6 then v6 r else v4 r)) by (destruct ipv6; reflexivity).
  rewrite Hp. destruct (scan _ _ _ _); [apply derive_onlyFamily | reflexivity].
Qed.

(** X25. A resolution reads the routes and the interface addresses of the
    family of the destination only: [RouteWithSrc] gives the same answer on
    the router without the partition and the addresses of the other family,
    where the family is IPv4 when the destination has a four-byte form and
    IPv6 when not. *)
Theorem X25_family_of_the_destination (r : router) (vs : visits)
    (input : net.HardwareAddr) (src dst : net.IP) :
  RouteWithSrc (onlyFamily (isNil (net.To4 dst)) r)
               (onlyFamilyVisits (isNil (net.To4 dst)) vs) input src dst
  = RouteWithSrc r vs input src dst
  /\ (visitsOf r vs ->
      visitsOf (onlyFamily (isNil (net.To4 dst)) r)
               (onlyFamilyVisits (isNil (net.To4 dst)) vs)).
Proof.
  split.
  - unfold RouteWithSrc. cbn [visitIfaces onlyFamilyVisits].
    set (ipv6 := isNil (net.To4 dst)).
    change (visitIfaces (onlyFamilyVisits ipv6 vs)) with (visitIfaces vs).
    set (i := if negb (isNil input) then _ else _).
    destruct (isNil (net.To4 dst)) eqn:E4; subst ipv6; simpl negb; cbv iota.
    + destruct (isNil (net.To16 dst)); simpl negb; cbv iota; [reflexivity |].
      rewrite route_onlyFamily. reflexivity.
    + rewrite route_onlyFamily. reflexivity.
  - intros (Hi & Hp & Ha). unfold visitsOf, rangeOver in *.
    cbn [onlyFamily onlyFamilyVisits ifaces addrs visitIfaces visitAddrsPref visitAddrsAny].
    split; [exact Hi |].
    rewrite map_to_list_fmap. unfold prod_map.
    split; [rewrite Hp | rewrite Ha]; reflexivity.
Qed.

Lemma X25_witness :
  RouteWithSrc (onlyFamily (isNil (net.To4 (ip4 192 168 1 50))) homeRouter)
               (onlyFamilyVisits (isNil (net.To4 (ip4 192 168 1 50))) (someVisits homeRouter))
               None None (ip4 192 168 1 50)
  = RouteWithSrc homeRouter (someVisits homeRouter) None None (ip4 192 168 1 50)
  /\ visitsOf (onlyFamily (isNil (net.To4 (ip4 192 168 1 50))) homeRouter)
              (onlyFamilyVisits (isNil (net.To4 (ip4 192 168 1 50))) (someVisits homeRouter)).
Proof.
  destruct (X25_family_of_the_destination homeRouter (someVisits homeRouter) None None
              (ip4 192 168 1 50)) as [H1 H2].
  split; [exact H1 | apply H2, someVisits_ok].
Defined.
